(** * Ledger Mutation & Audit Engine of the CICS banking port

    A shallow embedding of [src/python]: [config.py], [database.py] (the
    schema: primary keys, the foreign key of accounts, the [foreign_keys]
    pragma), [dao.py], [credit.py] and [services.py], followed by the
    properties of the engine.

    Conventions of the embedding.
    - A Python [int] is a [Z]; integer columns hold a [Z]. The driver binds
      64-bit integers only and raises OverflowError on any other before the
      statement runs; that exception is not modelled, and [int64] marks the
      range where an outcome depends on it.
    - A Python [str] is a [string] holding its UTF-8 encoding, one byte per
      [ascii]: the text SQLite stores. (A str with a lone surrogate has no
      encoding and cannot be bound to a statement.)
    - A table with [PRIMARY KEY (sortcode, number)] is a finite map from that
      key to the remaining columns; a row read back ([dict(row)]) is the pair
      of its key and its columns.
    - The [transactions] table is the list of its rows in insertion order.
    - The connection is threaded through every call; a raised exception
      leaves the connection as it is at the raise (the caller decides on
      commit or rollback).
    - The system clock, the scoring agencies and SQL [RANDOM()] are oracles
      carried by the world; every reading consumes one index. *)

From stdpp Require Import base tactics option list gmap strings pretty sorting.
From Stdlib Require Import ZArith Lia.

Local Open Scope Z_scope.

(** ** config.py *)

Definition SORT_CODE : string := "987654".
Definition MAX_ACCOUNTS_PER_QUERY : Z := 20.

Definition VALID_TITLES : list string :=
  [ "Mr"; "Mrs"; "Miss"; "Ms"; "Dr"; "Drs";
    "Professor"; "Lord"; "Sir"; "Lady"; "" ].

Definition VALID_ACCOUNT_TYPES : list string :=
  [ "CURRENT"; "SAVING"; "LOAN"; "MORTGAGE"; "ISA" ].

(** A dict literal: the pairs in source order; [dict_get] is [d.get(k, dflt)]. *)
Definition dict (V : Type) := list (string * V).

Fixpoint dict_get {V} (d : dict V) (k : string) (dflt : V) : V :=
  match d with
  | [] => dflt
  | (k', v) :: d' => if decide (k' = k) then v else dict_get d' k dflt
  end.

Definition DEFAULT_RATES : dict (dict Z) :=
  [ ("ISA",      [ ("interest", 250); ("overdraft", 0) ]);
    ("SAVING",   [ ("interest", 150); ("overdraft", 0) ]);
    ("CURRENT",  [ ("interest", 0);   ("overdraft", 0) ]);
    ("LOAN",     [ ("interest", 750); ("overdraft", 0) ]);
    ("MORTGAGE", [ ("interest", 450); ("overdraft", 0) ]) ].

(** ** database.py: rows, tables, connection *)

Abbreviation key := (string * Z)%type.

Record customer := Customer {
  name : string;
  address : string;
  date_of_birth : string;
  credit_score : Z;
  cs_review_date : string
}.

Record account := Account {
  customer_number : Z;
  account_type : string;
  interest_rate : Z;
  opened : string;
  overdraft_limit : Z;
  last_statement : option string;
  next_statement : option string;
  available_balance : Z;
  actual_balance : Z
}.

Record transaction := Transaction {
  id : Z;
  sortcode : string;
  account_number : Z;
  trans_date : string;
  trans_time : string;
  trans_type : string;
  description : string;
  amount : Z
}.

(** [foreign_keys] is the pragma set by [get_connection]; [sqlite_sequence]
    is the AUTOINCREMENT high-water mark of [transactions]. *)
Record Conn := MkConn {
  customers : gmap key customer;
  accounts : gmap key account;
  transactions : list transaction;
  sqlite_sequence : Z;
  foreign_keys : bool
}.

Definition init_db : Conn :=
  {| customers := ∅; accounts := ∅; transactions := []; sqlite_sequence := 0;
     foreign_keys := true |}.

Definition set_customers (t : gmap key customer) (c : Conn) : Conn :=
  {| customers := t; accounts := accounts c; transactions := transactions c;
     sqlite_sequence := sqlite_sequence c; foreign_keys := foreign_keys c |}.

Definition set_accounts (t : gmap key account) (c : Conn) : Conn :=
  {| customers := customers c; accounts := t; transactions := transactions c;
     sqlite_sequence := sqlite_sequence c; foreign_keys := foreign_keys c |}.

(** ** Exceptions, ambient oracles and the engine monad *)

Inductive exn :=
| CustomerNotFound (msg : string)
| AccountNotFound (msg : string)
| ValidationError (msg : string)
| InsufficientFunds (msg : string)
| IntegrityError (msg : string)
| TimeoutError
| ValueError (msg : string)
| IndexError (msg : string).

Inductive outcome (A : Type) :=
| Return (a : A)
| Raise (e : exn).
Arguments Return {A} a.
Arguments Raise {A} e.

(** One reading of the system clock, already formatted: [%Y-%m-%d] (also
    [date.isoformat()]) and [%H%M%S]. *)
Record instant := Instant { iso_date : string; hms : string }.

(** [clock n] is the n-th ambient reading of the clock; [probe n i] is what
    [f.result(timeout=10)] finds for agency [i] of the n-th fan-out: the raw
    draw behind [random.randint], or [None] when the result is not there in
    time; [sql_random n] is the draw behind [ORDER BY RANDOM()]. *)
Record World := MkWorld {
  conn : Conn;
  clock : nat → instant;
  probe : nat → Z → option Z;
  sql_random : nat → nat;
  reads : nat
}.

Definition set_conn (c : Conn) (w : World) : World :=
  {| conn := c; clock := clock w; probe := probe w;
     sql_random := sql_random w; reads := reads w |}.

Definition tick (w : World) : World :=
  {| conn := conn w; clock := clock w; probe := probe w;
     sql_random := sql_random w; reads := S (reads w) |}.

Definition M (A : Type) : Type := World → outcome A * World.

Definition ret {A} (a : A) : M A := λ w, (Return a, w).
Definition raise {A} (e : exn) : M A := λ w, (Raise e, w).
Definition bind {A B} (m : M A) (k : A → M B) : M B :=
  λ w, match m w with
       | (Return a, w') => k a w'
       | (Raise e, w') => (Raise e, w')
       end.

Global Instance engine_ret : MRet M := @ret.
Global Instance engine_bind : MBind M := λ A B k m, bind m k.

(** A query: reads the connection. *)
Definition query {A} (f : Conn → A) : M A := λ w, (Return (f (conn w)), w).

(** A statement: either fails, leaving the connection as it is, or replaces it. *)
Definition execute (f : Conn → exn + Conn) : M unit :=
  λ w, match f (conn w) with
       | inl e => (Raise e, w)
       | inr c => (Return (), set_conn c w)
       end.

(** [for x in l: body(x)] *)
Fixpoint for_each {A} (l : list A) (body : A → M unit) : M unit :=
  match l with
  | [] => ret ()
  | x :: l' => body x;; for_each l' body
  end.

Definition datetime_now : M instant :=
  λ w, (Return (clock w (reads w)), tick w).

Definition date_today_isoformat : M string :=
  λ w, (Return (iso_date (clock w (reads w))), tick w).

(** ** SQL fragments shared by the DAOs *)

(** [WHERE sortcode=?] over a keyed table, as key/columns pairs. *)
Definition in_sortcode {V} (s : string) (t : gmap key V) : list (key * V) :=
  filter (λ r, r.1.1 = s) (map_to_list t).

Definition number_le {V} (r1 r2 : key * V) : Prop := r1.1.2 ≤ r2.1.2.
Definition number_ge {V} (r1 r2 : key * V) : Prop := r2.1.2 ≤ r1.1.2.

Global Instance number_le_dec {V} (r1 r2 : key * V) : Decision (number_le r1 r2).
Proof. unfold number_le. apply _. Defined.
Global Instance number_ge_dec {V} (r1 r2 : key * V) : Decision (number_ge r1 r2).
Proof. unfold number_ge. apply _. Defined.

(** [ORDER BY number] and [ORDER BY number DESC] *)
Definition order_by_number {V} (l : list (key * V)) : list (key * V) :=
  merge_sort number_le l.
Definition order_by_number_desc {V} (l : list (key * V)) : list (key * V) :=
  merge_sort number_ge l.

(** [LIMIT ?]: a negative bound means no bound. *)
Definition sql_limit {A} (n : Z) (l : list A) : list A :=
  if decide (n < 0) then l else take (Z.to_nat n) l.

(** [MAX(number)]: NULL on no rows. *)
Definition sql_max (l : list Z) : option Z :=
  match l with
  | [] => None
  | x :: l' => Some (foldr Z.max x l')
  end.

(** [WHERE sortcode=? AND customer_number=?] on accounts; also the rows that
    reference a customer through the foreign key. *)
Definition owned_by (s : string) (cn : Z) (r : key * account) : Prop :=
  r.1.1 = s ∧ customer_number r.2 = cn.
Global Instance owned_by_dec s cn r : Decision (owned_by s cn r).
Proof. unfold owned_by. apply _. Defined.

(** [WHERE sortcode=? AND account_number=?] on transactions. *)
Definition logged_for (s : string) (n : Z) (t : transaction) : Prop :=
  sortcode t = s ∧ account_number t = n.
Global Instance logged_for_dec s n t : Decision (logged_for s n t).
Proof. unfold logged_for. apply _. Defined.

(** [cur.rowcount] of an UPDATE or DELETE by primary key. *)
Definition rowcount {V} (t : gmap key V) (k : key) : Z :=
  match t !! k with Some _ => 1 | None => 0 end.

(** [COALESCE(x, d)] *)
Definition coalesce (x : option Z) (d : Z) : Z := default d x.

(** [SELECT COALESCE(MAX(number), 0) + 1 ... WHERE sortcode=?], in integer
    arithmetic: what SQLite computes while the largest stored number is
    below the largest INTEGER. *)
Definition max_number_plus_one {V} (s : string) (t : gmap key V) : Z :=
  coalesce (sql_max ((λ r, r.1.2) <$> in_sortcode s t)) 0 + 1.

(** The range of an SQLite INTEGER. The driver refuses to bind a Python int
    outside it to a statement (OverflowError), so an outcome that depends on
    a bound integer is stated for integers of this range. *)
Definition int64 (n : Z) : Prop := - 2 ^ 63 ≤ n < 2 ^ 63.

(** ** dao.py *)

Module CustomerDAO.

Definition get (sortcode : string) (number : Z) : M (option (key * customer)) :=
  query (λ c, pair (sortcode, number) <$> customers c !! (sortcode, number)).

(** [ORDER BY RANDOM() LIMIT 1]: some row of the sort code, chosen by the
    [sql_random] oracle. *)
Definition get_random (sortcode : string) : M (option (key * customer)) :=
  λ w, let rows := in_sortcode sortcode (customers (conn w)) in
       (Return (rows !! (sql_random w (reads w) `mod` length rows)%nat), tick w).

Definition get_last (sortcode : string) : M (option (key * customer)) :=
  query (λ c, head (sql_limit 1 (order_by_number_desc (in_sortcode sortcode (customers c))))).

Definition create (sortcode : string) (number : Z) (name address date_of_birth : string)
    (credit_score : Z) (cs_review_date : string) : M unit :=
  execute (λ c,
    match customers c !! (sortcode, number) with
    | Some _ => inl (IntegrityError "UNIQUE constraint failed: customers.sortcode, customers.number")
    | None =>
        inr (set_customers
               (<[(sortcode, number) :=
                    Customer name address date_of_birth credit_score cs_review_date]>
                  (customers c)) c)
    end).

(** [sets] is empty exactly when both arguments are [None]. *)
Definition update (sortcode : string) (number : Z) (name address : option string) : M bool :=
  match name, address with
  | None, None => mret false
  | _, _ =>
      n ← query (λ c, rowcount (customers c) (sortcode, number));
      execute (λ c, inr (set_customers
        (alter (λ v, let 'Customer n a d s r := v in
                     Customer (default n name) (default a address) d s r)
               (sortcode, number) (customers c)) c));;
      mret (bool_decide (n > 0))
  end.

(** The foreign key of [accounts] has no [ON DELETE] action: with the
    pragma on, deleting a customer row that an account still references
    fails and deletes nothing. *)
Definition delete (sortcode : string) (number : Z) : M bool :=
  n ← query (λ c, rowcount (customers c) (sortcode, number));
  execute (λ c,
    if foreign_keys c && bool_decide (n > 0) &&
       bool_decide (Exists (owned_by sortcode number)
                           (map_to_list (accounts c)))
    then inl (IntegrityError "FOREIGN KEY constraint failed")
    else inr (set_customers (base.delete (sortcode, number) (customers c)) c));;
  mret (bool_decide (n > 0)).

Definition next_number (sortcode : string) : M Z :=
  query (λ c, max_number_plus_one sortcode (customers c)).

Definition count (sortcode : string) : M Z :=
  query (λ c, Z.of_nat (length (in_sortcode sortcode (customers c)))).

Definition list_all (sortcode : string) (limit : Z) : M (list (key * customer)) :=
  query (λ c, sql_limit limit (order_by_number (in_sortcode sortcode (customers c)))).

End CustomerDAO.

Module AccountDAO.

Definition get (sortcode : string) (number : Z) : M (option (key * account)) :=
  query (λ c, pair (sortcode, number) <$> accounts c !! (sortcode, number)).

Definition get_last (sortcode : string) : M (option (key * account)) :=
  query (λ c, head (sql_limit 1 (order_by_number_desc (in_sortcode sortcode (accounts c))))).

Definition get_by_customer (sortcode : string) (customer_number : Z) (limit : Z)
    : M (list (key * account)) :=
  query (λ c, sql_limit limit (order_by_number
    (filter (owned_by sortcode customer_number)
            (map_to_list (accounts c))))).

Definition create (sortcode : string) (number customer_number : Z) (account_type : string)
    (interest_rate : Z) (opened : string) (overdraft_limit : Z) : M unit :=
  execute (λ c,
    match accounts c !! (sortcode, number) with
    | Some _ => inl (IntegrityError "UNIQUE constraint failed: accounts.sortcode, accounts.number")
    | None =>
        if foreign_keys c && bool_decide (customers c !! (sortcode, customer_number) = None)
        then inl (IntegrityError "FOREIGN KEY constraint failed")
        else inr (set_accounts
                    (<[(sortcode, number) :=
                         Account customer_number account_type interest_rate opened
                                 overdraft_limit None None 0 0]>
                       (accounts c)) c)
    end).

Definition update (sortcode : string) (number : Z) (account_type : option string)
    (interest_rate overdraft_limit : option Z) : M bool :=
  match account_type, interest_rate, overdraft_limit with
  | None, None, None => mret false
  | _, _, _ =>
      n ← query (λ c, rowcount (accounts c) (sortcode, number));
      execute (λ c, inr (set_accounts
        (alter (λ v, let 'Account cn ty ir op ol ls ns av ac := v in
                     Account cn (default ty account_type) (default ir interest_rate) op
                             (default ol overdraft_limit) ls ns av ac)
               (sortcode, number) (accounts c)) c));;
      mret (bool_decide (n > 0))
  end.

Definition update_balance (sortcode : string) (number : Z)
    (available_balance actual_balance : Z) : M bool :=
  n ← query (λ c, rowcount (accounts c) (sortcode, number));
  execute (λ c, inr (set_accounts
    (alter (λ v, let 'Account cn ty ir op ol ls ns _ _ := v in
                 Account cn ty ir op ol ls ns available_balance actual_balance)
           (sortcode, number) (accounts c)) c));;
  mret (bool_decide (n > 0)).

Definition delete (sortcode : string) (number : Z) : M bool :=
  n ← query (λ c, rowcount (accounts c) (sortcode, number));
  execute (λ c, inr (set_accounts (base.delete (sortcode, number) (accounts c)) c));;
  mret (bool_decide (n > 0)).

Definition next_number (sortcode : string) : M Z :=
  query (λ c, max_number_plus_one sortcode (accounts c)).

Definition count (sortcode : string) : M Z :=
  query (λ c, Z.of_nat (length (in_sortcode sortcode (accounts c)))).

End AccountDAO.

Module TransactionDAO.

(** The surrogate key is [INTEGER PRIMARY KEY AUTOINCREMENT]: one more than
    the largest key the table holds or has ever held. *)
Definition next_id (c : Conn) : Z :=
  Z.max (sqlite_sequence c) (foldr Z.max 0 (id <$> transactions c)) + 1.

Definition create (sortcode : string) (account_number : Z)
    (trans_date trans_time trans_type description : string) (amount : Z) : M unit :=
  execute (λ c, inr
    {| customers := customers c; accounts := accounts c;
       transactions := transactions c ++
         [Transaction (next_id c) sortcode account_number trans_date trans_time
                      trans_type description amount];
       sqlite_sequence := next_id c; foreign_keys := foreign_keys c |}).

Definition id_ge (t1 t2 : transaction) : Prop := id t2 ≤ id t1.
Global Instance id_ge_dec t1 t2 : Decision (id_ge t1 t2).
Proof. unfold id_ge. apply _. Defined.

Definition get_by_account (sortcode : string) (account_number : Z) (limit : Z)
    : M (list transaction) :=
  query (λ c, sql_limit limit (merge_sort id_ge
    (filter (logged_for sortcode account_number)
            (transactions c)))).

End TransactionDAO.

(** ** credit.py *)

(** [random.randint(a, b)] on the raw draw [raw]. *)
Definition randint (a b raw : Z) : Z := a + raw `mod` (b - a + 1).

(** The value a probe returns once its delay has passed. *)
Definition single_agency (raw : Z) : Z := randint 1 999 raw.

(** [f.result(timeout=10)] on a future whose value is, or is not, there in time. *)
Definition result (f : option Z) : M Z :=
  match f with
  | Some v => mret v
  | None => raise TimeoutError
  end.

(** [[f.result(timeout=10) for f in futures]] *)
Fixpoint results (futures : list (option Z)) : M (list Z) :=
  match futures with
  | [] => mret []
  | f :: fs => v ← result f; vs ← results fs; mret (v :: vs)
  end.

Definition sum (l : list Z) : Z := foldr Z.add 0 l.

(** [ThreadPoolExecutor] refuses [max_workers <= 0]; the submitted probes of
    one fan-out are read from the [probe] oracle at the current index. *)
Definition submit_all (num_agencies : Z) : M (list (option Z)) :=
  λ w, (Return ((λ i, single_agency <$> probe w (reads w) i) <$> seqZ 0 num_agencies), tick w).

Definition credit_check (num_agencies : Z) : M Z :=
  if decide (num_agencies ≤ 0)
  then raise (ValueError "max_workers must be greater than 0")
  else
    futures ← submit_all num_agencies;
    scores ← results futures;
    mret (sum scores `div` Z.of_nat (length scores)).

(** ** Python string methods used by services.py *)

(** Characters are read off the UTF-8 encoding of a [str]: whitespace
    characters have one, two or three bytes, and none of their bytes can be
    taken for the start of another character. *)

(** The UTF-8 bytes of the code point [c]. *)
Definition utf8 (c : N) : string :=
  let byte (n : N) := String (Ascii.ascii_of_N n) in
  if (c <? 0x80)%N then byte c EmptyString
  else if (c <? 0x800)%N then
    byte (0xC0 + c / 0x40)%N (byte (0x80 + c `mod` 0x40)%N EmptyString)
  else if (c <? 0x10000)%N then
    byte (0xE0 + c / 0x1000)%N
      (byte (0x80 + (c / 0x40) `mod` 0x40)%N (byte (0x80 + c `mod` 0x40)%N EmptyString))
  else
    byte (0xF0 + c / 0x40000)%N
      (byte (0x80 + (c / 0x1000) `mod` 0x40)%N
         (byte (0x80 + (c / 0x40) `mod` 0x40)%N (byte (0x80 + c `mod` 0x40)%N EmptyString))).

(** The code points on which [str.isspace] is true; [str.strip] and
    [str.split] without argument treat exactly these as whitespace. *)
Definition whitespace : list N :=
  [0x09; 0x0A; 0x0B; 0x0C; 0x0D; 0x1C; 0x1D; 0x1E; 0x1F; 0x20; 0x85; 0xA0;
   0x1680; 0x2000; 0x2001; 0x2002; 0x2003; 0x2004; 0x2005; 0x2006; 0x2007;
   0x2008; 0x2009; 0x200A; 0x2028; 0x2029; 0x202F; 0x205F; 0x3000]%N.

(** [c.isspace()] for one character [c], given by its bytes. *)
Definition isspace (c : string) : bool := bool_decide (c ∈ utf8 <$> whitespace).


(** The rest of [s] after the whitespace character it starts with, if it
    starts with one (of one, two or three bytes). *)
Definition skip_space (s : string) : option string :=
  match s with
  | EmptyString => None
  | String a r1 =>
      if isspace (String a EmptyString) then Some r1 else
      match r1 with
      | EmptyString => None
      | String b r2 =>
          if isspace (String a (String b EmptyString)) then Some r2 else
          match r2 with
          | EmptyString => None
          | String c r3 =>
              if isspace (String a (String b (String c EmptyString))) then Some r3
              else None
          end
      end
  end.

Fixpoint lstrip (s : string) : string :=
  match s with
  | EmptyString => EmptyString
  | String a r1 =>
      if isspace (String a EmptyString) then lstrip r1 else
      match r1 with
      | EmptyString => s
      | String b r2 =>
          if isspace (String a (String b EmptyString)) then lstrip r2 else
          match r2 with
          | EmptyString => s
          | String c r3 =>
              if isspace (String a (String b (String c EmptyString))) then lstrip r3
              else s
          end
      end
  end.

(** Nothing is left of an all-whitespace string; otherwise the first byte
    stays and the rest is stripped. *)
Fixpoint rstrip (s : string) : string :=
  match s with
  | EmptyString => EmptyString
  | String a s' =>
      if bool_decide (lstrip s = EmptyString) then EmptyString else String a (rstrip s')
  end.

Definition strip (s : string) : string := rstrip (lstrip s).

(** [s.split()]: the maximal runs of non-space characters; [tok] is the run
    being read. *)
Definition close (tok : string) (rest : list string) : list string :=
  if decide (tok = EmptyString) then rest else tok :: rest.

Fixpoint split_from (tok : string) (s : string) : list string :=
  match s with
  | EmptyString => close tok []
  | String a r1 =>
      if isspace (String a EmptyString) then close tok (split_from EmptyString r1) else
      match r1 with
      | EmptyString => split_from (tok +:+ String a EmptyString) r1
      | String b r2 =>
          if isspace (String a (String b EmptyString))
          then close tok (split_from EmptyString r2) else
          match r2 with
          | EmptyString => split_from (tok +:+ String a EmptyString) r1
          | String c r3 =>
              if isspace (String a (String b (String c EmptyString)))
              then close tok (split_from EmptyString r3)
              else split_from (tok +:+ String a EmptyString) r1
          end
      end
  end.

Definition split (s : string) : list string := split_from EmptyString s.

(** ** services.py *)

Definition _audit (sortcode : string) (account_number : Z)
    (trans_type description : string) (amount : Z) : M unit :=
  now ← datetime_now;
  TransactionDAO.create sortcode account_number (iso_date now) (hms now)
                        trans_type description amount.

(** [name.split()[0] if name.strip() else ""] *)
Definition title_of (name : string) : M string :=
  if decide (strip name = EmptyString) then mret EmptyString
  else match split name with
       | t :: _ => mret t
       | [] => raise (IndexError "list index out of range")
       end.

Definition get_customer (sortcode : string) (number : Z) : M (key * customer) :=
  cust ← (if decide (number = 0) then CustomerDAO.get_random sortcode
          else if decide (9999999999 ≤ number) then CustomerDAO.get_last sortcode
          else CustomerDAO.get sortcode number);
  match cust with
  | None => raise (CustomerNotFound ("Customer " +:+ pretty number +:+ " not found"))
  | Some cust => mret cust
  end.

Definition get_account (sortcode : string) (number : Z) : M (key * account) :=
  acc ← (if decide (99999999 ≤ number) then AccountDAO.get_last sortcode
         else AccountDAO.get sortcode number);
  match acc with
  | None => raise (AccountNotFound ("Account " +:+ pretty number +:+ " not found"))
  | Some acc => mret acc
  end.

Definition get_accounts_by_customer (sortcode : string) (customer_number : Z)
    : M (list (key * account)) :=
  cust ← CustomerDAO.get sortcode customer_number;
  match cust with
  | None => raise (CustomerNotFound ("Customer " +:+ pretty customer_number +:+ " not found"))
  | Some _ => AccountDAO.get_by_customer sortcode customer_number MAX_ACCOUNTS_PER_QUERY
  end.

Definition create_customer (name address date_of_birth sortcode : string)
    : M (option (key * customer)) :=
  title ← title_of name;
  if decide (title ∉ VALID_TITLES)
  then raise (ValidationError ("Invalid title: '" +:+ title +:+ "'"))
  else
    number ← CustomerDAO.next_number sortcode;
    score ← credit_check 5;
    today ← date_today_isoformat;
    CustomerDAO.create sortcode number name address date_of_birth score today;;
    _audit sortcode 0 "OCC" ("Create customer " +:+ pretty number) 0;;
    CustomerDAO.get sortcode number.

Definition create_account (customer_number : Z) (account_type : string)
    (interest_rate overdraft_limit : option Z) (sortcode : string)
    : M (option (key * account)) :=
  if decide (account_type ∉ VALID_ACCOUNT_TYPES)
  then raise (ValidationError ("Invalid account type: '" +:+ account_type +:+ "'"))
  else
    cust ← CustomerDAO.get sortcode customer_number;
    match cust with
    | None => raise (CustomerNotFound ("Customer " +:+ pretty customer_number +:+ " not found"))
    | Some _ =>
        let defaults := dict_get DEFAULT_RATES account_type [] in
        let interest_rate := match interest_rate with
                             | None => dict_get defaults "interest" 0
                             | Some r => r
                             end in
        let overdraft_limit := match overdraft_limit with
                               | None => dict_get defaults "overdraft" 0
                               | Some l => l
                               end in
        number ← AccountDAO.next_number sortcode;
        today ← date_today_isoformat;
        AccountDAO.create sortcode number customer_number account_type interest_rate
                          today overdraft_limit;;
        _audit sortcode number "OCA"
               ("Create account for cust " +:+ pretty customer_number) 0;;
        AccountDAO.get sortcode number
    end.

Definition update_customer (number : Z) (name address : option string) (sortcode : string)
    : M (option (key * customer)) :=
  cust ← CustomerDAO.get sortcode number;
  match cust with
  | None => raise (CustomerNotFound ("Customer " +:+ pretty number +:+ " not found"))
  | Some _ =>
      match name with
      | None => mret ()
      | Some name =>
          title ← title_of name;
          if decide (title ∉ VALID_TITLES)
          then raise (ValidationError ("Invalid title: '" +:+ title +:+ "'"))
          else mret ()
      end;;
      CustomerDAO.update sortcode number name address;;
      CustomerDAO.get sortcode number
  end.

Definition update_account (number : Z) (account_type : option string)
    (interest_rate overdraft_limit : option Z) (sortcode : string)
    : M (option (key * account)) :=
  acc ← AccountDAO.get sortcode number;
  match acc with
  | None => raise (AccountNotFound ("Account " +:+ pretty number +:+ " not found"))
  | Some _ =>
      match account_type with
      | Some ty =>
          if decide (ty ∉ VALID_ACCOUNT_TYPES)
          then raise (ValidationError ("Invalid account type: '" +:+ ty +:+ "'"))
          else mret ()
      | None => mret ()
      end;;
      AccountDAO.update sortcode number account_type interest_rate overdraft_limit;;
      AccountDAO.get sortcode number
  end.

Definition delete_account (number : Z) (sortcode : string) : M bool :=
  acc ← AccountDAO.get sortcode number;
  match acc with
  | None => raise (AccountNotFound ("Account " +:+ pretty number +:+ " not found"))
  | Some _ =>
      AccountDAO.delete sortcode number;;
      _audit sortcode number "ODA" ("Delete account " +:+ pretty number) 0;;
      mret true
  end.

Definition delete_customer (number : Z) (sortcode : string) : M bool :=
  cust ← CustomerDAO.get sortcode number;
  match cust with
  | None => raise (CustomerNotFound ("Customer " +:+ pretty number +:+ " not found"))
  | Some _ =>
      accounts ← AccountDAO.get_by_customer sortcode number MAX_ACCOUNTS_PER_QUERY;
      for_each accounts (λ acc, delete_account acc.1.2 sortcode;; mret ());;
      CustomerDAO.delete sortcode number;;
      _audit sortcode 0 "ODC" ("Delete customer " +:+ pretty number) 0;;
      mret true
  end.

(** The returned dict [{"from_balance": _, "to_balance": _}] is the pair of
    its two values. *)
Definition transfer_funds (from_number to_number amount : Z) (sortcode : string)
    : M (Z * Z) :=
  from_acc ← AccountDAO.get sortcode from_number;
  to_acc ← AccountDAO.get sortcode to_number;
  match from_acc, to_acc with
  | None, _ =>
      raise (AccountNotFound ("From-account " +:+ pretty from_number +:+ " not found"))
  | Some _, None =>
      raise (AccountNotFound ("To-account " +:+ pretty to_number +:+ " not found"))
  | Some from_acc, Some to_acc =>
      let new_from_avail := available_balance from_acc.2 - amount in
      let new_from_actual := actual_balance from_acc.2 - amount in
      AccountDAO.update_balance sortcode from_number new_from_avail new_from_actual;;
      let new_to_avail := available_balance to_acc.2 + amount in
      let new_to_actual := actual_balance to_acc.2 + amount in
      AccountDAO.update_balance sortcode to_number new_to_avail new_to_actual;;
      _audit sortcode from_number "TFR" ("Transfer to " +:+ pretty to_number) amount;;
      _audit sortcode to_number "TFR" ("Transfer from " +:+ pretty from_number) amount;;
      mret (new_from_actual, new_to_actual)
  end.

(** The returned dict [{"available_balance": _, "actual_balance": _}] is the
    pair of its two values. *)
Definition debit_credit (number amount : Z) (is_debit : bool) (sortcode : string)
    : M (Z * Z) :=
  acc ← AccountDAO.get sortcode number;
  match acc with
  | None => raise (AccountNotFound ("Account " +:+ pretty number +:+ " not found"))
  | Some acc =>
      let signed := if is_debit then - amount else amount in
      (if is_debit then
         if decide (account_type acc.2 ∈ ["MORTGAGE"; "LOAN"])
         then raise (ValidationError "Cannot debit MORTGAGE/LOAN account")
         else if decide (available_balance acc.2 + signed < 0)
         then raise (InsufficientFunds "Insufficient funds for debit")
         else mret ()
       else mret ());;
      let new_avail := available_balance acc.2 + signed in
      let new_actual := actual_balance acc.2 + signed in
      AccountDAO.update_balance sortcode number new_avail new_actual;;
      let ttype := if is_debit then "DEB" else "CRE" in
      _audit sortcode number ttype
             ((if is_debit then "Debit" else "Credit") +:+ " " +:+ pretty amount)
             (Z.abs signed);;
      mret (new_avail, new_actual)
  end.

(** ** The operation set, as a request layer would invoke it *)

Inductive request :=
| GetCustomer (sortcode : string) (number : Z)
| GetAccount (sortcode : string) (number : Z)
| GetAccountsByCustomer (sortcode : string) (customer_number : Z)
| CreateCustomer (name address date_of_birth sortcode : string)
| CreateAccount (customer_number : Z) (account_type : string)
                (interest_rate overdraft_limit : option Z) (sortcode : string)
| UpdateCustomer (number : Z) (name address : option string) (sortcode : string)
| UpdateAccount (number : Z) (account_type : option string)
                (interest_rate overdraft_limit : option Z) (sortcode : string)
| DeleteAccount (number : Z) (sortcode : string)
| DeleteCustomer (number : Z) (sortcode : string)
| TransferFunds (from_number to_number amount : Z) (sortcode : string)
| DebitCredit (number amount : Z) (is_debit : bool) (sortcode : string).

(** The world an operation leaves behind, whether it returns or raises. *)
Definition after {A} (m : M A) (w : World) : World := (m w).2.

Definition serve (r : request) (w : World) : World :=
  match r with
  | GetCustomer s n => after (get_customer s n) w
  | GetAccount s n => after (get_account s n) w
  | GetAccountsByCustomer s n => after (get_accounts_by_customer s n) w
  | CreateCustomer n a d s => after (create_customer n a d s) w
  | CreateAccount c t i o s => after (create_account c t i o s) w
  | UpdateCustomer n nm a s => after (update_customer n nm a s) w
  | UpdateAccount n t i o s => after (update_account n t i o s) w
  | DeleteAccount n s => after (delete_account n s) w
  | DeleteCustomer n s => after (delete_customer n s) w
  | TransferFunds f t a s => after (transfer_funds f t a s) w
  | DebitCredit n a d s => after (debit_credit n a d s) w
  end.

Definition serve_all (rs : list request) (w : World) : World := foldl (λ w r, serve r w) w rs.

(** Customer creations one after the other, collecting [cust["number"]]. *)
Fixpoint create_customers (names : list string) (sortcode : string) : M (list (option Z)) :=
  match names with
  | [] => mret []
  | name :: names' =>
      cust ← create_customer name "" "" sortcode;
      rest ← create_customers names' sortcode;
      mret (((λ r : key * customer, r.1.2) <$> cust) :: rest)
  end.

(** ** Observations used in the statements *)

(** The columns of an audit entry that the engine chooses. *)
Definition audit_view (t : transaction) : string * Z * string * string * Z :=
  (sortcode t, account_number t, trans_type t, description t, amount t).

Definition balanced_at (c : Conn) (k : key) : Prop :=
  ∀ acc, accounts c !! k = Some acc → available_balance acc = actual_balance acc.

Definition blank (s : string) : Prop := lstrip s = EmptyString.

(** No whitespace character starts inside [t] when [post] follows it. *)
Fixpoint no_space (t post : string) : Prop :=
  match t with
  | EmptyString => True
  | String _ t' => skip_space (t +:+ post) = None ∧ no_space t' post
  end.

(** The maximal run of non-space characters at the front of [s]. *)
Fixpoint word (s : string) : string :=
  match s with
  | EmptyString => EmptyString
  | String a s' => if skip_space s is Some _ then EmptyString else String a (word s')
  end.

(** The first whitespace-delimited token of [name] as a function: leading
    whitespace dropped, then the characters up to the next whitespace
    character. [title_of], from the source, is shown to return it. *)
Definition title (name : string) : string := word (lstrip name).

(** [t] is the first whitespace-delimited token of [name], or empty when
    [name] is blank: only whitespace comes before it, it holds no
    whitespace, and whitespace or the end of the name follows it. *)
Definition first_token (name t : string) : Prop :=
  (blank name ∧ t = EmptyString) ∨
  (t ≠ EmptyString ∧
   ∃ pre post, name = pre +:+ t +:+ post ∧ blank pre ∧ no_space t post ∧
               (post = EmptyString ∨ is_Some (skip_space post))).

(** An action that keeps every account with equal balances that way. *)
Definition keeps_balanced {A} (m : M A) : Prop :=
  ∀ w k, balanced_at (conn w) k → balanced_at (conn (m w).2) k.

(** The accounts of a customer in ascending number: what get_by_customer
    reads before its LIMIT. *)
Definition owned (s : string) (number : Z) (c : Conn) : list (key * account) :=
  order_by_number (filter (owned_by s number) (map_to_list (accounts c))).

(** The entry that deleting the account of row [r] appends. *)
Definition oda_view (s : string) (r : key * account) : string * Z * string * string * Z :=
  (s, r.1.2, "ODA", "Delete account " +:+ pretty r.1.2, 0).

(** Every probe of the fan-out read at index [n] has its result in time. *)
Definition scoring_returns (w : World) (n : nat) : Prop :=
  ∀ i, 0 ≤ i < 5 → is_Some (probe w n i).

(** ** Fixtures of tests/test_services.py *)

Module TestServices.

Definition db : World :=
  MkWorld init_db (λ n, Instant "2026-11-03" "101500")
          (λ n i, Some (137 * i + Z.of_nat n)) (λ n, n) 0.

Definition _setup_account (balance : Z) : World :=
  after (AccountDAO.update_balance SORT_CODE 1 balance balance)
    (after (create_account 1 "CURRENT" None None SORT_CODE)
      (after (create_customer "Mr A" "addr" "" SORT_CODE) db)).

Definition _setup_two_accounts (bal1 bal2 : Z) : World :=
  after (AccountDAO.update_balance SORT_CODE 2 bal2 bal2)
    (after (AccountDAO.update_balance SORT_CODE 1 bal1 bal1)
      (after (create_account 1 "SAVING" None None SORT_CODE)
        (after (create_account 1 "CURRENT" None None SORT_CODE)
          (after (create_customer "Mr A" "addr" "" SORT_CODE) db)))).

(** One customer owning [n] accounts. *)
Definition _setup_accounts (n : nat) : World :=
  Nat.iter n (after (create_account 1 "CURRENT" None None SORT_CODE))
    (after (create_customer "Mr A" "addr" "" SORT_CODE) db).

End TestServices.

(** ** database.py: [get_db] *)

(** The context manager: commit when the body returns, rollback and re-raise
    when it raises. A rollback restores the tables (and the AUTOINCREMENT
    mark) as they were when the unit of work began; the oracles consumed so
    far stay consumed. *)
Definition get_db {A} (body : M A) : M A :=
  λ w, match body w with
       | (Return a, w') => (Return a, w')
       | (Raise e, w') => (Raise e, set_conn (conn w) w')
       end.

(** ** api.py *)

Definition COMPANY_NAME : string := "CICS Bank Sample Application".

Module Api.

(** [str(e)] when [e] is a ServiceError, that is, what [except ServiceError
    as e] catches. *)
Definition service_error (e : exn) : option string :=
  match e with
  | CustomerNotFound msg | AccountNotFound msg
  | ValidationError msg | InsufficientFunds msg => Some msg
  | _ => None
  end.

(** The response dict [{"success": _, "message": _, "data": _}]. *)
Record ApiResult (A : Type) := MkResult {
  success : bool;
  message : string;
  data : option A
}.
Arguments MkResult {A} _ _ _.
Arguments success {A} _.
Arguments message {A} _.
Arguments data {A} _.

Definition _ok {A} (data : option A) (message : string) : ApiResult A :=
  MkResult true message data.

Definition _fail {A} (message : string) : ApiResult A :=
  MkResult false message None.

(** The dependency that hands the connection to a route: the same commit or
    rollback protocol as [get_db]. *)
Definition _get_db {A} (route : M A) : M A :=
  λ w, match route w with
       | (Return a, w') => (Return a, w')
       | (Raise e, w') => (Raise e, set_conn (conn w) w')
       end.

(** [try: x = call; return ok(x)  except ServiceError as e: return _fail(str(e))] *)
Definition try_service {A B} (call : M A) (ok : A → ApiResult B) : M (ApiResult B) :=
  λ w, match call w with
       | (Return a, w') => (Return (ok a), w')
       | (Raise e, w') =>
           match service_error e with
           | Some msg => (Return (_fail msg), w')
           | None => (Raise e, w')
           end
       end.

Definition get_info : ApiResult (string * string) :=
  _ok (Some (COMPANY_NAME, SORT_CODE)) "".

Definition list_customers : M (ApiResult (list (key * customer))) :=
  _get_db (rows ← CustomerDAO.list_all SORT_CODE 100; mret (_ok (Some rows) "")).

Definition get_customer (number : Z) : M (ApiResult (key * customer)) :=
  _get_db (try_service (get_customer SORT_CODE number) (λ cust, _ok (Some cust) "")).

Definition create_customer (name address date_of_birth : string)
    : M (ApiResult (key * customer)) :=
  _get_db (try_service (create_customer name address date_of_birth SORT_CODE)
                       (λ cust, _ok cust "Customer created")).

Definition update_customer (number : Z) (name address : option string)
    : M (ApiResult (key * customer)) :=
  _get_db (try_service (update_customer number name address SORT_CODE)
                       (λ cust, _ok cust "Customer updated")).

Definition delete_customer (number : Z) : M (ApiResult unit) :=
  _get_db (try_service (delete_customer number SORT_CODE)
                       (λ _, _ok None "Customer deleted")).

Definition get_customer_accounts (number : Z) : M (ApiResult (list (key * account))) :=
  _get_db (try_service (get_accounts_by_customer SORT_CODE number)
                       (λ accs, _ok (Some accs) "")).

Definition get_account (number : Z) : M (ApiResult (key * account)) :=
  _get_db (try_service (get_account SORT_CODE number) (λ acc, _ok (Some acc) "")).

Definition create_account (customer_number : Z) (account_type : string)
    (interest_rate overdraft_limit : option Z) : M (ApiResult (key * account)) :=
  _get_db (try_service
             (create_account customer_number account_type interest_rate
                             overdraft_limit SORT_CODE)
             (λ acc, _ok acc "Account created")).

Definition update_account (number : Z) (account_type : option string)
    (interest_rate overdraft_limit : option Z) : M (ApiResult (key * account)) :=
  _get_db (try_service
             (update_account number account_type interest_rate overdraft_limit SORT_CODE)
             (λ acc, _ok acc "Account updated")).

Definition delete_account (number : Z) : M (ApiResult unit) :=
  _get_db (try_service (delete_account number SORT_CODE)
                       (λ _, _ok None "Account deleted")).

Definition transfer (from_account to_account amount : Z) : M (ApiResult (Z * Z)) :=
  _get_db (try_service (transfer_funds from_account to_account amount SORT_CODE)
                       (λ result, _ok (Some result) "Transfer completed")).

Definition debit_credit (number amount : Z) (is_debit : bool) : M (ApiResult (Z * Z)) :=
  _get_db (try_service (debit_credit number amount is_debit SORT_CODE)
                       (λ result, _ok (Some result)
                                      (if is_debit then "Debit applied" else "Credit applied"))).

Definition get_transactions (account_number : Z) : M (ApiResult (list transaction)) :=
  _get_db (rows ← TransactionDAO.get_by_account SORT_CODE account_number 50;
           mret (_ok (Some rows) "")).

End Api.

(** ** Further observations used in the statements *)

(** An exception that derives from ServiceError. *)
Definition is_service_error (e : exn) : Prop := is_Some (Api.service_error e).

(** A route that either answers [success = true] or leaves the tables as
    they were before the request. *)
Definition all_or_nothing {A} (route : M (Api.ApiResult A)) : Prop :=
  ∀ w, match route w with
       | (Return r, w') => Api.success r = true ∨ conn w' = conn w
       | (Raise e, w') => conn w' = conn w
       end.

(** Every account row references a stored customer row. *)
Definition referential (c : Conn) : Prop :=
  ∀ k a, accounts c !! k = Some a → is_Some (customers c !! (k.1, customer_number a)).

(** The surrogate keys of the audit trail increase along the trail. *)
Definition ids_increasing (c : Conn) : Prop :=
  StronglySorted Z.lt (id <$> transactions c).

(** An action whose ServiceErrors are raised with the tables as it found them. *)
Definition raises_cleanly {A} (m : M A) : Prop :=
  ∀ w e w', m w = (Raise e, w') → is_service_error e → conn w' = conn w.

(** An action that relates the tables it finds to the tables it leaves,
    whether it returns or raises. *)
Definition maintains {A} (R : Conn → Conn → Prop) (m : M A) : Prop :=
  ∀ w, R (conn w) (conn (m w).2).

(** The audit trail of [c] is the beginning of the audit trail of [c']. *)
Definition trail_extends (c c' : Conn) : Prop :=
  transactions c `prefix_of` transactions c'.


(** [c'] has increasing audit keys if [c] has. *)
Definition ids_kept (c c' : Conn) : Prop := ids_increasing c → ids_increasing c'.

(** With the pragma on, [c'] is referentially intact if [c] is. *)
Definition references_kept (c c' : Conn) : Prop :=
  foreign_keys c = true ∧ referential c → foreign_keys c' = true ∧ referential c'.

(** The account row [a] with its two balances replaced. *)
Definition with_balances (a : account) (av ac : Z) : account :=
  Account (customer_number a) (account_type a) (interest_rate a) (opened a)
          (overdraft_limit a) (last_statement a) (next_statement a) av ac.

(** * Properties *)

Ltac engine_unfold :=
  unfold _audit, datetime_now, date_today_isoformat,
    AccountDAO.get, AccountDAO.update_balance, AccountDAO.delete, AccountDAO.create,
    AccountDAO.next_number, AccountDAO.get_by_customer, AccountDAO.update,
    CustomerDAO.get, CustomerDAO.create, CustomerDAO.next_number, CustomerDAO.delete,
    CustomerDAO.update,
    TransactionDAO.create, query, execute,
    mbind, engine_bind, bind, mret, engine_ret, ret, raise in *.

(** ** Money movement *)

Lemma rowcount_Some {V} (t : gmap key V) k v : t !! k = Some v → rowcount t k = 1.
Proof. unfold rowcount. by intros ->. Qed.

(** C3: a debit on a LOAN or MORTGAGE account raises ValidationError whatever
    the balance; on any other account it raises InsufficientFunds exactly
    when [available_balance - amount < 0], the overdraft limit playing no
    part; either error leaves the world, hence the balances and the audit
    trail, as they were; in every other case the debit returns. *)
Theorem debit_credit_debit_guard w s n a acc :
  accounts (conn w) !! (s, n) = Some acc →
  0 ≤ a →
  (account_type acc ∈ ["MORTGAGE"; "LOAN"] →
     debit_credit n a true s w
     = (Raise (ValidationError "Cannot debit MORTGAGE/LOAN account"), w)) ∧
  (account_type acc ∉ ["MORTGAGE"; "LOAN"] →
     (available_balance acc - a < 0 ↔
        debit_credit n a true s w
        = (Raise (InsufficientFunds "Insufficient funds for debit"), w)) ∧
     (¬ available_balance acc - a < 0 ↔
        ∃ r w', debit_credit n a true s w = (Return r, w'))).
Proof.
  intros Hacc _. unfold debit_credit. engine_unfold. simpl.
  rewrite Hacc. simpl.
  split; [intros Hty | intros Hty]; repeat case_decide; try done.
  - split; split; try done; try lia. by intros (r & w' & ?).
  - split; split; try done; try lia. eauto.
Qed.

Lemma debit_credit_debit_guard_witness :
  let w := TestServices._setup_account 5000 in
  ∃ acc, accounts (conn w) !! (SORT_CODE, 1) = Some acc ∧
    available_balance acc - 6000 < 0 ∧
    debit_credit 1 6000 true SORT_CODE w
    = (Raise (InsufficientFunds "Insufficient funds for debit"), w).
Proof.
  eexists. split; [vm_compute; reflexivity|]. split; [vm_compute; reflexivity|].
  eapply (debit_credit_debit_guard (TestServices._setup_account 5000) SORT_CODE 1 6000).
  - vm_compute. reflexivity.
  - lia.
  - vm_compute. intros H. repeat (apply elem_of_cons in H as [H|H]; [discriminate H|]).
    by apply elem_of_nil in H.
  - vm_compute. reflexivity.
Defined.

(** C4: a debit_credit that returns has moved the available and the actual
    balance of the account by the same delta, [- amount] for a debit and
    [+ amount] for a credit (so they stay equal when they started equal),
    has appended one audit entry, DEB or CRE, carrying the absolute amount,
    and returns the two new balances. *)
Theorem debit_credit_additive w s n a is_debit acc r w' :
  accounts (conn w) !! (s, n) = Some acc →
  0 ≤ a →
  debit_credit n a is_debit s w = (Return r, w') →
  ∃ acc' t,
    accounts (conn w') !! (s, n) = Some acc' ∧
    available_balance acc' = available_balance acc + (if is_debit then - a else a) ∧
    actual_balance acc' = actual_balance acc + (if is_debit then - a else a) ∧
    (available_balance acc = actual_balance acc →
       actual_balance acc' = available_balance acc') ∧
    r = (available_balance acc', actual_balance acc') ∧
    transactions (conn w') = (transactions (conn w) ++ [t])%list ∧
    audit_view t = (s, n, if is_debit then "DEB" else "CRE",
                    (if is_debit then "Debit" else "Credit") +:+ " " +:+ pretty a, a).
Proof.
  intros Hacc Ha. unfold debit_credit. engine_unfold. simpl.
  rewrite Hacc. simpl. destruct acc as [cn ty ir op ol ls ns av ac]. simpl.
  destruct is_debit; repeat case_decide; simpl; intros [= <- <-]; simpl;
    rewrite lookup_alter_eq, Hacc; simpl.
  all: eexists _, _; split; [reflexivity|]; simpl.
  all: repeat (split; [first [reflexivity | lia]|]).
  all: unfold audit_view; simpl; repeat f_equal; lia.
Qed.

Lemma debit_credit_additive_witness :
  let w := TestServices._setup_account 50000 in
  ∃ acc' t,
    accounts (conn (after (debit_credit 1 10000 true SORT_CODE) w)) !! (SORT_CODE, 1)
      = Some acc' ∧
    available_balance acc' = 50000 + - 10000 ∧
    actual_balance acc' = 50000 + - 10000 ∧
    (50000 = 50000 → actual_balance acc' = available_balance acc') ∧
    (40000, 40000) = (available_balance acc', actual_balance acc') ∧
    transactions (conn (after (debit_credit 1 10000 true SORT_CODE) w))
      = (transactions (conn w) ++ [t])%list ∧
    audit_view t = (SORT_CODE, 1, "DEB", "Debit 10000", 10000).
Proof.
  apply (debit_credit_additive (TestServices._setup_account 50000) SORT_CODE 1 10000 true
           (Account 1 "CURRENT" 0 "2026-11-03" 0 None None 50000 50000) (40000, 40000)
           (after (debit_credit 1 10000 true SORT_CODE) (TestServices._setup_account 50000))).
  - vm_compute. reflexivity.
  - lia.
  - vm_compute. reflexivity.
Defined.

(** Transfer between two different accounts: no sufficiency check, both
    balance fields of the source go down by the amount, both of the
    destination go up by it, two TFR entries name the counterparts, and the
    two new actual balances are returned. *)
Lemma transfer_funds_distinct w s f t a facc tacc :
  f ≠ t →
  accounts (conn w) !! (s, f) = Some facc →
  accounts (conn w) !! (s, t) = Some tacc →
  ∃ w' facc' tacc' e1 e2,
    transfer_funds f t a s w = (Return (actual_balance facc', actual_balance tacc'), w') ∧
    accounts (conn w') !! (s, f) = Some facc' ∧
    accounts (conn w') !! (s, t) = Some tacc' ∧
    available_balance facc' = available_balance facc - a ∧
    actual_balance facc' = actual_balance facc - a ∧
    available_balance tacc' = available_balance tacc + a ∧
    actual_balance tacc' = actual_balance tacc + a ∧
    (∀ k, k ≠ (s, f) → k ≠ (s, t) → accounts (conn w') !! k = accounts (conn w) !! k) ∧
    customers (conn w') = customers (conn w) ∧
    transactions (conn w') = (transactions (conn w) ++ [e1; e2])%list ∧
    audit_view e1 = (s, f, "TFR", "Transfer to " +:+ pretty t, a) ∧
    audit_view e2 = (s, t, "TFR", "Transfer from " +:+ pretty f, a).
Proof.
  intros Hne Hf Ht. unfold transfer_funds. engine_unfold. simpl.
  rewrite Hf, Ht. simpl.
  assert ((s, f) ≠ (s, t)) as Hk by congruence.
  destruct facc as [cn ty ir op ol ls ns av ac].
  destruct tacc as [cn' ty' ir' op' ol' ls' ns' av' ac']. simpl.
  eexists _, (Account cn ty ir op ol ls ns (av - a) (ac - a)),
    (Account cn' ty' ir' op' ol' ls' ns' (av' + a) (ac' + a)), _, _.
  split; [reflexivity|]. simpl.
  rewrite lookup_alter_ne, !lookup_alter_eq, lookup_alter_ne, Hf, Ht by done. simpl.
  repeat (split; [reflexivity|]).
  split; [|by rewrite <- app_assoc].
  intros k ? ?. by rewrite !lookup_alter_ne.
Qed.

(** An absent account: AccountNotFound names the side, the source first, and
    the world is left as it was. *)
Lemma transfer_funds_not_found w s f t a :
  (accounts (conn w) !! (s, f) = None →
     transfer_funds f t a s w
     = (Raise (AccountNotFound ("From-account " +:+ pretty f +:+ " not found")), w)) ∧
  (is_Some (accounts (conn w) !! (s, f)) → accounts (conn w) !! (s, t) = None →
     transfer_funds f t a s w
     = (Raise (AccountNotFound ("To-account " +:+ pretty t +:+ " not found")), w)).
Proof.
  unfold transfer_funds. engine_unfold. simpl.
  split; [intros -> | intros [x ->] ->]; simpl; by destruct (accounts (conn w) !! (s, t)).
Qed.

(** C2: transfer_funds with [from_number = to_number]. On the account of
    [_setup_account 5000] (both balances 5000), [transfer_funds 1 1 1000]
    returns from_balance 4000 and to_balance 6000 and leaves both stored
    balances at 6000: the source is not debited, the amount is credited out
    of nothing, and the returned from_balance is not the balance after the
    operation. *)
Theorem transfer_funds_same_account_credits_only :
  let w := TestServices._setup_account 5000 in
  (accounts (conn w) !! (SORT_CODE, 1))
    = Some (Account 1 "CURRENT" 0 "2026-11-03" 0 None None 5000 5000) ∧
  (transfer_funds 1 1 1000 SORT_CODE w).1 = Return (4000, 6000) ∧
  accounts (conn (after (transfer_funds 1 1 1000 SORT_CODE) w)) !! (SORT_CODE, 1)
    = Some (Account 1 "CURRENT" 0 "2026-11-03" 0 None None 6000 6000).
Proof. intros w. split; [|split]; vm_compute; reflexivity. Qed.

(** C10: a transfer from an account to itself, with an amount and resulting
    balances that SQLite can hold, returns and appends the two TFR entries;
    the write for the destination side, computed from the balances read
    before the transfer, replaces the write for the source side, so both
    stored fields end [a] above their old value, while the result reports
    [from_balance] as the old actual balance less [a] and [to_balance] as the
    old actual balance plus [a]. For [a ≠ 0] the stored balance has changed
    and the reported from_balance differs from it; for [a = 0] the account
    row is as before. *)
Theorem transfer_funds_self w s n a acc :
  accounts (conn w) !! (s, n) = Some acc →
  int64 a →
  int64 (available_balance acc - a) → int64 (actual_balance acc - a) →
  int64 (available_balance acc + a) → int64 (actual_balance acc + a) →
  ∃ w' acc' e1 e2,
    transfer_funds n n a s w
    = (Return (actual_balance acc - a, actual_balance acc + a), w') ∧
    accounts (conn w') !! (s, n) = Some acc' ∧
    available_balance acc' = available_balance acc + a ∧
    actual_balance acc' = actual_balance acc + a ∧
    transactions (conn w') = (transactions (conn w) ++ [e1; e2])%list ∧
    audit_view e1 = (s, n, "TFR", "Transfer to " +:+ pretty n, a) ∧
    audit_view e2 = (s, n, "TFR", "Transfer from " +:+ pretty n, a) ∧
    (a ≠ 0 →
       available_balance acc' ≠ available_balance acc ∧
       actual_balance acc' ≠ actual_balance acc ∧
       actual_balance acc - a ≠ actual_balance acc') ∧
    (a = 0 → acc' = acc).
Proof.
  intros Hacc _ _ _ _ _. unfold transfer_funds. engine_unfold. simpl.
  rewrite Hacc. simpl. destruct acc as [cn ty ir op ol ls ns av ac]. simpl.
  eexists _, _, _, _. split; [reflexivity|]. simpl.
  rewrite !lookup_alter_eq, Hacc. simpl. split; [reflexivity|]. simpl.
  split; [reflexivity|]. split; [reflexivity|].
  split; [by rewrite <- app_assoc|]. split; [reflexivity|]. split; [reflexivity|].
  split; [intros ?; repeat split; lia|]. intros ->. f_equal; lia.
Qed.

Lemma transfer_funds_self_witness :
  let w := TestServices._setup_account 5000 in
  ∃ w' acc' e1 e2,
    transfer_funds 1 1 1000 SORT_CODE w = (Return (5000 - 1000, 5000 + 1000), w') ∧
    accounts (conn w') !! (SORT_CODE, 1) = Some acc' ∧
    available_balance acc' = 5000 + 1000 ∧
    actual_balance acc' = 5000 + 1000 ∧
    transactions (conn w') = (transactions (conn w) ++ [e1; e2])%list ∧
    audit_view e1 = (SORT_CODE, 1, "TFR", "Transfer to " +:+ pretty 1, 1000) ∧
    audit_view e2 = (SORT_CODE, 1, "TFR", "Transfer from " +:+ pretty 1, 1000) ∧
    (1000 ≠ 0 →
       available_balance acc' ≠ 5000 ∧
       actual_balance acc' ≠ 5000 ∧
       5000 - 1000 ≠ actual_balance acc') ∧
    (1000 = 0 → acc' = Account 1 "CURRENT" 0 "2026-11-03" 0 None None 5000 5000).
Proof.
  apply (transfer_funds_self (TestServices._setup_account 5000) SORT_CODE 1 1000
           (Account 1 "CURRENT" 0 "2026-11-03" 0 None None 5000 5000));
    [vm_compute; reflexivity|unfold int64; cbn; lia..].
Defined.

(** C10 at amount 0: the self-transfer leaves the stored balance where it
    was, and the reported from_balance is the stored balance; the two TFR
    entries are appended all the same. *)
Lemma transfer_funds_self_zero_keeps_balance :
  let w := TestServices._setup_account 5000 in
  (transfer_funds 1 1 0 SORT_CODE w).1 = Return (5000, 5000) ∧
  accounts (conn (after (transfer_funds 1 1 0 SORT_CODE) w)) !! (SORT_CODE, 1)
    = accounts (conn w) !! (SORT_CODE, 1) ∧
  accounts (conn w) !! (SORT_CODE, 1)
    = Some (Account 1 "CURRENT" 0 "2026-11-03" 0 None None 5000 5000) ∧
  audit_view <$> drop (length (transactions (conn w)))
                      (transactions (conn (after (transfer_funds 1 1 0 SORT_CODE) w)))
  = [(SORT_CODE, 1, "TFR", "Transfer to 1", 0);
     (SORT_CODE, 1, "TFR", "Transfer from 1", 0)].
Proof. intros w. split; [|split; [|split]]; vm_compute; reflexivity. Qed.

(** ** Scoring fan-out *)

Lemma single_agency_range raw : 1 ≤ single_agency raw ≤ 999.
Proof.
  unfold single_agency, randint.
  pose proof (Z.mod_pos_bound raw (999 - 1 + 1)). lia.
Qed.

Lemma bind_eval {A B} (m : M A) (k : A → M B) w :
  (m ≫= k) w = match m w with
               | (Return a, w') => k a w'
               | (Raise e, w') => (Raise e, w')
               end.
Proof. reflexivity. Qed.

Lemma results_all scores w : results (Some <$> scores) w = (Return scores, w).
Proof.
  induction scores as [|v vs IH]; [done|].
  cbn [fmap list_fmap results result]. rewrite bind_eval. cbn.
  rewrite bind_eval. fold (@fmap list _ _ _ (@Some Z) vs). by rewrite IH.
Qed.

Lemma results_late futures w : None ∈ futures → results futures w = (Raise TimeoutError, w).
Proof.
  induction futures as [|f fs IH]; intros Hin; [by apply elem_of_nil in Hin|].
  cbn [results]. rewrite bind_eval.
  destruct f as [v|]; cbn; [|done].
  apply elem_of_cons in Hin as [?|Hin]; [done|]. by rewrite bind_eval, IH.
Qed.

Lemma sum_bounds scores :
  Forall (λ v, 1 ≤ v ≤ 999) scores →
  Z.of_nat (length scores) ≤ sum scores ≤ 999 * Z.of_nat (length scores).
Proof. induction 1; simpl in *; lia. Qed.

Lemma credit_check_five w r0 r1 r2 r3 r4 :
  probe w (reads w) 0 = Some r0 → probe w (reads w) 1 = Some r1 →
  probe w (reads w) 2 = Some r2 → probe w (reads w) 3 = Some r3 →
  probe w (reads w) 4 = Some r4 →
  let scores := single_agency <$> [r0; r1; r2; r3; r4] in
  Forall (λ v, 1 ≤ v ≤ 999) scores ∧
  credit_check 5 w = (Return (sum scores `div` 5), tick w) ∧
  1 ≤ sum scores `div` 5 ≤ 999.
Proof.
  intros H0 H1 H2 H3 H4 scores.
  assert (Forall (λ v, 1 ≤ v ≤ 999) scores) as Hrange.
  { subst scores. apply Forall_fmap, Forall_forall. intros x _. apply single_agency_range. }
  split; [done|]. split.
  - unfold credit_check, submit_all. case_decide; [lia|].
    rewrite bind_eval. change (seqZ 0 5) with [0; 1; 2; 3; 4].
    cbn [fmap list_fmap]. rewrite H0, H1, H2, H3, H4.
    cbn -[results single_agency Z.div sum].
    rewrite bind_eval.
    change ([Some (single_agency r0); Some (single_agency r1); Some (single_agency r2);
             Some (single_agency r3); Some (single_agency r4)])
      with (Some <$> scores).
    by rewrite results_all.
  - pose proof (sum_bounds _ Hrange) as Hb.
    change (Z.of_nat (length scores)) with 5 in Hb.
    pose proof (Z.mod_pos_bound (sum scores) 5). pose proof (Z.div_mod (sum scores) 5). lia.
Qed.

(** C8: when each of the five probes has its result in time, credit_check
    returns the floor of the sum of the five scores divided by five; each
    score lies in [1,999] and so does the result. When the result of some
    probe is not there in time, credit_check raises TimeoutError: no average
    of the others is returned. *)
Theorem credit_check_truncated_mean w :
  (∀ r0 r1 r2 r3 r4,
     probe w (reads w) 0 = Some r0 → probe w (reads w) 1 = Some r1 →
     probe w (reads w) 2 = Some r2 → probe w (reads w) 3 = Some r3 →
     probe w (reads w) 4 = Some r4 →
     let s0 := single_agency r0 in let s1 := single_agency r1 in
     let s2 := single_agency r2 in let s3 := single_agency r3 in
     let s4 := single_agency r4 in
     let total := s0 + s1 + s2 + s3 + s4 in
     Forall (λ v, 1 ≤ v ≤ 999) [s0; s1; s2; s3; s4] ∧
     credit_check 5 w = (Return (total `div` 5), tick w) ∧
     5 * (total `div` 5) ≤ total < 5 * (total `div` 5) + 5 ∧
     1 ≤ total `div` 5 ≤ 999) ∧
  (∀ i, 0 ≤ i < 5 → probe w (reads w) i = None →
     credit_check 5 w = (Raise TimeoutError, tick w)).
Proof.
  split.
  - intros r0 r1 r2 r3 r4 H0 H1 H2 H3 H4 s0 s1 s2 s3 s4 total.
    destruct (credit_check_five w _ _ _ _ _ H0 H1 H2 H3 H4) as (Hr & Heq & Hb).
    assert (sum (single_agency <$> [r0; r1; r2; r3; r4]) = total) as Hsum
      by (subst total s0 s1 s2 s3 s4; cbn [fmap list_fmap sum foldr]; lia).
    rewrite Hsum in Heq, Hb.
    split; [exact Hr|]. split; [exact Heq|]. split; [|exact Hb].
    pose proof (Z.mod_pos_bound total 5). pose proof (Z.div_mod total 5). lia.
  - intros i Hi Hnone.
    unfold credit_check, submit_all. case_decide; [lia|].
    rewrite bind_eval. cbn -[results single_agency Z.div sum seqZ].
    rewrite bind_eval, results_late; [done|].
    apply list_elem_of_fmap. exists i. rewrite Hnone. split; [done|].
    apply elem_of_seqZ. lia.
Qed.

Lemma credit_check_truncated_mean_witness :
  let total := single_agency 0 + single_agency 137 + single_agency 274
               + single_agency 411 + single_agency 548 in
  total = 1375 ∧
  credit_check 5 TestServices.db = (Return 275, tick TestServices.db) ∧
  credit_check 5 TestServices.db = (Return (total `div` 5), tick TestServices.db) ∧
  1 ≤ total `div` 5 ≤ 999.
Proof.
  intros total.
  destruct (proj1 (credit_check_truncated_mean TestServices.db) 0 137 274 411 548)
    as (_ & Heq & _ & Hr); try reflexivity.
  split; [reflexivity|]. split; [exact Heq|]. split; [exact Heq|exact Hr].
Defined.

Lemma credit_check_returns w :
  scoring_returns w (reads w) →
  ∃ v, credit_check 5 w = (Return v, tick w) ∧ 1 ≤ v ≤ 999.
Proof.
  intros Hs.
  destruct (Hs 0) as [r0 H0]; [lia|]. destruct (Hs 1) as [r1 H1]; [lia|].
  destruct (Hs 2) as [r2 H2]; [lia|]. destruct (Hs 3) as [r3 H3]; [lia|].
  destruct (Hs 4) as [r4 H4]; [lia|].
  destruct (credit_check_five w _ _ _ _ _ H0 H1 H2 H3 H4) as (_ & Heq & Hr).
  eauto.
Qed.

(** ** Titles *)

Lemma append_cons c s t : String c s +:+ t = String c (s +:+ t).
Proof. reflexivity. Qed.

Lemma append_nil_r s : s +:+ EmptyString = s.
Proof. induction s as [|c s IH]; [done|]. by rewrite append_cons, IH. Qed.

Lemma append_assoc s1 s2 s3 : (s1 +:+ s2) +:+ s3 = s1 +:+ (s2 +:+ s3).
Proof. induction s1 as [|c s1 IH]; [done|]. by rewrite !append_cons, IH. Qed.

Lemma skip_space_prefix s r :
  skip_space s = Some r →
  (String.length r < String.length s)%nat ∧
  ∃ p, s = p +:+ r ∧ ∀ x, skip_space (p +:+ x) = Some x.
Proof.
  destruct s as [|a [|b [|c r3]]]; simpl; [done|..].
  - destruct (isspace (String a EmptyString)) eqn:H1; intros [= <-].
    split; [simpl; lia|]. exists (String a EmptyString). split; [done|].
    intros x. simpl. by rewrite H1.
  - destruct (isspace (String a EmptyString)) eqn:H1; [|
      destruct (isspace (String a (String b EmptyString))) eqn:H2];
      intros [= <-]; (split; [simpl; lia|]).
    + exists (String a EmptyString). split; [done|]. intros x. simpl. by rewrite H1.
    + exists (String a (String b EmptyString)). split; [done|]. intros x. simpl.
      by rewrite H1, H2.
  - destruct (isspace (String a EmptyString)) eqn:H1; [|
      destruct (isspace (String a (String b EmptyString))) eqn:H2; [|
        destruct (isspace (String a (String b (String c EmptyString)))) eqn:H3]];
      intros [= <-]; (split; [simpl; lia|]).
    + exists (String a EmptyString). split; [done|]. intros x. simpl. by rewrite H1.
    + exists (String a (String b EmptyString)). split; [done|]. intros x. simpl.
      by rewrite H1, H2.
    + exists (String a (String b (String c EmptyString))). split; [done|]. intros x.
      simpl. by rewrite H1, H2, H3.
Qed.

Ltac by_bytes s :=
  let a := fresh "a" in let r1 := fresh "r" in
  let b := fresh "b" in let r2 := fresh "r" in
  let c := fresh "c" in let r3 := fresh "r" in
  destruct s as [|a r1]; simpl; [done|];
  destruct (isspace (String a EmptyString)); [done|];
  destruct r1 as [|b r2]; [done|];
  destruct (isspace (String a (String b EmptyString))); [done|];
  destruct r2 as [|c r3]; [done|];
  by destruct (isspace (String a (String b (String c EmptyString)))).

Lemma lstrip_eq s :
  lstrip s = match skip_space s with Some r => lstrip r | None => s end.
Proof. by_bytes s. Qed.

Lemma split_from_eq tok s :
  split_from tok s
  = match s with
    | EmptyString => close tok []
    | String a r =>
        match skip_space s with
        | Some r' => close tok (split_from EmptyString r')
        | None => split_from (tok +:+ String a EmptyString) r
        end
    end.
Proof. by_bytes s. Qed.

(** Induction along the characters of a string: a whitespace character of
    one to three bytes, or one byte of anything else. *)
Lemma string_space_ind (P : string → Prop) :
  P EmptyString →
  (∀ s r, skip_space s = Some r → P r → P s) →
  (∀ a s, skip_space (String a s) = None → P s → P (String a s)) →
  ∀ s, P s.
Proof.
  intros Hnil Hspace Hbyte s.
  remember (String.length s) as n eqn:Hn.
  revert s Hn. induction (lt_wf n) as [n _ IH]. intros s ->.
  destruct (skip_space s) as [r|] eqn:Hs.
  - apply (Hspace s r Hs). apply skip_space_prefix in Hs as [Hlt _].
    by apply (IH (String.length r)).
  - destruct s as [|a s]; [done|]. apply Hbyte; [done|].
    apply (IH (String.length s)); [simpl; lia|done].
Qed.

Lemma lstrip_head s : skip_space (lstrip s) = None.
Proof.
  induction s as [|s r Hs IH|a s Hs _] using string_space_ind; [done| |];
    by rewrite lstrip_eq, Hs.
Qed.

Lemma lstrip_lstrip s : lstrip (lstrip s) = lstrip s.
Proof. by rewrite (lstrip_eq (lstrip s)), lstrip_head. Qed.

Lemma strip_empty s : strip s = EmptyString ↔ blank s.
Proof.
  unfold strip, blank. pose proof (lstrip_lstrip s) as Hl.
  destruct (lstrip s) as [|a r]; [done|]. cbn [rstrip].
  rewrite Hl. by rewrite bool_decide_eq_false_2.
Qed.

Lemma blank_app p x : (∀ y, skip_space (p +:+ y) = Some y) → blank x → blank (p +:+ x).
Proof. unfold blank. intros Hp Hx. by rewrite lstrip_eq, Hp. Qed.

Lemma lstrip_decompose s : ∃ pre, s = pre +:+ lstrip s ∧ blank pre.
Proof.
  induction s as [|s r Hs (pre & Heq & Hpre)|a s Hs _] using string_space_ind.
  - by exists EmptyString.
  - rewrite lstrip_eq, Hs. apply skip_space_prefix in Hs as (_ & p & -> & Hp).
    exists (p +:+ pre). split; [by rewrite append_assoc, <- Heq|by apply blank_app].
  - rewrite lstrip_eq, Hs. by exists EmptyString.
Qed.

Lemma lstrip_blank_app pre x : blank pre → lstrip (pre +:+ x) = lstrip x.
Proof.
  unfold blank.
  induction pre as [|s r Hs IH|a s Hs _] using string_space_ind; [done| |].
  - rewrite (lstrip_eq s), Hs. intros Hr.
    apply skip_space_prefix in Hs as (_ & p & -> & Hp).
    by rewrite append_assoc, lstrip_eq, Hp, IH.
  - by rewrite lstrip_eq, Hs.
Qed.

Lemma word_decompose s :
  ∃ post, s = word s +:+ post ∧ no_space (word s) post ∧
          (post = EmptyString ∨ is_Some (skip_space post)).
Proof.
  induction s as [|a s (post & Heq & Hw & Hpost)].
  - exists EmptyString. by split; [|split; [|left]].
  - cbn [word]. destruct (skip_space (String a s)) as [r|] eqn:Hs.
    + exists (String a s). split; [done|]. split; [done|]. right. by rewrite Hs.
    + exists post. rewrite append_cons, <- Heq. split; [done|]. split; [|done].
      cbn [no_space]. by rewrite append_cons, <- Heq.
Qed.

Lemma word_unique t post :
  no_space t post → post = EmptyString ∨ is_Some (skip_space post) →
  word (t +:+ post) = t.
Proof.
  intros Ht Hpost. induction t as [|a t IH].
  - change (word post = EmptyString).
    destruct post as [|b post]; [done|]. destruct Hpost as [|[r Hr]]; [done|].
    cbn [word]. by rewrite Hr.
  - destruct Ht as [Hs Ht]. rewrite append_cons in *. cbn [word]. rewrite Hs.
    by rewrite IH.
Qed.

Lemma split_from_head tok s :
  tok ≠ EmptyString → head (split_from tok s) = Some (tok +:+ word s).
Proof.
  revert tok. induction s as [|a s IH]; intros tok Htok; rewrite split_from_eq.
  - unfold close. rewrite decide_False by done. by rewrite append_nil_r.
  - cbn [word]. destruct (skip_space (String a s)) as [r|].
    + unfold close. rewrite decide_False by done. by rewrite append_nil_r.
    + rewrite IH; [|by destruct tok]. by rewrite append_assoc.
Qed.

Lemma split_head s : head (split s) = match lstrip s with
                                      | EmptyString => None
                                      | r => Some (word r)
                                      end.
Proof.
  unfold split.
  induction s as [|s r Hs IH|a s Hs _] using string_space_ind; [done| |].
  - rewrite lstrip_eq, Hs, split_from_eq, Hs.
    apply skip_space_prefix in Hs as (Hlt & _). by destruct s; [simpl in Hlt; lia|].
  - rewrite lstrip_eq, Hs, split_from_eq, Hs. rewrite split_from_head by done.
    cbn [word]. by rewrite Hs.
Qed.

(** The whitespace characters, byte by byte. *)
Lemma whitespace_utf8 :
  (λ c, Ascii.N_of_ascii <$> String.list_ascii_of_string (utf8 c)) <$> whitespace
  = [[0x09]; [0x0A]; [0x0B]; [0x0C]; [0x0D]; [0x1C]; [0x1D]; [0x1E]; [0x1F]; [0x20];
     [0xC2; 0x85]; [0xC2; 0xA0]; [0xE1; 0x9A; 0x80];
     [0xE2; 0x80; 0x80]; [0xE2; 0x80; 0x81]; [0xE2; 0x80; 0x82]; [0xE2; 0x80; 0x83];
     [0xE2; 0x80; 0x84]; [0xE2; 0x80; 0x85]; [0xE2; 0x80; 0x86]; [0xE2; 0x80; 0x87];
     [0xE2; 0x80; 0x88]; [0xE2; 0x80; 0x89]; [0xE2; 0x80; 0x8A];
     [0xE2; 0x80; 0xA8]; [0xE2; 0x80; 0xA9]; [0xE2; 0x80; 0xAF];
     [0xE2; 0x81; 0x9F]; [0xE3; 0x80; 0x80]]%N.
Proof. reflexivity. Qed.

Lemma title_of_returns name w : title_of name w = (Return (title name), w).
Proof.
  unfold title_of, title. pose proof (split_head name) as Hh.
  case_decide as Hs.
  - apply strip_empty in Hs. unfold blank in Hs. by rewrite Hs.
  - assert (lstrip name ≠ EmptyString) as Hl by (intros Hl; by apply Hs, strip_empty).
    destruct (lstrip name) as [|c r] eqn:Hr; [done|].
    destruct (split name) as [|t ts]; simpl in Hh; [done|]. by injection Hh as ->.
Qed.

Lemma title_first_token name : first_token name (title name).
Proof.
  unfold first_token, title.
  destruct (lstrip name) as [|c r] eqn:Hl; [by left|]. right.
  destruct (lstrip_decompose name) as (pre & Heq & Hpre).
  destruct (word_decompose (String c r)) as (post & Hw & Hns & Hpost).
  split.
  - cbn [word]. pose proof (lstrip_head name) as Hh. rewrite Hl in Hh. by rewrite Hh.
  - exists pre, post. split; [by rewrite <- Hw, <- Hl|done].
Qed.

Lemma first_token_unique name t : first_token name t → t = title name.
Proof.
  unfold first_token, title, blank.
  intros [[-> ->]|(Ht & pre & post & -> & Hpre & Hns & Hpost)]; [done|].
  rewrite lstrip_blank_app by done.
  destruct t as [|a t]; [done|]. destruct Hns as [Hs Hns].
  rewrite lstrip_eq, Hs. symmetry. apply word_unique; [by split|done].
Qed.

Lemma title_blank name : blank name → title name ∈ VALID_TITLES.
Proof.
  unfold blank, title. intros ->. simpl. unfold VALID_TITLES.
  rewrite !elem_of_cons. tauto.
Qed.

(** ** Identity allocation *)

Lemma foldr_max_spec x l :
  foldr Z.max x l ∈ x :: l ∧ ∀ y, y ∈ x :: l → y ≤ foldr Z.max x l.
Proof.
  induction l as [|z l [IHin IHle]]; cbn [foldr].
  - split; [rewrite elem_of_cons; tauto|].
    intros y Hy. rewrite elem_of_cons, elem_of_nil in Hy. lia.
  - split.
    + destruct (Z.max_spec z (foldr Z.max x l)) as [[_ ->]|[_ ->]].
      * apply elem_of_cons in IHin as [->|?]; rewrite !elem_of_cons; tauto.
      * rewrite !elem_of_cons; tauto.
    + intros y Hy. apply elem_of_cons in Hy as [->|Hy].
      * pose proof (IHle x ltac:(rewrite elem_of_cons; tauto)). lia.
      * apply elem_of_cons in Hy as [->|Hy]; [lia|].
        pose proof (IHle y ltac:(rewrite elem_of_cons; tauto)). lia.
Qed.

Lemma sql_max_spec l :
  match sql_max l with
  | None => l = []
  | Some m => m ∈ l ∧ ∀ y, y ∈ l → y ≤ m
  end.
Proof. destruct l as [|x l]; cbn [sql_max]; [done|]. apply foldr_max_spec. Qed.

Lemma elem_of_numbers {V} (t : gmap key V) (s : string) (x : Z) :
  x ∈ (λ r : key * V, r.1.2) <$> in_sortcode s t ↔ is_Some (t !! (s, x)).
Proof.
  unfold in_sortcode. rewrite list_elem_of_fmap. split.
  - intros ([[s' x'] v] & -> & Hin). apply list_elem_of_filter in Hin as [Hs Hin].
    simpl in *. subst s'. apply elem_of_map_to_list in Hin. eauto.
  - intros [v Hv]. exists ((s, x), v). split; [done|].
    apply list_elem_of_filter. split; [done|]. by apply elem_of_map_to_list.
Qed.

(** The allocated number is above every number of the sort code, and is
    either 1 on an empty population or one more than a number in use. *)
Lemma max_number_plus_one_spec {V} (s : string) (t : gmap key V) :
  (∀ x, is_Some (t !! (s, x)) → x < max_number_plus_one s t) ∧
  ((max_number_plus_one s t = 1 ∧ ∀ x, t !! (s, x) = None) ∨
   is_Some (t !! (s, max_number_plus_one s t - 1))).
Proof.
  unfold max_number_plus_one.
  pose proof (sql_max_spec ((λ r : key * V, r.1.2) <$> in_sortcode s t)) as Hm.
  destruct (sql_max _) as [m|]; simpl.
  - destruct Hm as [Hin Hle]. split.
    + intros x Hx. apply elem_of_numbers in Hx. apply Hle in Hx. lia.
    + right. replace (m + 1 - 1) with m by lia. by apply elem_of_numbers.
  - split.
    + intros x Hx. apply elem_of_numbers in Hx. rewrite Hm in Hx. by apply elem_of_nil in Hx.
    + left. split; [done|]. intros x. apply eq_None_not_Some. intros Hx.
      apply elem_of_numbers in Hx. rewrite Hm in Hx. by apply elem_of_nil in Hx.
Qed.

Lemma max_number_plus_one_fresh {V} (s : string) (t : gmap key V) :
  t !! (s, max_number_plus_one s t) = None.
Proof.
  apply eq_None_not_Some. intros Hx.
  apply (proj1 (max_number_plus_one_spec s t)) in Hx. lia.
Qed.

(** ** Customer and account creation *)

Lemma create_customer_invalid name address dob s w :
  title name ∉ VALID_TITLES →
  create_customer name address dob s w
  = (Raise (ValidationError ("Invalid title: '" +:+ title name +:+ "'")), w).
Proof.
  intros Hbad. unfold create_customer. rewrite bind_eval, title_of_returns.
  by case_decide.
Qed.

Lemma create_customer_valid name address dob s w :
  title name ∈ VALID_TITLES →
  scoring_returns w (reads w) →
  ∃ score t w',
    let number := max_number_plus_one s (customers (conn w)) in
    let row := Customer name address dob score (iso_date (clock w (S (reads w)))) in
    create_customer name address dob s w = (Return (Some ((s, number), row)), w') ∧
    1 ≤ score ≤ 999 ∧
    customers (conn w') = <[(s, number) := row]> (customers (conn w)) ∧
    accounts (conn w') = accounts (conn w) ∧
    transactions (conn w') = (transactions (conn w) ++ [t])%list ∧
    audit_view t = (s, 0, "OCC", "Create customer " +:+ pretty number, 0) ∧
    probe w' = probe w ∧ clock w' = clock w ∧ reads w' = (3 + reads w)%nat.
Proof.
  intros Hok Hs. destruct (credit_check_returns w Hs) as (score & Hcc & Hrange).
  exists score. unfold create_customer. rewrite bind_eval, title_of_returns.
  case_decide; [done|].
  rewrite bind_eval. unfold CustomerDAO.next_number at 1. unfold query at 1.
  rewrite bind_eval, Hcc. engine_unfold. simpl.
  rewrite max_number_plus_one_fresh. simpl. rewrite lookup_insert_eq. simpl.
  eexists _, _. split; [reflexivity|]. split; [done|]. simpl. repeat split.
Qed.

Lemma credit_check_late w i :
  0 ≤ i < 5 → probe w (reads w) i = None →
  credit_check 5 w = (Raise TimeoutError, tick w).
Proof.
  intros Hi Hnone.
  unfold credit_check, submit_all. case_decide; [lia|].
  rewrite bind_eval. cbn -[results single_agency Z.div sum seqZ].
  rewrite bind_eval, results_late; [done|].
  apply list_elem_of_fmap. exists i. rewrite Hnone. split; [done|].
  apply elem_of_seqZ. lia.
Qed.

Lemma credit_check_outcome w :
  (∃ v, credit_check 5 w = (Return v, tick w) ∧ 1 ≤ v ≤ 999) ∨
  credit_check 5 w = (Raise TimeoutError, tick w).
Proof.
  destruct (probe w (reads w) 0) as [r0|] eqn:H0; [|right; by apply (credit_check_late w 0)].
  destruct (probe w (reads w) 1) as [r1|] eqn:H1; [|right; by apply (credit_check_late w 1)].
  destruct (probe w (reads w) 2) as [r2|] eqn:H2; [|right; by apply (credit_check_late w 2)].
  destruct (probe w (reads w) 3) as [r3|] eqn:H3; [|right; by apply (credit_check_late w 3)].
  destruct (probe w (reads w) 4) as [r4|] eqn:H4; [|right; by apply (credit_check_late w 4)].
  left. destruct (credit_check_five w _ _ _ _ _ H0 H1 H2 H3 H4) as (_ & Heq & Hr). eauto.
Qed.

Lemma create_customer_never_invalid name address dob s w msg w' :
  title name ∈ VALID_TITLES →
  create_customer name address dob s w ≠ (Raise (ValidationError msg), w').
Proof.
  intros Hok. unfold create_customer. rewrite bind_eval, title_of_returns.
  case_decide; [done|].
  rewrite bind_eval. unfold CustomerDAO.next_number at 1. unfold query at 1.
  rewrite bind_eval.
  destruct (credit_check_outcome w) as [(v & -> & _)| ->]; [|done].
  engine_unfold. simpl. rewrite max_number_plus_one_fresh. simpl. done.
Qed.

Lemma update_customer_named number nm addr s w c :
  customers (conn w) !! (s, number) = Some c →
  (title nm ∉ VALID_TITLES →
     update_customer number (Some nm) addr s w
     = (Raise (ValidationError ("Invalid title: '" +:+ title nm +:+ "'")), w)) ∧
  (title nm ∈ VALID_TITLES →
     ∃ w',
       update_customer number (Some nm) addr s w
       = (Return (Some ((s, number),
                        Customer nm (default (address c) addr)
                                 (date_of_birth c) (credit_score c) (cs_review_date c))),
          w') ∧
       transactions (conn w') = transactions (conn w)).
Proof.
  intros Hc.
  split; intros Ht; unfold update_customer;
    rewrite bind_eval; unfold CustomerDAO.get at 1; unfold query at 1; rewrite Hc;
    cbn [fmap option_fmap option_map]; rewrite !bind_eval, title_of_returns;
    case_decide; try done.
  engine_unfold. simpl. rewrite lookup_alter_eq, Hc. destruct c. simpl. eauto.
Qed.

(** C6: for every name, whatever characters it holds, the title checked by
    create_customer, and by update_customer when a name is supplied, is the
    first whitespace-delimited token of the name and nothing else is, with
    whitespace as Python has it (every character of [str.isspace], beyond
    ASCII too), or the empty string on a blank name (which is in
    VALID_TITLES, so a blank name is accepted). Both operations raise
    ValidationError exactly when that title is outside VALID_TITLES and leave
    the world as it was; with a title in VALID_TITLES, update_customer on an
    existing customer returns, and create_customer returns whenever the
    scoring fan-out does. *)
Theorem title_validation nm :
  first_token nm (title nm) ∧
  (∀ t, first_token nm t → t = title nm) ∧
  (blank nm → title nm = EmptyString ∧ title nm ∈ VALID_TITLES) ∧
  (∀ w addr dob s,
     title_of nm w = (Return (title nm), w) ∧
     (title nm ∉ VALID_TITLES ↔
        create_customer nm addr dob s w
        = (Raise (ValidationError ("Invalid title: '" +:+ title nm +:+ "'")), w)) ∧
     (title nm ∉ VALID_TITLES ↔
        ∃ msg w', create_customer nm addr dob s w = (Raise (ValidationError msg), w')) ∧
     (scoring_returns w (reads w) →
        (title nm ∈ VALID_TITLES ↔
           ∃ row w', create_customer nm addr dob s w = (Return (Some row), w') ∧
                     name row.2 = nm))) ∧
  (∀ w number addr s,
     is_Some (customers (conn w) !! (s, number)) →
     (title nm ∉ VALID_TITLES ↔
        update_customer number (Some nm) addr s w
        = (Raise (ValidationError ("Invalid title: '" +:+ title nm +:+ "'")), w)) ∧
     (title nm ∈ VALID_TITLES ↔
        ∃ row w', update_customer number (Some nm) addr s w = (Return (Some row), w') ∧
                  name row.2 = nm)) ∧
  (∀ c, isspace c = true ↔
        c ∈ utf8 <$> [0x09; 0x0A; 0x0B; 0x0C; 0x0D; 0x1C; 0x1D; 0x1E; 0x1F; 0x20;
                      0x85; 0xA0; 0x1680; 0x2000; 0x2001; 0x2002; 0x2003; 0x2004;
                      0x2005; 0x2006; 0x2007; 0x2008; 0x2009; 0x200A; 0x2028;
                      0x2029; 0x202F; 0x205F; 0x3000]%N).
Proof.
  split; [apply title_first_token|]. split; [apply first_token_unique|]. split.
  { intros Hb. split; [|by apply title_blank]. unfold title. by rewrite Hb. }
  split; [|split; [|intros c; apply bool_decide_eq_true]].
  - intros w addr dob s. split; [apply title_of_returns|].
    split; [|split].
    + split; [apply create_customer_invalid|].
      intros Heq. destruct (decide (title nm ∈ VALID_TITLES)) as [Hin|]; [|done].
      by apply (create_customer_never_invalid nm addr dob s w _ w Hin) in Heq.
    + split.
      * intros Hbad. eexists _, _. by apply create_customer_invalid.
      * intros (msg & w' & Heq).
        destruct (decide (title nm ∈ VALID_TITLES)) as [Hin|]; [|done].
        by destruct (create_customer_never_invalid nm addr dob s w msg w' Hin).
    + intros Hs. split.
      * intros Hin.
        destruct (create_customer_valid nm addr dob s w Hin Hs) as (sc & t & w' & Heq & _).
        eexists _, w'. split; [apply Heq|done].
      * intros (row & w' & Heq & _).
        destruct (decide (title nm ∈ VALID_TITLES)) as [|Hbad]; [done|].
        rewrite (create_customer_invalid _ _ _ _ _ Hbad) in Heq. done.
  - intros w number addr s [c Hc].
    destruct (update_customer_named number nm addr s w c Hc) as [Hbad Hgood].
    split; split.
    + apply Hbad.
    + intros Heq. destruct (decide (title nm ∈ VALID_TITLES)) as [Hin|]; [|done].
      destruct (Hgood Hin) as (w' & Heq' & _). rewrite Heq' in Heq. done.
    + intros Hin. destruct (Hgood Hin) as (w' & Heq' & _). eexists _, w'. by rewrite Heq'.
    + intros (row & w' & Heq & _).
      destruct (decide (title nm ∈ VALID_TITLES)) as [|Hno]; [done|].
      rewrite (Hbad Hno) in Heq. done.
Qed.

Lemma title_validation_witness :
  let nm := utf8 0x2003 +:+ utf8 0xA0 +:+ " Mr" +:+ utf8 0x85 +:+ "Smith" in
  Ascii.N_of_ascii <$> String.list_ascii_of_string nm
  = [0xE2; 0x80; 0x83; 0xC2; 0xA0; 0x20; 0x4D; 0x72; 0xC2; 0x85;
     0x53; 0x6D; 0x69; 0x74; 0x68]%N ∧
  title nm = "Mr" ∧
  scoring_returns TestServices.db (reads TestServices.db) ∧
  ∃ row w',
    create_customer nm "1 Oak Ave" "1990-01-15" SORT_CODE TestServices.db
    = (Return (Some row), w') ∧ name row.2 = nm.
Proof.
  intros nm. split; [reflexivity|]. split; [reflexivity|].
  assert (scoring_returns TestServices.db (reads TestServices.db)) as Hs.
  { intros i _. simpl. eauto. }
  split; [exact Hs|].
  apply (proj1 (proj2 (proj2 (proj2 (proj1 (proj2 (proj2 (proj2 (title_validation nm))))
           TestServices.db "1 Oak Ave" "1990-01-15" SORT_CODE))) Hs)).
  apply (list_elem_of_here "Mr").
Defined.

Lemma population_next {V} (s : string) (t : gmap key V) k :
  0 ≤ k →
  (∀ x, is_Some (t !! (s, x)) ↔ 1 ≤ x ≤ k) →
  max_number_plus_one s t = k + 1.
Proof.
  intros Hk Hpop.
  destruct (max_number_plus_one_spec s t) as [Hlt [[H1 Hnone]|Hsome]].
  - destruct (decide (k = 0)) as [->|]; [done|].
    assert (is_Some (t !! (s, 1))) as [v Hv] by (apply Hpop; lia).
    by rewrite Hnone in Hv.
  - apply Hpop in Hsome.
    assert (is_Some (t !! (s, k))) as Hmax by (apply Hpop; lia).
    apply Hlt in Hmax. lia.
Qed.

Lemma create_customers_from names : ∀ k s w,
  0 ≤ k →
  (∀ x, is_Some (customers (conn w) !! (s, x)) ↔ 1 ≤ x ≤ k) →
  Forall (λ nm, title nm ∈ VALID_TITLES) names →
  (∀ n, scoring_returns w n) →
  (create_customers names s w).1
  = Return (Some <$> seqZ (k + 1) (Z.of_nat (length names))).
Proof.
  induction names as [|nm names IH]; intros k s w Hk Hpop Hvalid Hscore; [done|].
  apply Forall_cons in Hvalid as [Hnm Hvalid].
  destruct (create_customer_valid nm EmptyString EmptyString s w Hnm (Hscore _))
    as (score & t & w' & Heq & _ & Hcust & _ & _ & _ & Hprobe & _ & _).
  cbn zeta in Heq. rewrite (population_next s _ k Hk Hpop) in Heq, Hcust.
  cbn [create_customers]. rewrite bind_eval, Heq, bind_eval.
  assert ((create_customers names s w').1
          = Return (Some <$> seqZ (k + 1 + 1) (Z.of_nat (length names)))) as Hrest.
  { apply IH; [lia| |done|].
    - intros x. rewrite Hcust, lookup_insert_is_Some, Hpop.
      split; [intros [[= <-]|[Hne ?]]; lia|].
      intros Hx. destruct (decide (x = k + 1)) as [->|]; [by left|].
      right. split; [congruence|lia].
    - intros n i Hi. unfold scoring_returns in Hscore. rewrite Hprobe. by apply Hscore. }
  destruct (create_customers names s w') as [o w'']. simpl in Hrest. subst o.
  cbn [fst fmap option_fmap option_map mret engine_ret ret length].
  rewrite (seqZ_cons (k + 1)) by lia. cbn [fmap list_fmap].
  repeat f_equal; lia.
Qed.

(** C7: next_number, for customers and for accounts, returns a number above
    every number in use in the sort code that is 1 when none is in use and
    otherwise one more than a number in use (so: the maximum plus one), and
    leaves the world as it is. Customer creations one after the other on a
    sort code without customers receive 1, 2, 3, ... in order. *)
Theorem next_number_allocation w s :
  (∃ n, CustomerDAO.next_number s w = (Return n, w) ∧
        (∀ x, is_Some (customers (conn w) !! (s, x)) → x ≤ n - 1) ∧
        ((n = 1 ∧ ∀ x, customers (conn w) !! (s, x) = None) ∨
         is_Some (customers (conn w) !! (s, n - 1)))) ∧
  (∃ n, AccountDAO.next_number s w = (Return n, w) ∧
        (∀ x, is_Some (accounts (conn w) !! (s, x)) → x ≤ n - 1) ∧
        ((n = 1 ∧ ∀ x, accounts (conn w) !! (s, x) = None) ∨
         is_Some (accounts (conn w) !! (s, n - 1)))) ∧
  (∀ names,
     (∀ x, customers (conn w) !! (s, x) = None) →
     Forall (λ nm, title nm ∈ VALID_TITLES) names →
     (∀ n, scoring_returns w n) →
     (create_customers names s w).1
     = Return (Some <$> seqZ 1 (Z.of_nat (length names)))).
Proof.
  split; [|split].
  - eexists. split; [reflexivity|].
    destruct (max_number_plus_one_spec s (customers (conn w))) as [Hlt Hmax].
    split; [|done]. intros x Hx. apply Hlt in Hx. lia.
  - eexists. split; [reflexivity|].
    destruct (max_number_plus_one_spec s (accounts (conn w))) as [Hlt Hmax].
    split; [|done]. intros x Hx. apply Hlt in Hx. lia.
  - intros names Hempty Hvalid Hscore.
    apply (create_customers_from names 0); [lia| |done|done].
    intros x. rewrite Hempty. split; [by intros [? ?]|lia].
Qed.

Lemma next_number_allocation_witness :
  (create_customers ["Mr A"; "Mrs B"; ""] SORT_CODE TestServices.db).1
  = Return [Some 1; Some 2; Some 3].
Proof.
  apply (proj2 (proj2 (next_number_allocation TestServices.db SORT_CODE))
           ["Mr A"; "Mrs B"; ""]).
  - intros x. apply lookup_empty.
  - repeat apply Forall_cons_2; [apply (list_elem_of_here "Mr")| | |apply Forall_nil_2].
    + apply list_elem_of_further, (list_elem_of_here "Mrs").
    + by apply title_blank.
  - intros n i _. simpl. eauto.
Defined.

Lemma create_account_valid cn ty ir ol s w :
  ty ∈ VALID_ACCOUNT_TYPES →
  is_Some (customers (conn w) !! (s, cn)) →
  ∃ t w',
    let number := max_number_plus_one s (accounts (conn w)) in
    let defaults := dict_get DEFAULT_RATES ty [] in
    let row := Account cn ty (default (dict_get defaults "interest" 0) ir)
                       (iso_date (clock w (reads w)))
                       (default (dict_get defaults "overdraft" 0) ol) None None 0 0 in
    create_account cn ty ir ol s w = (Return (Some ((s, number), row)), w') ∧
    accounts (conn w) !! (s, number) = None ∧
    accounts (conn w') = <[(s, number) := row]> (accounts (conn w)) ∧
    customers (conn w') = customers (conn w) ∧
    transactions (conn w') = (transactions (conn w) ++ [t])%list ∧
    audit_view t = (s, number, "OCA", "Create account for cust " +:+ pretty cn, 0).
Proof.
  intros Hty [c Hc]. unfold create_account. case_decide; [done|].
  engine_unfold. simpl. rewrite Hc. simpl.
  rewrite max_number_plus_one_fresh. rewrite Hc. simpl.
  rewrite andb_false_r. simpl. rewrite lookup_insert_eq. simpl.
  destruct ir, ol; (eexists _, _; split; [reflexivity|]; by repeat split).
Qed.



(** ** The twin balances *)

Lemma keeps_ret {A} (a : A) : keeps_balanced (mret a).
Proof. by intros w k. Qed.

Lemma keeps_raise {A} e : keeps_balanced (@raise A e).
Proof. by intros w k. Qed.

Lemma keeps_bind {A B} (m : M A) (f : A → M B) :
  keeps_balanced m → (∀ a, keeps_balanced (f a)) → keeps_balanced (m ≫= f).
Proof.
  intros Hm Hf w k Hb. rewrite bind_eval. specialize (Hm w k Hb).
  destruct (m w) as [[a|e] w']; simpl in *; [by apply Hf|done].
Qed.

Lemma keeps_query {A} (f : Conn → A) : keeps_balanced (query f).
Proof. by intros w k. Qed.

Lemma keeps_execute f :
  (∀ c c' k, f c = inr c' → balanced_at c k → balanced_at c' k) →
  keeps_balanced (execute f).
Proof.
  intros Hf w k Hb. unfold execute. destruct (f (conn w)) eqn:Hfc; simpl; [done|].
  by eapply Hf.
Qed.

Lemma keeps_same_conn {A} (m : M A) :
  (∀ w, conn (m w).2 = conn w) → keeps_balanced m.
Proof. intros Hm w k Hb. by rewrite Hm. Qed.

Lemma keeps_for_each {A} (l : list A) body :
  (∀ x, keeps_balanced (body x)) → keeps_balanced (for_each l body).
Proof.
  intros Hbody. induction l as [|x l IH]; cbn [for_each]; [apply keeps_ret|].
  apply keeps_bind; [apply Hbody|by intros _].
Qed.

Lemma results_world futures w : (results futures w).2 = w.
Proof.
  induction futures as [|[v|] fs IH]; cbn [results result]; [done| |done].
  rewrite !bind_eval. cbn. rewrite bind_eval. by destruct (results fs w) as [[?|?] ?]; simpl in *.
Qed.

Lemma keeps_credit_check n : keeps_balanced (credit_check n).
Proof.
  apply keeps_same_conn. intros w. unfold credit_check. case_decide; [done|].
  rewrite bind_eval. unfold submit_all. rewrite bind_eval.
  pose proof (results_world ((λ i, single_agency <$> probe w (reads w) i) <$> seqZ 0 n) (tick w))
    as Hw.
  destruct (results _ _) as [[?|?] w']; simpl in *; by subst w'.
Qed.

Lemma keeps_title_of nm : keeps_balanced (title_of nm).
Proof. apply keeps_same_conn. intros w. by rewrite title_of_returns. Qed.

Lemma keeps_audit s n ty d a : keeps_balanced (_audit s n ty d a).
Proof.
  apply keeps_bind; [by apply keeps_same_conn|]. intros now.
  apply keeps_execute. by intros c c' k [= <-].
Qed.

Lemma keeps_customer_create s n nm a d sc r :
  keeps_balanced (CustomerDAO.create s n nm a d sc r).
Proof. apply keeps_execute. intros c c' k. case_match; [done|]. by intros [= <-]. Qed.

Lemma keeps_customer_update s n nm a : keeps_balanced (CustomerDAO.update s n nm a).
Proof.
  unfold CustomerDAO.update.
  destruct nm, a; try apply keeps_ret;
    (apply keeps_bind; [apply keeps_query|intros ?];
     apply keeps_bind; [|intros ?; apply keeps_ret];
     apply keeps_execute; by intros c c' k [= <-]).
Qed.

Lemma keeps_customer_delete s n : keeps_balanced (CustomerDAO.delete s n).
Proof.
  apply keeps_bind; [apply keeps_query|intros ?].
  apply keeps_bind; [|intros ?; apply keeps_ret].
  apply keeps_execute. intros c c' k. case_match; [done|]. by intros [= <-].
Qed.

Lemma keeps_account_create s n cn ty ir op ol :
  keeps_balanced (AccountDAO.create s n cn ty ir op ol).
Proof.
  apply keeps_execute. intros c c' k. case_match; [done|]. case_match; [done|].
  intros [= <-] Hb acc. simpl. rewrite lookup_insert. case_decide.
  - by intros [= <-].
  - apply Hb.
Qed.

Lemma keeps_account_update s n ty ir ol : keeps_balanced (AccountDAO.update s n ty ir ol).
Proof.
  assert (keeps_balanced (execute (λ c, inr (set_accounts
            (alter (λ v, let 'Account cn t i op o ls ns av ac := v in
                         Account cn (default t ty) (default i ir) op (default o ol) ls ns av ac)
                   (s, n) (accounts c)) c)))) as Hex.
  { apply keeps_execute. intros c c' k [= <-] Hb acc. simpl. rewrite lookup_alter.
    case_decide; [|apply Hb]. subst k.
    destruct (accounts c !! (s, n)) as [[]|] eqn:Hacc; simpl; [|done].
    intros [= <-]. simpl. by apply (Hb _ Hacc). }
  unfold AccountDAO.update.
  destruct ty, ir, ol; try apply keeps_ret;
    (apply keeps_bind; [apply keeps_query|intros ?];
     apply keeps_bind; [apply Hex|intros ?; apply keeps_ret]).
Qed.

Lemma keeps_account_delete s n : keeps_balanced (AccountDAO.delete s n).
Proof.
  apply keeps_bind; [apply keeps_query|intros ?].
  apply keeps_bind; [|intros ?; apply keeps_ret].
  apply keeps_execute. intros c c' k [= <-] Hb acc. simpl.
  rewrite lookup_delete. case_decide; [done|apply Hb].
Qed.

(** Writing balances that are equal whenever the stored ones were. *)
Lemma keeps_update_balance s n av ac w k :
  (∀ acc, accounts (conn w) !! (s, n) = Some acc →
          available_balance acc = actual_balance acc → av = ac) →
  balanced_at (conn w) k →
  balanced_at (conn (AccountDAO.update_balance s n av ac w).2) k.
Proof.
  intros Hnew Hb acc. unfold AccountDAO.update_balance. engine_unfold. simpl.
  rewrite lookup_alter. case_decide; [|apply Hb]. subst k.
  destruct (accounts (conn w) !! (s, n)) as [[]|] eqn:Hacc; simpl; [|done].
  intros [= <-]. simpl. apply (Hnew _ eq_refl). by apply (Hb _ Hacc).
Qed.

Lemma keeps_get_customer s n : keeps_balanced (get_customer s n).
Proof.
  apply keeps_bind.
  - repeat case_decide; [by apply keeps_same_conn|apply keeps_query..].
  - intros [c|]; [apply keeps_ret|apply keeps_raise].
Qed.

Lemma keeps_get_account s n : keeps_balanced (get_account s n).
Proof.
  apply keeps_bind.
  - case_decide; apply keeps_query.
  - intros [c|]; [apply keeps_ret|apply keeps_raise].
Qed.

Lemma keeps_get_accounts_by_customer s n : keeps_balanced (get_accounts_by_customer s n).
Proof.
  apply keeps_bind; [apply keeps_query|].
  intros [c|]; [apply keeps_query|apply keeps_raise].
Qed.

Lemma keeps_create_customer nm a d s : keeps_balanced (create_customer nm a d s).
Proof.
  apply keeps_bind; [apply keeps_title_of|intros t].
  case_decide; [apply keeps_raise|].
  apply keeps_bind; [apply keeps_query|intros n].
  apply keeps_bind; [apply keeps_credit_check|intros sc].
  apply keeps_bind; [by apply keeps_same_conn|intros today].
  apply keeps_bind; [apply keeps_customer_create|intros _].
  apply keeps_bind; [apply keeps_audit|intros _]. apply keeps_query.
Qed.

Lemma keeps_create_account cn ty ir ol s : keeps_balanced (create_account cn ty ir ol s).
Proof.
  unfold create_account. case_decide; [apply keeps_raise|].
  apply keeps_bind; [apply keeps_query|].
  intros [c|]; [|apply keeps_raise].
  apply keeps_bind; [apply keeps_query|intros n].
  apply keeps_bind; [by apply keeps_same_conn|intros today].
  apply keeps_bind; [apply keeps_account_create|intros _].
  apply keeps_bind; [apply keeps_audit|intros _]. apply keeps_query.
Qed.

Lemma keeps_update_customer n nm a s : keeps_balanced (update_customer n nm a s).
Proof.
  apply keeps_bind; [apply keeps_query|].
  intros [c|]; [|apply keeps_raise].
  apply keeps_bind.
  - destruct nm as [nm|]; [|apply keeps_ret].
    apply keeps_bind; [apply keeps_title_of|intros t].
    case_decide; [apply keeps_raise|apply keeps_ret].
  - intros _. apply keeps_bind; [apply keeps_customer_update|intros _]. apply keeps_query.
Qed.

Lemma keeps_update_account n ty ir ol s : keeps_balanced (update_account n ty ir ol s).
Proof.
  apply keeps_bind; [apply keeps_query|].
  intros [c|]; [|apply keeps_raise].
  apply keeps_bind.
  - destruct ty as [ty|]; [|apply keeps_ret].
    case_decide; [apply keeps_raise|apply keeps_ret].
  - intros _. apply keeps_bind; [apply keeps_account_update|intros _]. apply keeps_query.
Qed.

Lemma keeps_delete_account n s : keeps_balanced (delete_account n s).
Proof.
  apply keeps_bind; [apply keeps_query|].
  intros [c|]; [|apply keeps_raise].
  apply keeps_bind; [apply keeps_account_delete|intros _].
  apply keeps_bind; [apply keeps_audit|intros _]. apply keeps_ret.
Qed.

Lemma keeps_delete_customer n s : keeps_balanced (delete_customer n s).
Proof.
  apply keeps_bind; [apply keeps_query|].
  intros [c|]; [|apply keeps_raise].
  apply keeps_bind; [apply keeps_query|intros rows].
  apply keeps_bind.
  - apply keeps_for_each. intros r.
    apply keeps_bind; [apply keeps_delete_account|intros _; apply keeps_ret].
  - intros _. apply keeps_bind; [apply keeps_customer_delete|intros _].
    apply keeps_bind; [apply keeps_audit|intros _]. apply keeps_ret.
Qed.

Lemma keeps_debit_credit n a d s : keeps_balanced (debit_credit n a d s).
Proof.
  intros w k Hb. unfold debit_credit. engine_unfold. simpl.
  destruct (accounts (conn w) !! (s, n)) as [[cn ty ir op ol ls ns av ac]|] eqn:Hacc;
    simpl; [|done].
  destruct d; repeat case_decide; simpl; try done.
  all: intros acc'; simpl; rewrite lookup_alter; case_decide; [|apply Hb].
  all: subst k; rewrite Hacc; simpl; intros [= <-]; simpl.
  all: specialize (Hb _ Hacc); simpl in Hb; lia.
Qed.

Lemma keeps_transfer_funds f t a s : keeps_balanced (transfer_funds f t a s).
Proof.
  intros w k Hb. unfold transfer_funds. engine_unfold. simpl.
  destruct (accounts (conn w) !! (s, f)) as [[cn ty ir op ol ls ns av ac]|] eqn:Hf;
    simpl; [|by destruct (accounts (conn w) !! (s, t))].
  destruct (accounts (conn w) !! (s, t)) as [[cn' ty' ir' op' ol' ls' ns' av' ac']|] eqn:Ht;
    simpl; [|done].
  intros acc'. simpl. rewrite !lookup_alter.
  destruct (decide ((s, t) = k)) as [<-|Hkt].
  - destruct (decide ((s, f) = (s, t))) as [Heq|Hne].
    + rewrite Hf. simpl. intros [= <-]. simpl.
      rewrite <- Heq in Ht. rewrite Hf in Ht. injection Ht as <- <- <- <- <- <- <- <- <-.
      rewrite <- Heq in Hb. specialize (Hb _ Hf). simpl in Hb. lia.
    + rewrite Ht. simpl. intros [= <-]. simpl. specialize (Hb _ Ht). simpl in Hb. lia.
  - destruct (decide ((s, f) = k)) as [<-|Hkf]; [|apply Hb].
    rewrite Hf. simpl. intros [= <-]. simpl. specialize (Hb _ Hf). simpl in Hb. lia.
Qed.

Lemma keeps_serve r : ∀ w k, balanced_at (conn w) k → balanced_at (conn (serve r w)) k.
Proof.
  destruct r; cbn [serve]; unfold after.
  - apply keeps_get_customer.
  - apply keeps_get_account.
  - apply keeps_get_accounts_by_customer.
  - apply keeps_create_customer.
  - apply keeps_create_account.
  - apply keeps_update_customer.
  - apply keeps_update_account.
  - apply keeps_delete_account.
  - apply keeps_delete_customer.
  - apply keeps_transfer_funds.
  - apply keeps_debit_credit.
Qed.

Lemma create_account_returns_zeroed cn ty ir ol s w row w' :
  create_account cn ty ir ol s w = (Return (Some row), w') →
  accounts (conn w) !! row.1 = None ∧
  accounts (conn w') !! row.1 = Some row.2 ∧
  available_balance row.2 = 0 ∧ actual_balance row.2 = 0.
Proof.
  intros Heq.
  destruct (decide (ty ∈ VALID_ACCOUNT_TYPES)) as [Hty|Hty].
  - destruct (customers (conn w) !! (s, cn)) as [c|] eqn:Hc.
    + destruct (create_account_valid cn ty ir ol s w Hty (mk_is_Some _ _ Hc))
        as (t & w'' & Heq' & Hfresh & Hacc & _).
      cbn zeta in *. rewrite Heq' in Heq. injection Heq as <- <-. simpl.
      by rewrite Hacc, lookup_insert_eq.
    + unfold create_account in Heq. case_decide; [done|].
      rewrite bind_eval in Heq. unfold CustomerDAO.get at 1 in Heq. unfold query at 1 in Heq.
      by rewrite Hc in Heq.
  - unfold create_account in Heq. by case_decide.
Qed.

(** C5: for every account number, if the two balances of that account are
    equal (or the account does not exist), they are equal after any sequence
    of engine operations, whether the operations return or raise; and an
    account that create_account returns is new and has both balances zero. *)
Theorem balances_stay_equal rs w k :
  balanced_at (conn w) k →
  balanced_at (conn (serve_all rs w)) k ∧
  (∀ cn ty ir ol s row w',
     create_account cn ty ir ol s w = (Return (Some row), w') →
     accounts (conn w) !! row.1 = None ∧
     accounts (conn w') !! row.1 = Some row.2 ∧
     available_balance row.2 = 0 ∧ actual_balance row.2 = 0).
Proof.
  intros Hb. split.
  - revert w Hb. induction rs as [|r rs IH]; intros w Hb; [done|].
    cbn [serve_all foldl]. apply IH. by apply keeps_serve.
  - intros cn ty ir ol s row w'. apply create_account_returns_zeroed.
Qed.

Lemma balances_stay_equal_witness :
  let w := TestServices._setup_two_accounts 100000 50000 in
  let rs := [TransferFunds 1 2 20000 SORT_CODE; DebitCredit 2 500 true SORT_CODE;
             TransferFunds 1 1 7 SORT_CODE; CreateAccount 1 "ISA" None None SORT_CODE;
             DeleteAccount 2 SORT_CODE] in
  balanced_at (conn w) (SORT_CODE, 1) ∧
  balanced_at (conn (serve_all rs w)) (SORT_CODE, 1).
Proof.
  intros w rs.
  assert (balanced_at (conn w) (SORT_CODE, 1)) as Hb.
  { intros acc. vm_compute. by intros [= <-]. }
  split; [exact Hb|]. exact (proj1 (balances_stay_equal rs w (SORT_CODE, 1) Hb)).
Defined.

(** ** Cascading deletion *)

Lemma delete_account_found n s w a :
  accounts (conn w) !! (s, n) = Some a →
  ∃ w' t,
    delete_account n s w = (Return true, w') ∧
    accounts (conn w') = delete (s, n) (accounts (conn w)) ∧
    customers (conn w') = customers (conn w) ∧
    foreign_keys (conn w') = foreign_keys (conn w) ∧
    transactions (conn w') = (transactions (conn w) ++ [t])%list ∧
    audit_view t = (s, n, "ODA", "Delete account " +:+ pretty n, 0).
Proof.
  intros Ha. unfold delete_account. engine_unfold. simpl. rewrite Ha. simpl.
  eexists _, _. split; [reflexivity|]. by repeat split.
Qed.

Lemma delete_loop s rows : ∀ w,
  NoDup rows.*1 →
  (∀ r, r ∈ rows → r.1.1 = s ∧ accounts (conn w) !! r.1 = Some r.2) →
  ∃ w' ts,
    for_each rows (λ acc, delete_account acc.1.2 s;; mret ()) w = (Return (), w') ∧
    (∀ k, accounts (conn w') !! k
          = if decide (k ∈ rows.*1) then None else accounts (conn w) !! k) ∧
    customers (conn w') = customers (conn w) ∧
    foreign_keys (conn w') = foreign_keys (conn w) ∧
    transactions (conn w') = (transactions (conn w) ++ ts)%list ∧
    audit_view <$> ts = oda_view s <$> rows.
Proof.
  induction rows as [|[[s' n] a] rows IH]; intros w Hnd Hrows.
  - exists w, []. split; [done|]. split; [|by rewrite app_nil_r].
    intros k. case_decide as Hin; [by apply elem_of_nil in Hin|done].
  - cbn [fmap list_fmap fst] in Hnd. apply NoDup_cons in Hnd as [Hnotin Hnd].
    destruct (Hrows ((s', n), a)) as [Hs Ha]; [apply list_elem_of_here|].
    simpl in Hs, Ha. subst s'.
    destruct (delete_account_found n s w a Ha) as (w1 & t & Hdel & Hacc1 & Hc1 & Hf1 & Ht1 & Hv1).
    destruct (IH w1 Hnd) as (w' & ts & Hloop & Hacc' & Hc' & Hf' & Ht' & Hv').
    { intros r Hr. destruct (Hrows r) as [Hrs Hra]; [by apply list_elem_of_further|].
      split; [done|]. rewrite Hacc1, lookup_delete_ne; [done|].
      intros Heq. apply Hnotin. rewrite Heq. apply list_elem_of_fmap. eauto. }
    exists w', (t :: ts). split; [|split; [|split; [|split; [|split]]]].
    + cbn [for_each]. rewrite bind_eval. cbn [fst snd]. rewrite bind_eval, Hdel.
      cbn. apply Hloop.
    + intros k. rewrite Hacc', Hacc1.
      change (((s, n, a) :: rows).*1) with ((s, n) :: rows.*1).
      destruct (decide (k ∈ rows.*1)) as [Hin|Hnin];
        destruct (decide (k ∈ (s, n) :: rows.*1)) as [Hin'|Hnin']; try done.
      * destruct Hnin'. by apply list_elem_of_further.
      * apply elem_of_cons in Hin' as [->|?]; [|done]. apply lookup_delete_eq.
      * apply lookup_delete_ne. intros <-. apply Hnin', list_elem_of_here.
    + congruence.
    + congruence.
    + rewrite Ht', Ht1. by rewrite <- app_assoc.
    + cbn [fmap list_fmap]. by rewrite Hv', Hv1.
Qed.

Lemma elem_of_owned s number c r :
  r ∈ owned s number c ↔ owned_by s number r ∧ accounts c !! r.1 = Some r.2.
Proof.
  unfold owned, order_by_number. rewrite merge_sort_Permutation, list_elem_of_filter.
  destruct r as [k a]. by rewrite elem_of_map_to_list.
Qed.

Lemma NoDup_owned s number c : NoDup (owned s number c).*1.
Proof.
  apply NoDup_fmap_fst.
  - intros k a1 a2 H1 H2. apply elem_of_owned in H1 as [_ H1], H2 as [_ H2].
    simpl in *. congruence.
  - unfold owned, order_by_number. rewrite merge_sort_Permutation.
    eapply sublist_NoDup; [apply NoDup_map_to_list|apply sublist_filter].
Qed.

Lemma page_sublist s number c :
  sql_limit MAX_ACCOUNTS_PER_QUERY (owned s number c) `sublist_of` owned s number c.
Proof. unfold sql_limit. case_decide; [done|apply sublist_take]. Qed.

Lemma delete_customer_loop number s w c :
  customers (conn w) !! (s, number) = Some c →
  let page := sql_limit MAX_ACCOUNTS_PER_QUERY (owned s number (conn w)) in
  ∃ w1 ts,
    delete_customer number s w
    = (CustomerDAO.delete s number ≫= λ _,
       _audit s 0 "ODC" ("Delete customer " +:+ pretty number) 0 ≫= λ _, mret true) w1 ∧
    (∀ k, accounts (conn w1) !! k
          = if decide (k ∈ page.*1) then None else accounts (conn w) !! k) ∧
    customers (conn w1) = customers (conn w) ∧
    foreign_keys (conn w1) = foreign_keys (conn w) ∧
    transactions (conn w1) = (transactions (conn w) ++ ts)%list ∧
    audit_view <$> ts = oda_view s <$> page.
Proof.
  intros Hc page.
  destruct (delete_loop s page w) as (w1 & ts & Hloop & Hrest).
  { eapply sublist_NoDup; [apply NoDup_owned|]. apply fmap_sublist, page_sublist. }
  { intros r Hr. eapply elem_of_sublist in Hr; [|apply page_sublist].
    apply elem_of_owned in Hr as [[Hs _] Ha]. done. }
  exists w1, ts. split; [|done].
  unfold delete_customer. rewrite bind_eval.
  unfold CustomerDAO.get at 1. unfold query at 1. rewrite Hc.
  cbn [fmap option_fmap option_map]. rewrite bind_eval.
  unfold AccountDAO.get_by_customer at 1. unfold query at 1.
  fold (owned s number (conn w)). fold page.
  rewrite bind_eval, Hloop. done.
Qed.

Lemma customer_delete_tail number s w1 c :
  customers (conn w1) !! (s, number) = Some c →
  let tail := CustomerDAO.delete s number ≫= λ _,
              _audit s 0 "ODC" ("Delete customer " +:+ pretty number) 0 ≫= λ _, mret true in
  (foreign_keys (conn w1) = true →
   Exists (owned_by s number) (map_to_list (accounts (conn w1))) →
     tail w1 = (Raise (IntegrityError "FOREIGN KEY constraint failed"), w1)) ∧
  (foreign_keys (conn w1) = false ∨
   ¬ Exists (owned_by s number) (map_to_list (accounts (conn w1))) →
     ∃ w' t,
       tail w1 = (Return true, w') ∧
       customers (conn w') = delete (s, number) (customers (conn w1)) ∧
       accounts (conn w') = accounts (conn w1) ∧
       transactions (conn w') = (transactions (conn w1) ++ [t])%list ∧
       audit_view t = (s, 0, "ODC", "Delete customer " +:+ pretty number, 0)).
Proof.
  intros Hc tail. subst tail. unfold CustomerDAO.delete. engine_unfold.
  cbn [fst snd]. rewrite (rowcount_Some _ _ _ Hc). split.
  - intros -> Hex. rewrite (bool_decide_eq_true_2 _ Hex). done.
  - intros Hok.
    assert (foreign_keys (conn w1) && bool_decide (1 > 0) &&
            bool_decide (Exists (owned_by s number) (map_to_list (accounts (conn w1))))
            = false) as ->.
    { destruct Hok as [->|Hno]; [done|].
      rewrite (bool_decide_eq_false_2 _ Hno). apply andb_false_r. }
    simpl. eexists _, _. split; [reflexivity|]. by repeat split.
Qed.

Lemma delete_customer_not_found number s w :
  customers (conn w) !! (s, number) = None →
  delete_customer number s w
  = (Raise (CustomerNotFound ("Customer " +:+ pretty number +:+ " not found")), w).
Proof.
  intros Hc. unfold delete_customer. rewrite bind_eval.
  unfold CustomerDAO.get at 1. unfold query at 1. by rewrite Hc.
Qed.

(** A customer owning at most MAX_ACCOUNTS_PER_QUERY accounts: every owned
    account row and the customer row are deleted, and the audit trail grows
    by one ODA entry per account, in ascending account number, and one ODC
    entry with account number 0. *)
Lemma delete_customer_cascade number s w c :
  customers (conn w) !! (s, number) = Some c →
  (length (owned s number (conn w)) ≤ 20)%nat →
  ∃ w' ts,
    delete_customer number s w = (Return true, w') ∧
    customers (conn w') = delete (s, number) (customers (conn w)) ∧
    accounts (conn w') = filter (λ r, ¬ owned_by s number r) (accounts (conn w)) ∧
    transactions (conn w') = (transactions (conn w) ++ ts)%list ∧
    audit_view <$> ts
    = ((oda_view s <$> owned s number (conn w))
       ++ [(s, 0, "ODC", "Delete customer " +:+ pretty number, 0)])%list ∧
    length ts = S (length (owned s number (conn w))).
Proof.
  intros Hc Hlen.
  destruct (delete_customer_loop number s w c Hc)
    as (w1 & ts & Hrun & Hacc1 & Hc1 & Hf1 & Ht1 & Hv1).
  cbn zeta in *. unfold sql_limit in Hacc1, Hv1. rewrite decide_False in Hacc1, Hv1 by done.
  rewrite take_ge in Hacc1, Hv1 by (by change (Z.to_nat MAX_ACCOUNTS_PER_QUERY) with 20%nat).
  assert (accounts (conn w1) = filter (λ r, ¬ owned_by s number r) (accounts (conn w))) as Hfil.
  { apply map_eq. intros k. rewrite Hacc1. case_decide as Hin.
    - symmetry. apply map_lookup_filter_None. right. intros a Ha Hno. apply Hno.
      apply list_elem_of_fmap in Hin as ([k' a'] & -> & Hin).
      apply elem_of_owned in Hin as [Hown Ha']. simpl in *. congruence.
    - destruct (accounts (conn w) !! k) as [a|] eqn:Ha; symmetry.
      + apply map_lookup_filter_Some. split; [done|]. intros Hown. apply Hin.
        apply list_elem_of_fmap. exists (k, a). split; [done|]. by apply elem_of_owned.
      + apply map_lookup_filter_None. by left. }
  rewrite <- Hc1 in Hc.
  destruct (proj2 (customer_delete_tail number s w1 c Hc)) as (w' & t & Htail & Hc' & Ha' & Ht' & Hv').
  { right. rewrite Exists_exists. intros ([k a] & Hin & Hown).
    apply elem_of_map_to_list in Hin. rewrite Hfil in Hin.
    apply map_lookup_filter_Some in Hin as [_ Hno]. by apply Hno. }
  exists w', (ts ++ [t])%list. rewrite Hrun.
  split; [done|]. split; [congruence|]. split; [congruence|].
  split; [by rewrite Ht', Ht1, <- app_assoc|].
  split; [by rewrite fmap_app, Hv1; cbn [fmap list_fmap]; rewrite Hv'|].
  rewrite length_app. simpl.
  rewrite <- (length_fmap audit_view ts), Hv1, length_fmap. lia.
Qed.

(** A customer owning more than MAX_ACCOUNTS_PER_QUERY accounts: only the
    lowest-numbered 20 owned accounts are deleted, so an owned account is
    still stored afterwards; with the foreign_keys pragma on, the deletion of
    the customer row then fails with IntegrityError, the customer row stays,
    and no ODC entry follows the 20 ODA entries. *)
Lemma delete_customer_beyond_page number s w c :
  customers (conn w) !! (s, number) = Some c →
  (20 < length (owned s number (conn w)))%nat →
  ∃ o w',
    delete_customer number s w = (o, w') ∧
    (∃ r, r ∈ owned s number (conn w) ∧ accounts (conn w') !! r.1 = Some r.2) ∧
    (foreign_keys (conn w) = true →
       o = Raise (IntegrityError "FOREIGN KEY constraint failed") ∧
       customers (conn w') = customers (conn w) ∧
       ∃ ts, transactions (conn w') = (transactions (conn w) ++ ts)%list ∧
             audit_view <$> ts = oda_view s <$> take 20 (owned s number (conn w))).
Proof.
  intros Hc Hlen.
  destruct (delete_customer_loop number s w c Hc)
    as (w1 & ts & Hrun & Hacc1 & Hc1 & Hf1 & Ht1 & Hv1).
  cbn zeta in *. unfold sql_limit in Hacc1, Hv1. rewrite decide_False in Hacc1, Hv1 by done.
  change (Z.to_nat MAX_ACCOUNTS_PER_QUERY) with 20%nat in Hacc1, Hv1.
  destruct (lookup_lt_is_Some_2 (owned s number (conn w)) 20 Hlen) as [r Hr].
  assert (r ∈ owned s number (conn w)) as Hin by (by eapply list_elem_of_lookup_2).
  assert (accounts (conn w1) !! r.1 = Some r.2) as Hleft.
  { rewrite Hacc1. rewrite decide_False; [by apply elem_of_owned in Hin as [_ ?]|].
    intros Hpage. rewrite fmap_take in Hpage.
    apply elem_of_take in Hpage as (i & Hi & Hlt).
    assert ((owned s number (conn w)).*1 !! 20%nat = Some r.1) as H20
      by (by rewrite list_lookup_fmap, Hr).
    pose proof (NoDup_lookup _ _ _ _ (NoDup_owned s number (conn w)) Hi H20). lia. }
  assert (Exists (owned_by s number) (map_to_list (accounts (conn w1)))) as Hex.
  { apply Exists_exists. exists r. split.
    - destruct r as [k a]. by apply elem_of_map_to_list.
    - by apply elem_of_owned in Hin as [? _]. }
  rewrite <- Hc1 in Hc.
  destruct (customer_delete_tail number s w1 c Hc) as [Hfail Hpass].
  destruct (foreign_keys (conn w)) eqn:Hfk.
  - exists (Raise (IntegrityError "FOREIGN KEY constraint failed")), w1.
    rewrite Hrun, Hfail by (done || congruence).
    split; [done|]. split; [by exists r|]. intros _. split; [done|]. split; [done|].
    by exists ts.
  - destruct Hpass as (w' & t & Htail & Hc' & Ha' & _); [left; congruence|].
    exists (Return true), w'. rewrite Hrun, Htail.
    split; [done|]. split; [exists r; by rewrite Ha'|]. done.
Qed.

(** C1: delete_customer on a customer owning 21 accounts (foreign_keys on,
    as get_connection sets it) raises IntegrityError; the customer row and
    account 21 are still stored; 20 audit entries were appended, all ODA,
    none ODC. *)
Theorem delete_customer_21_accounts :
  let w := TestServices._setup_accounts 21 in
  let w' := after (delete_customer 1 SORT_CODE) w in
  is_Some (customers (conn w) !! (SORT_CODE, 1)) ∧
  length (owned SORT_CODE 1 (conn w)) = 21%nat ∧
  (delete_customer 1 SORT_CODE w).1 = Raise (IntegrityError "FOREIGN KEY constraint failed") ∧
  customers (conn w') = customers (conn w) ∧
  (owned SORT_CODE 1 (conn w')).*1 = [(SORT_CODE, 21)] ∧
  trans_type <$> drop (length (transactions (conn w))) (transactions (conn w'))
  = replicate 20 "ODA".
Proof.
  intros w w'. split; [vm_compute; by eexists|].
  split; [|split; [|split; [|split]]]; vm_compute; reflexivity.
Qed.

(** ** The assertions of tests/test_services.py, on the embedding *)

Section TestAssertions.
Import TestServices.

Let number_of {V} (o : outcome (option (key * V))) : option Z :=
  match o with Return (Some r) => Some r.1.2 | _ => None end.

Example test_valid_title :
  (create_customer "Mr John Smith" "1 Oak Ave" "1990-01-15" SORT_CODE db).1
  = Return (Some ((SORT_CODE, 1),
                  Customer "Mr John Smith" "1 Oak Ave" "1990-01-15" 275 "2026-11-03")).
Proof. vm_compute. reflexivity. Qed.

Example test_invalid_title :
  create_customer "King John" "1 Oak Ave" "" SORT_CODE db
  = (Raise (ValidationError "Invalid title: 'King'"), db).
Proof. vm_compute. reflexivity. Qed.

Example test_empty_title_allowed :
  number_of (create_customer "" "1 Oak Ave" "" SORT_CODE db).1 = Some 1.
Proof. vm_compute. reflexivity. Qed.

Example test_auto_increment :
  number_of (create_customer "Mrs B" "addr" "" SORT_CODE
               (after (create_customer "Mr A" "addr" "" SORT_CODE) db)).1 = Some 2.
Proof. vm_compute. reflexivity. Qed.

Example test_invalid_type :
  (create_account 1 "CHECKING" None None SORT_CODE
     (after (create_customer "Mr A" "addr" "" SORT_CODE) db)).1
  = Raise (ValidationError "Invalid account type: 'CHECKING'").
Proof. vm_compute. reflexivity. Qed.

Example test_customer_not_found :
  (create_account 999 "CURRENT" None None SORT_CODE db).1
  = Raise (CustomerNotFound "Customer 999 not found").
Proof. vm_compute. reflexivity. Qed.

Example test_credit :
  (debit_credit 1 50000 false SORT_CODE (_setup_account 0)).1 = Return (50000, 50000).
Proof. vm_compute. reflexivity. Qed.

Example test_debit :
  (debit_credit 1 10000 true SORT_CODE (_setup_account 50000)).1 = Return (40000, 40000).
Proof. vm_compute. reflexivity. Qed.

Example test_insufficient_funds :
  (debit_credit 1 6000 true SORT_CODE (_setup_account 5000)).1
  = Raise (InsufficientFunds "Insufficient funds for debit").
Proof. vm_compute. reflexivity. Qed.

Example test_basic_transfer :
  (transfer_funds 1 2 20000 SORT_CODE (_setup_two_accounts 100000 50000)).1
  = Return (80000, 70000).
Proof. vm_compute. reflexivity. Qed.

Example test_no_overdraft_check :
  (transfer_funds 1 2 10000 SORT_CODE (_setup_two_accounts 5000 0)).1
  = Return (-5000, 10000).
Proof. vm_compute. reflexivity. Qed.

Example test_account_not_found :
  (transfer_funds 1 999 1000 SORT_CODE (_setup_two_accounts 100000 50000)).1
  = Raise (AccountNotFound "To-account 999 not found").
Proof. vm_compute. reflexivity. Qed.

Example test_cascade_delete :
  let w := after (delete_customer 1 SORT_CODE) (_setup_accounts 2) in
  customers (conn w) !! (SORT_CODE, 1) = None ∧
  (AccountDAO.get_by_customer SORT_CODE 1 MAX_ACCOUNTS_PER_QUERY w).1 = Return [].
Proof. intros w. split; vm_compute; reflexivity. Qed.

End TestAssertions.

(** * Further properties of the engine and of its callers *)

(** ** ServiceErrors and the request layer *)

Lemma not_service_error_integrity msg : ¬ is_service_error (IntegrityError msg).
Proof. by intros [? ?]. Qed.

Lemma not_service_error_timeout : ¬ is_service_error TimeoutError.
Proof. by intros [? ?]. Qed.

Lemma create_customer_outcome nm addr dob s w :
  title nm ∈ VALID_TITLES →
  (∃ row w', create_customer nm addr dob s w = (Return (Some row), w')) ∨
  create_customer nm addr dob s w = (Raise TimeoutError, tick w).
Proof.
  intros Hok.
  destruct (credit_check_outcome w) as [(v & Hcc & _)|Hcc]; [left|right];
    unfold create_customer; rewrite bind_eval, title_of_returns;
    (case_decide; [done|]);
    rewrite bind_eval; unfold CustomerDAO.next_number at 1; unfold query at 1;
    rewrite bind_eval, Hcc; [|reflexivity].
  engine_unfold. simpl. rewrite max_number_plus_one_fresh. simpl.
  rewrite lookup_insert_eq. simpl. eauto.
Qed.

Lemma cleanly_get_customer s n : raises_cleanly (get_customer s n).
Proof.
  intros w e w'. unfold get_customer, CustomerDAO.get_random, CustomerDAO.get_last,
    CustomerDAO.get. engine_unfold.
  repeat case_decide; simpl; case_match; intros [= <- <-]; done.
Qed.

Lemma cleanly_get_account s n : raises_cleanly (get_account s n).
Proof.
  intros w e w'. unfold get_account, AccountDAO.get_last. engine_unfold.
  repeat case_decide; simpl; case_match; intros [= <- <-]; done.
Qed.

Lemma cleanly_get_accounts_by_customer s n : raises_cleanly (get_accounts_by_customer s n).
Proof.
  intros w e w'. unfold get_accounts_by_customer. engine_unfold. simpl.
  case_match; simpl; intros [= <- <-]; done.
Qed.

Lemma cleanly_create_customer nm addr dob s : raises_cleanly (create_customer nm addr dob s).
Proof.
  intros w e w' Heq He.
  destruct (decide (title nm ∈ VALID_TITLES)) as [Hok|Hbad].
  - destruct (create_customer_outcome nm addr dob s w Hok) as [(row & w'' & Heq')|Heq'];
      rewrite Heq' in Heq; [done|].
    injection Heq as <- <-. by apply not_service_error_timeout in He.
  - rewrite (create_customer_invalid _ _ _ _ _ Hbad) in Heq. by injection Heq as <- <-.
Qed.

Lemma create_account_invalid_type cn ty ir ol s w :
  ty ∉ VALID_ACCOUNT_TYPES →
  create_account cn ty ir ol s w
  = (Raise (ValidationError ("Invalid account type: '" +:+ ty +:+ "'")), w).
Proof. intros Hty. unfold create_account. by case_decide. Qed.

Lemma create_account_no_customer cn ty ir ol s w :
  ty ∈ VALID_ACCOUNT_TYPES →
  customers (conn w) !! (s, cn) = None →
  create_account cn ty ir ol s w
  = (Raise (CustomerNotFound ("Customer " +:+ pretty cn +:+ " not found")), w).
Proof.
  intros Hty Hc. unfold create_account. case_decide; [done|].
  rewrite bind_eval. unfold CustomerDAO.get at 1. unfold query at 1. by rewrite Hc.
Qed.

Lemma cleanly_create_account cn ty ir ol s : raises_cleanly (create_account cn ty ir ol s).
Proof.
  intros w e w' Heq He.
  destruct (decide (ty ∈ VALID_ACCOUNT_TYPES)) as [Hty|Hty].
  - destruct (customers (conn w) !! (s, cn)) as [c|] eqn:Hc.
    + destruct (create_account_valid cn ty ir ol s w Hty (mk_is_Some _ _ Hc))
        as (t & w'' & Heq' & _).
      cbn zeta in Heq'. by rewrite Heq' in Heq.
    + rewrite (create_account_no_customer _ _ _ _ _ _ Hty Hc) in Heq. by injection Heq as <- <-.
  - rewrite (create_account_invalid_type _ _ _ _ _ _ Hty) in Heq. by injection Heq as <- <-.
Qed.

Lemma alter_as_insert {V} (f : V → V) (k : key) (m : gmap key V) v :
  m !! k = Some v → alter f k m = <[k := f v]> m.
Proof.
  intros Hk. apply map_eq. intros j. rewrite lookup_alter, lookup_insert.
  case_decide; [by rewrite Hk|done].
Qed.

Lemma update_customer_not_found number nm addr s w :
  customers (conn w) !! (s, number) = None →
  update_customer number nm addr s w
  = (Raise (CustomerNotFound ("Customer " +:+ pretty number +:+ " not found")), w).
Proof.
  intros Hc. unfold update_customer. rewrite bind_eval.
  unfold CustomerDAO.get at 1. unfold query at 1. by rewrite Hc.
Qed.

Lemma update_customer_found number nm addr s w c :
  customers (conn w) !! (s, number) = Some c →
  (∀ n, nm = Some n → title n ∈ VALID_TITLES) →
  let row := Customer (default (name c) nm) (default (address c) addr)
                      (date_of_birth c) (credit_score c) (cs_review_date c) in
  ∃ w',
    update_customer number nm addr s w = (Return (Some ((s, number), row)), w') ∧
    customers (conn w') = <[(s, number) := row]> (customers (conn w)) ∧
    accounts (conn w') = accounts (conn w) ∧
    transactions (conn w') = transactions (conn w) ∧
    sqlite_sequence (conn w') = sqlite_sequence (conn w) ∧
    foreign_keys (conn w') = foreign_keys (conn w).
Proof.
  intros Hc Hnm row. subst row. unfold update_customer.
  rewrite bind_eval. unfold CustomerDAO.get at 1. unfold query at 1. rewrite Hc.
  cbn [fmap option_fmap option_map]. rewrite bind_eval.
  destruct nm as [n|].
  - rewrite bind_eval, title_of_returns. case_decide as Ht; [by destruct Ht; apply Hnm|].
    engine_unfold. cbn [fst snd]. rewrite (alter_as_insert _ _ _ _ Hc).
    cbn. rewrite lookup_insert_eq. destruct c. cbn. eauto 10.
  - destruct addr as [a|].
    + engine_unfold. cbn [fst snd]. rewrite (alter_as_insert _ _ _ _ Hc).
      cbn. rewrite lookup_insert_eq. destruct c. cbn. eauto 10.
    + engine_unfold. cbn. rewrite Hc. destruct c. cbn. exists w.
      rewrite insert_id by done. done.
Qed.

Lemma cleanly_update_customer n nm addr s : raises_cleanly (update_customer n nm addr s).
Proof.
  intros w e w' Heq He.
  destruct (customers (conn w) !! (s, n)) as [c|] eqn:Hc.
  - destruct nm as [x|].
    + destruct (update_customer_named n x addr s w c Hc) as [Hbad Hgood].
      destruct (decide (title x ∈ VALID_TITLES)) as [Hin|Hout].
      * destruct (Hgood Hin) as (w'' & Heq' & _). by rewrite Heq' in Heq.
      * rewrite (Hbad Hout) in Heq. by injection Heq as <- <-.
    + destruct (update_customer_found n None addr s w c Hc) as (w'' & Heq' & _); [done|].
      cbn zeta in Heq'. by rewrite Heq' in Heq.
  - rewrite (update_customer_not_found _ _ _ _ _ Hc) in Heq. by injection Heq as <- <-.
Qed.

Lemma update_account_not_found number ty ir ol s w :
  accounts (conn w) !! (s, number) = None →
  update_account number ty ir ol s w
  = (Raise (AccountNotFound ("Account " +:+ pretty number +:+ " not found")), w).
Proof.
  intros Ha. unfold update_account. rewrite bind_eval.
  unfold AccountDAO.get at 1. unfold query at 1. by rewrite Ha.
Qed.

Lemma update_account_invalid_type number t ir ol s w a :
  accounts (conn w) !! (s, number) = Some a →
  t ∉ VALID_ACCOUNT_TYPES →
  update_account number (Some t) ir ol s w
  = (Raise (ValidationError ("Invalid account type: '" +:+ t +:+ "'")), w).
Proof.
  intros Ha Ht. unfold update_account. rewrite bind_eval.
  unfold AccountDAO.get at 1. unfold query at 1. rewrite Ha.
  cbn [fmap option_fmap option_map]. rewrite bind_eval. by case_decide.
Qed.

Lemma update_account_found number ty ir ol s w a :
  accounts (conn w) !! (s, number) = Some a →
  (∀ t, ty = Some t → t ∈ VALID_ACCOUNT_TYPES) →
  let row := Account (customer_number a) (default (account_type a) ty)
                     (default (interest_rate a) ir) (opened a)
                     (default (overdraft_limit a) ol)
                     (last_statement a) (next_statement a)
                     (available_balance a) (actual_balance a) in
  ∃ w',
    update_account number ty ir ol s w = (Return (Some ((s, number), row)), w') ∧
    accounts (conn w') = <[(s, number) := row]> (accounts (conn w)) ∧
    customers (conn w') = customers (conn w) ∧
    transactions (conn w') = transactions (conn w) ∧
    sqlite_sequence (conn w') = sqlite_sequence (conn w) ∧
    foreign_keys (conn w') = foreign_keys (conn w).
Proof.
  intros Ha Hty row. subst row. unfold update_account.
  rewrite bind_eval. unfold AccountDAO.get at 1. unfold query at 1. rewrite Ha.
  cbn [fmap option_fmap option_map]. rewrite bind_eval.
  assert ((match ty with
           | Some t => if decide (t ∉ VALID_ACCOUNT_TYPES)
                       then raise (ValidationError ("Invalid account type: '" +:+ t +:+ "'"))
                       else mret ()
           | None => mret ()
           end) w = (Return (), w)) as ->.
  { destruct ty as [t|]; [|done]. case_decide as Ht; [|done]. by destruct Ht; apply Hty. }
  destruct ty as [t|], ir as [i|], ol as [o|];
    engine_unfold; cbn [fst snd]; try rewrite (alter_as_insert _ _ _ _ Ha);
    cbn; try rewrite lookup_insert_eq; try rewrite Ha; destruct a; cbn; try (by eauto 10).
  exists w. rewrite insert_id by done. done.
Qed.

Lemma cleanly_update_account n ty ir ol s : raises_cleanly (update_account n ty ir ol s).
Proof.
  intros w e w' Heq He.
  destruct (accounts (conn w) !! (s, n)) as [a|] eqn:Ha.
  - destruct ty as [t|].
    + destruct (decide (t ∈ VALID_ACCOUNT_TYPES)) as [Hin|Hout].
      * destruct (update_account_found n (Some t) ir ol s w a Ha) as (w'' & Heq' & _).
        { by intros ? [= <-]. }
        cbn zeta in Heq'. by rewrite Heq' in Heq.
      * rewrite (update_account_invalid_type _ _ _ _ _ _ _ Ha Hout) in Heq.
        by injection Heq as <- <-.
    + destruct (update_account_found n None ir ol s w a Ha) as (w'' & Heq' & _); [done|].
      cbn zeta in Heq'. by rewrite Heq' in Heq.
  - rewrite (update_account_not_found _ _ _ _ _ _ Ha) in Heq. by injection Heq as <- <-.
Qed.

Lemma delete_account_not_found number s w :
  accounts (conn w) !! (s, number) = None →
  delete_account number s w
  = (Raise (AccountNotFound ("Account " +:+ pretty number +:+ " not found")), w).
Proof.
  intros Ha. unfold delete_account. rewrite bind_eval.
  unfold AccountDAO.get at 1. unfold query at 1. by rewrite Ha.
Qed.

Lemma cleanly_delete_account n s : raises_cleanly (delete_account n s).
Proof.
  intros w e w' Heq He.
  destruct (accounts (conn w) !! (s, n)) as [a|] eqn:Ha.
  - destruct (delete_account_found n s w a Ha) as (w'' & t & Heq' & _). by rewrite Heq' in Heq.
  - rewrite (delete_account_not_found _ _ _ Ha) in Heq. by injection Heq as <- <-.
Qed.

Lemma delete_customer_outcome number s w c :
  customers (conn w) !! (s, number) = Some c →
  (∃ w', delete_customer number s w = (Return true, w')) ∨
  (∃ w', delete_customer number s w
         = (Raise (IntegrityError "FOREIGN KEY constraint failed"), w')).
Proof.
  intros Hc.
  destruct (delete_customer_loop number s w c Hc) as (w1 & ts & Hrun & _ & Hc1 & _).
  cbn zeta in Hrun. rewrite Hrun. rewrite <- Hc1 in Hc.
  destruct (customer_delete_tail number s w1 c Hc) as [Hfail Hpass].
  destruct (foreign_keys (conn w1)) eqn:Hfk.
  - destruct (decide (Exists (owned_by s number) (map_to_list (accounts (conn w1)))))
      as [Hex|Hno].
    + right. exists w1. by apply Hfail.
    + left. destruct Hpass as (w' & t & Heq & _); [by right|]. eauto.
  - left. destruct Hpass as (w' & t & Heq & _); [by left|]. eauto.
Qed.

Lemma cleanly_delete_customer n s : raises_cleanly (delete_customer n s).
Proof.
  intros w e w' Heq He.
  destruct (customers (conn w) !! (s, n)) as [c|] eqn:Hc.
  - destruct (delete_customer_outcome n s w c Hc) as [(w'' & Heq')|(w'' & Heq')];
      rewrite Heq' in Heq; [done|].
    injection Heq as <- <-. by apply not_service_error_integrity in He.
  - rewrite (delete_customer_not_found _ _ _ Hc) in Heq. by injection Heq as <- <-.
Qed.

Lemma cleanly_transfer_funds f t a s : raises_cleanly (transfer_funds f t a s).
Proof.
  intros w e w'. unfold transfer_funds. engine_unfold. simpl.
  destruct (accounts (conn w) !! (s, f)), (accounts (conn w) !! (s, t)); simpl;
    by intros [= <- <-].
Qed.

Lemma cleanly_debit_credit n a d s : raises_cleanly (debit_credit n a d s).
Proof.
  intros w e w'. unfold debit_credit. engine_unfold. simpl.
  destruct (accounts (conn w) !! (s, n)); simpl; [|by intros [= <- <-]].
  destruct d; repeat case_decide; simpl; by intros [= <- <-].
Qed.

(** X1: whenever one of the eleven service functions raises a ServiceError
    (CustomerNotFound, AccountNotFound, ValidationError, InsufficientFunds),
    the tables and the AUTOINCREMENT mark are exactly as the call found
    them: every such raise comes before the first write. *)
Theorem service_errors_write_nothing :
  (∀ s n, raises_cleanly (get_customer s n)) ∧
  (∀ s n, raises_cleanly (get_account s n)) ∧
  (∀ s n, raises_cleanly (get_accounts_by_customer s n)) ∧
  (∀ nm addr dob s, raises_cleanly (create_customer nm addr dob s)) ∧
  (∀ cn ty ir ol s, raises_cleanly (create_account cn ty ir ol s)) ∧
  (∀ n nm addr s, raises_cleanly (update_customer n nm addr s)) ∧
  (∀ n ty ir ol s, raises_cleanly (update_account n ty ir ol s)) ∧
  (∀ n s, raises_cleanly (delete_account n s)) ∧
  (∀ n s, raises_cleanly (delete_customer n s)) ∧
  (∀ f t a s, raises_cleanly (transfer_funds f t a s)) ∧
  (∀ n a d s, raises_cleanly (debit_credit n a d s)).
Proof.
  repeat split; intros.
  - apply cleanly_get_customer.
  - apply cleanly_get_account.
  - apply cleanly_get_accounts_by_customer.
  - apply cleanly_create_customer.
  - apply cleanly_create_account.
  - apply cleanly_update_customer.
  - apply cleanly_update_account.
  - apply cleanly_delete_account.
  - apply cleanly_delete_customer.
  - apply cleanly_transfer_funds.
  - apply cleanly_debit_credit.
Qed.

Lemma service_errors_write_nothing_witness :
  let w := TestServices._setup_account 100 in
  ∃ e w', debit_credit 1 500 true SORT_CODE w = (Raise e, w') ∧
          is_service_error e ∧ conn w' = conn w.
Proof.
  intros w.
  assert (∃ e w', debit_credit 1 500 true SORT_CODE w = (Raise e, w') ∧
                  is_service_error e) as (e & w' & Heq & Hse).
  { vm_compute. eexists _, _. split; [reflexivity|]. eexists. reflexivity. }
  exists e, w'. split; [exact Heq|]. split; [exact Hse|].
  destruct service_errors_write_nothing as (_ & _ & _ & _ & _ & _ & _ & _ & _ & _ & H).
  exact (H 1 500 true SORT_CODE w e w' Heq Hse).
Defined.

Lemma route_all_or_nothing {A B} (call : M A) (ok : A → Api.ApiResult B) :
  raises_cleanly call →
  (∀ a, Api.success (ok a) = true) →
  all_or_nothing (Api._get_db (Api.try_service call ok)).
Proof.
  intros Hclean Hok w. unfold Api._get_db, Api.try_service.
  destruct (call w) as [[a|e] w'] eqn:Hcall.
  - left. apply Hok.
  - destruct (Api.service_error e) as [msg|] eqn:He.
    + right. eapply Hclean; [done|]. unfold is_service_error. by rewrite He.
    + done.
Qed.

(** X2: every route of the request layer that calls a service function is
    all-or-nothing on the tables: it answers success = true, or it answers
    success = false with nothing written (the ServiceError was raised before
    any write, and what is committed is the unchanged tables), or it lets the
    exception through after a rollback. *)
Theorem api_routes_all_or_nothing :
  (∀ n, all_or_nothing (Api.get_customer n)) ∧
  (∀ nm addr dob, all_or_nothing (Api.create_customer nm addr dob)) ∧
  (∀ n nm addr, all_or_nothing (Api.update_customer n nm addr)) ∧
  (∀ n, all_or_nothing (Api.delete_customer n)) ∧
  (∀ n, all_or_nothing (Api.get_customer_accounts n)) ∧
  (∀ n, all_or_nothing (Api.get_account n)) ∧
  (∀ cn ty ir ol, all_or_nothing (Api.create_account cn ty ir ol)) ∧
  (∀ n ty ir ol, all_or_nothing (Api.update_account n ty ir ol)) ∧
  (∀ n, all_or_nothing (Api.delete_account n)) ∧
  (∀ f t a, all_or_nothing (Api.transfer f t a)) ∧
  (∀ n a d, all_or_nothing (Api.debit_credit n a d)).
Proof.
  repeat split; intros; apply route_all_or_nothing; try done.
  - apply cleanly_get_customer.
  - apply cleanly_create_customer.
  - apply cleanly_update_customer.
  - apply cleanly_delete_customer.
  - apply cleanly_get_accounts_by_customer.
  - apply cleanly_get_account.
  - apply cleanly_create_account.
  - apply cleanly_update_account.
  - apply cleanly_delete_account.
  - apply cleanly_transfer_funds.
  - apply cleanly_debit_credit.
Qed.

(** X3: DELETE /customers/{number} for a customer owning more than 20
    accounts, with the foreign_keys pragma on: the IntegrityError of the
    service is not a ServiceError, so the route lets it through and rolls
    back; the 20 account deletions and their audit entries are undone and
    the tables are as before the request. *)
Theorem api_delete_customer_rolls_back number w c :
  customers (conn w) !! (SORT_CODE, number) = Some c →
  (20 < length (owned SORT_CODE number (conn w)))%nat →
  foreign_keys (conn w) = true →
  ∃ w', Api.delete_customer number w
        = (Raise (IntegrityError "FOREIGN KEY constraint failed"), w') ∧
        conn w' = conn w.
Proof.
  intros Hc Hlen Hfk.
  destruct (delete_customer_beyond_page number SORT_CODE w c Hc Hlen)
    as (o & w1 & Heq & _ & Hon).
  destruct (Hon Hfk) as (-> & _).
  exists (set_conn (conn w) w1).
  unfold Api.delete_customer, Api._get_db, Api.try_service. by rewrite Heq.
Qed.

Lemma api_delete_customer_rolls_back_witness :
  let w := TestServices._setup_accounts 21 in
  ∃ w', Api.delete_customer 1 w
        = (Raise (IntegrityError "FOREIGN KEY constraint failed"), w') ∧
        conn w' = conn w.
Proof.
  intros w.
  apply (api_delete_customer_rolls_back 1 w (Customer "Mr A" "addr" "" 275 "2026-11-03")).
  - vm_compute. reflexivity.
  - vm_compute. lia.
  - vm_compute. reflexivity.
Defined.

(** ** Invariants over sequences of requests *)

Section Maintains.

Variable R : Conn → Conn → Prop.
Hypothesis R_refl : ∀ c, R c c.
Hypothesis R_trans : ∀ c1 c2 c3, R c1 c2 → R c2 c3 → R c1 c3.

Hypothesis R_customer_create : ∀ s n nm a d sc r, maintains R (CustomerDAO.create s n nm a d sc r).
Hypothesis R_customer_update : ∀ s n nm a, maintains R (CustomerDAO.update s n nm a).
Hypothesis R_customer_delete : ∀ s n, maintains R (CustomerDAO.delete s n).
Hypothesis R_account_create : ∀ s n cn ty ir op ol, maintains R (AccountDAO.create s n cn ty ir op ol).
Hypothesis R_account_update : ∀ s n ty ir ol, maintains R (AccountDAO.update s n ty ir ol).
Hypothesis R_account_update_balance : ∀ s n av ac, maintains R (AccountDAO.update_balance s n av ac).
Hypothesis R_account_delete : ∀ s n, maintains R (AccountDAO.delete s n).
Hypothesis R_transaction_create :
  ∀ s n d t ty ds a, maintains R (TransactionDAO.create s n d t ty ds a).

Lemma maintains_same_conn {A} (m : M A) : (∀ w, conn (m w).2 = conn w) → maintains R m.
Proof. intros Hm w. rewrite Hm. apply R_refl. Qed.

Lemma maintains_ret {A} (a : A) : maintains R (mret a).
Proof. by apply maintains_same_conn. Qed.

Lemma maintains_raise {A} e : maintains R (@raise A e).
Proof. by apply maintains_same_conn. Qed.

Lemma maintains_query {A} (f : Conn → A) : maintains R (query f).
Proof. by apply maintains_same_conn. Qed.

Lemma maintains_bind {A B} (m : M A) (f : A → M B) :
  maintains R m → (∀ a, maintains R (f a)) → maintains R (m ≫= f).
Proof.
  intros Hm Hf w. rewrite bind_eval. specialize (Hm w).
  destruct (m w) as [[a|e] w'] eqn:Hmw; simpl in *; [|done].
  eapply R_trans; [apply Hm|apply Hf].
Qed.

Lemma maintains_for_each {A} (l : list A) body :
  (∀ x, maintains R (body x)) → maintains R (for_each l body).
Proof.
  intros Hbody. induction l as [|x l IH]; cbn [for_each]; [apply maintains_ret|].
  apply maintains_bind; [apply Hbody|by intros _].
Qed.

Lemma maintains_audit s n ty d a : maintains R (_audit s n ty d a).
Proof.
  apply maintains_bind; [by apply maintains_same_conn|]. intros now.
  apply R_transaction_create.
Qed.

Lemma maintains_credit_check n : maintains R (credit_check n).
Proof.
  apply maintains_same_conn. intros w. unfold credit_check. case_decide; [done|].
  rewrite bind_eval. unfold submit_all. rewrite bind_eval.
  pose proof (results_world ((λ i, single_agency <$> probe w (reads w) i) <$> seqZ 0 n) (tick w))
    as Hw.
  destruct (results _ _) as [[?|?] w']; simpl in *; by subst w'.
Qed.

Lemma maintains_title_of nm : maintains R (title_of nm).
Proof. apply maintains_same_conn. intros w. by rewrite title_of_returns. Qed.

Lemma maintains_get_customer s n : maintains R (get_customer s n).
Proof.
  apply maintains_bind.
  - repeat case_decide; [by apply maintains_same_conn|apply maintains_query..].
  - intros [c|]; [apply maintains_ret|apply maintains_raise].
Qed.

Lemma maintains_get_account s n : maintains R (get_account s n).
Proof.
  apply maintains_bind.
  - case_decide; apply maintains_query.
  - intros [c|]; [apply maintains_ret|apply maintains_raise].
Qed.

Lemma maintains_get_accounts_by_customer s n : maintains R (get_accounts_by_customer s n).
Proof.
  apply maintains_bind; [apply maintains_query|].
  intros [c|]; [apply maintains_query|apply maintains_raise].
Qed.

Lemma maintains_create_customer nm a d s : maintains R (create_customer nm a d s).
Proof.
  apply maintains_bind; [apply maintains_title_of|intros t].
  case_decide; [apply maintains_raise|].
  apply maintains_bind; [apply maintains_query|intros n].
  apply maintains_bind; [apply maintains_credit_check|intros sc].
  apply maintains_bind; [by apply maintains_same_conn|intros today].
  apply maintains_bind; [apply R_customer_create|intros _].
  apply maintains_bind; [apply maintains_audit|intros _]. apply maintains_query.
Qed.

Lemma maintains_create_account cn ty ir ol s : maintains R (create_account cn ty ir ol s).
Proof.
  unfold create_account. case_decide; [apply maintains_raise|].
  apply maintains_bind; [apply maintains_query|].
  intros [c|]; [|apply maintains_raise].
  apply maintains_bind; [apply maintains_query|intros n].
  apply maintains_bind; [by apply maintains_same_conn|intros today].
  apply maintains_bind; [apply R_account_create|intros _].
  apply maintains_bind; [apply maintains_audit|intros _]. apply maintains_query.
Qed.

Lemma maintains_update_customer n nm a s : maintains R (update_customer n nm a s).
Proof.
  apply maintains_bind; [apply maintains_query|].
  intros [c|]; [|apply maintains_raise].
  apply maintains_bind.
  - destruct nm as [nm|]; [|apply maintains_ret].
    apply maintains_bind; [apply maintains_title_of|intros t].
    case_decide; [apply maintains_raise|apply maintains_ret].
  - intros _. apply maintains_bind; [apply R_customer_update|intros _]. apply maintains_query.
Qed.

Lemma maintains_update_account n ty ir ol s : maintains R (update_account n ty ir ol s).
Proof.
  apply maintains_bind; [apply maintains_query|].
  intros [c|]; [|apply maintains_raise].
  apply maintains_bind.
  - destruct ty as [ty|]; [|apply maintains_ret].
    case_decide; [apply maintains_raise|apply maintains_ret].
  - intros _. apply maintains_bind; [apply R_account_update|intros _]. apply maintains_query.
Qed.

Lemma maintains_delete_account n s : maintains R (delete_account n s).
Proof.
  apply maintains_bind; [apply maintains_query|].
  intros [c|]; [|apply maintains_raise].
  apply maintains_bind; [apply R_account_delete|intros _].
  apply maintains_bind; [apply maintains_audit|intros _]. apply maintains_ret.
Qed.

Lemma maintains_delete_customer n s : maintains R (delete_customer n s).
Proof.
  apply maintains_bind; [apply maintains_query|].
  intros [c|]; [|apply maintains_raise].
  apply maintains_bind; [apply maintains_query|intros rows].
  apply maintains_bind.
  - apply maintains_for_each. intros r.
    apply maintains_bind; [apply maintains_delete_account|intros _; apply maintains_ret].
  - intros _. apply maintains_bind; [apply R_customer_delete|intros _].
    apply maintains_bind; [apply maintains_audit|intros _]. apply maintains_ret.
Qed.

Lemma maintains_transfer_funds f t a s : maintains R (transfer_funds f t a s).
Proof.
  apply maintains_bind; [apply maintains_query|intros fa].
  apply maintains_bind; [apply maintains_query|intros ta].
  destruct fa as [fa|]; [|apply maintains_raise].
  destruct ta as [ta|]; [|apply maintains_raise].
  apply maintains_bind; [apply R_account_update_balance|intros _].
  apply maintains_bind; [apply R_account_update_balance|intros _].
  apply maintains_bind; [apply maintains_audit|intros _].
  apply maintains_bind; [apply maintains_audit|intros _]. apply maintains_ret.
Qed.

Lemma maintains_debit_credit n a d s : maintains R (debit_credit n a d s).
Proof.
  apply maintains_bind; [apply maintains_query|].
  intros [acc|]; [|apply maintains_raise].
  apply maintains_bind.
  - destruct d; [|apply maintains_ret].
    case_decide; [apply maintains_raise|].
    case_decide; [apply maintains_raise|apply maintains_ret].
  - intros _. apply maintains_bind; [apply R_account_update_balance|intros _].
    apply maintains_bind; [apply maintains_audit|intros _]. apply maintains_ret.
Qed.

Lemma maintains_serve r w : R (conn w) (conn (serve r w)).
Proof.
  destruct r; cbn [serve]; unfold after.
  - apply maintains_get_customer.
  - apply maintains_get_account.
  - apply maintains_get_accounts_by_customer.
  - apply maintains_create_customer.
  - apply maintains_create_account.
  - apply maintains_update_customer.
  - apply maintains_update_account.
  - apply maintains_delete_account.
  - apply maintains_delete_customer.
  - apply maintains_transfer_funds.
  - apply maintains_debit_credit.
Qed.

Lemma maintains_serve_all rs : ∀ w, R (conn w) (conn (serve_all rs w)).
Proof.
  induction rs as [|r rs IH]; intros w; [apply R_refl|].
  cbn [serve_all foldl]. eapply R_trans; [apply maintains_serve|apply IH].
Qed.

End Maintains.

Ltac dao_step :=
  unfold maintains, trail_extends, ids_kept, references_kept; intros w0; unfold CustomerDAO.update, AccountDAO.update; engine_unfold; cbn;
  repeat case_match; simplify_eq; cbn; try reflexivity.

(** X4: the audit trail is append-only. Over any sequence of engine
    operations, returning or raising, the trail found at the start is a
    prefix of the trail at the end: no entry is ever changed, removed or
    reordered. *)
Theorem audit_trail_append_only rs w :
  transactions (conn w) `prefix_of` transactions (conn (serve_all rs w)).
Proof.
  apply (maintains_serve_all trail_extends); unfold trail_extends.
  - done.
  - intros c1 c2 c3 H12 H23. by etrans.
  - intros; dao_step; done.
  - intros; dao_step; done.
  - intros; dao_step; done.
  - intros; dao_step; done.
  - intros; dao_step; done.
  - intros; dao_step; done.
  - intros; dao_step; done.
  - intros; dao_step. by apply prefix_app_r.
Qed.

Lemma foldr_max_ge (d : Z) l x : x ∈ l → x ≤ foldr Z.max d l.
Proof.
  induction l as [|y l IH]; intros Hin; [by apply elem_of_nil in Hin|].
  cbn [foldr]. apply elem_of_cons in Hin as [->|Hin]; [lia|].
  specialize (IH Hin). lia.
Qed.

Lemma StronglySorted_snoc (l : list Z) y :
  StronglySorted Z.lt l → Forall (λ x, x < y) l → StronglySorted Z.lt (l ++ [y]).
Proof.
  induction 1 as [|x l Hl IH Hx]; intros Hy; simpl.
  - repeat constructor.
  - apply Forall_cons in Hy as [Hxy Hy]. constructor; [by apply IH|].
    apply Forall_app. split; [done|]. by repeat constructor.
Qed.

Lemma next_id_above c : Forall (λ x, x < TransactionDAO.next_id c) (id <$> transactions c).
Proof.
  apply Forall_forall. intros x Hx. unfold TransactionDAO.next_id.
  pose proof (foldr_max_ge 0 _ _ Hx). lia.
Qed.

(** X5: audit entries get surrogate keys that increase along the trail.
    If the keys of the trail are strictly increasing, they are strictly
    increasing, hence pairwise distinct, after any sequence of engine
    operations. *)
Theorem audit_ids_increase rs w :
  ids_increasing (conn w) →
  ids_increasing (conn (serve_all rs w)) ∧
  NoDup (id <$> transactions (conn (serve_all rs w))).
Proof.
  intros Hw.
  assert (ids_increasing (conn (serve_all rs w))) as Hafter.
  { revert Hw. apply (maintains_serve_all ids_kept); unfold ids_kept, ids_increasing.
    - done.
    - intros c1 c2 c3 H12 H23 H1. by apply H23, H12.
    - intros; dao_step; done.
    - intros; dao_step; done.
    - intros; dao_step; done.
    - intros; dao_step; done.
    - intros; dao_step; done.
    - intros; dao_step; done.
    - intros; dao_step; done.
    - intros; dao_step. intros Hs. rewrite fmap_app. cbn.
      apply StronglySorted_snoc; [done|apply next_id_above]. }
  split; [done|]. unfold ids_increasing in Hafter.
  induction Hafter as [|x l Hl IH Hx]; constructor; [|done].
  intros Hin. rewrite Forall_forall in Hx. specialize (Hx x Hin). lia.
Qed.

Lemma audit_ids_increase_witness :
  let w := TestServices._setup_two_accounts 100000 50000 in
  let rs := [TransferFunds 1 2 20000 SORT_CODE; DebitCredit 9 1 true SORT_CODE;
             DeleteAccount 2 SORT_CODE] in
  id <$> transactions (conn w) = [1; 2; 3] ∧
  ids_increasing (conn (serve_all rs w)) ∧
  NoDup (id <$> transactions (conn (serve_all rs w))).
Proof.
  intros w rs.
  assert (id <$> transactions (conn w) = [1; 2; 3]) as Hids by (vm_compute; reflexivity).
  split; [exact Hids|].
  apply (audit_ids_increase rs w). unfold ids_increasing. rewrite Hids.
  repeat constructor; lia.
Defined.

Lemma references_customer_delete s n : maintains references_kept (CustomerDAO.delete s n).
Proof.
  intros w [Hfk Href]. unfold CustomerDAO.delete. engine_unfold. cbn [fst snd].
  rewrite Hfk. cbn [andb].
  destruct (customers (conn w) !! (s, n)) as [c|] eqn:Hc.
  - rewrite (rowcount_Some _ _ _ Hc). rewrite (bool_decide_eq_true_2 (1 > 0)) by lia.
    cbn [andb].
    destruct (decide (Exists (owned_by s n) (map_to_list (accounts (conn w))))) as [Hex|Hno].
    + rewrite (bool_decide_eq_true_2 _ Hex). cbn. done.
    + rewrite (bool_decide_eq_false_2 _ Hno). cbn. split; [done|].
      intros k a Ha. cbn in *. rewrite lookup_delete_ne; [by apply Href|].
      intros Heq. apply Hno, Exists_exists. exists (k, a).
      split; [by apply elem_of_map_to_list|]. unfold owned_by. cbn. by injection Heq as <- <-.
  - unfold rowcount. rewrite Hc. cbn. split; [done|].
    intros k a Ha. cbn. rewrite delete_id by done. by apply Href.
Qed.

Lemma references_account_create s n cn ty ir op ol :
  maintains references_kept (AccountDAO.create s n cn ty ir op ol).
Proof.
  intros w [Hfk Href]. unfold AccountDAO.create. engine_unfold. cbn [fst snd].
  destruct (accounts (conn w) !! (s, n)) as [a0|] eqn:Hn; cbn; [done|].
  rewrite Hfk. cbn [andb].
  destruct (customers (conn w) !! (s, cn)) as [c|] eqn:Hc; cbn; [|done].
  split; [done|]. intros k a. cbn. rewrite lookup_insert. case_decide as Hk.
  - intros [= <-]. subst k. cbn. by rewrite Hc.
  - apply Href.
Qed.

Lemma referential_alter c (f : account → account) k :
  (∀ a, customer_number (f a) = customer_number a) →
  referential c → referential (set_accounts (alter f k (accounts c)) c).
Proof.
  intros Hf Href j x. cbn. rewrite lookup_alter. case_decide; [|apply Href].
  subst j. destruct (accounts c !! k) as [a|] eqn:Ha; cbn; [|done].
  intros [= <-]. rewrite Hf. by apply (Href _ _ Ha).
Qed.

Lemma references_account_update s n ty ir ol :
  maintains references_kept (AccountDAO.update s n ty ir ol).
Proof.
  intros w [Hfk Href]. unfold AccountDAO.update.
  destruct ty, ir, ol; engine_unfold; cbn [fst snd]; try done;
    (split; [done|]); apply referential_alter; try done; by intros [].
Qed.

Lemma references_account_update_balance s n av ac :
  maintains references_kept (AccountDAO.update_balance s n av ac).
Proof.
  intros w [Hfk Href]. unfold AccountDAO.update_balance. engine_unfold. cbn [fst snd].
  split; [done|]. apply referential_alter; [|done]. by intros [].
Qed.

(** X6: referential integrity is an invariant of the engine. On a connection
    with the foreign_keys pragma on, if every account row references a
    stored customer row, the same holds after any sequence of engine
    operations, returning or raising: no operation leaves an account without
    its customer. *)
Theorem accounts_keep_their_customer rs w :
  foreign_keys (conn w) = true →
  referential (conn w) →
  foreign_keys (conn (serve_all rs w)) = true ∧ referential (conn (serve_all rs w)).
Proof.
  intros Hfk Href.
  apply (maintains_serve_all references_kept); [| | | | | | | | | |by split].
  - by intros c ?.
  - intros c1 c2 c3 H12 H23 H1. by apply H23, H12.
  - intros; dao_step; try done. intros [Hfk' Href']. split; [done|].
    intros k0 x0 Hx0. cbn in *. rewrite lookup_insert_is_Some'. right. by apply Href'.
  - intros; dao_step; try done; intros [Hfk' Href']; (split; [done|]);
      intros k0 x0 Hx0; cbn in *; rewrite lookup_alter_is_Some; by apply Href'.
  - apply references_customer_delete.
  - apply references_account_create.
  - apply references_account_update.
  - apply references_account_update_balance.
  - intros; dao_step; try done. intros [Hfk' Href']. split; [done|].
    intros k0 x0. cbn. rewrite lookup_delete. case_decide; [done|apply Href'].
  - intros; dao_step; done.
Qed.

Lemma referential_check c :
  Forall (λ r, is_Some (customers c !! (r.1.1, customer_number r.2)))
         (map_to_list (accounts c)) →
  referential c.
Proof.
  rewrite Forall_forall. intros Hall k a Ha.
  apply (Hall (k, a)). by apply elem_of_map_to_list.
Qed.

Lemma accounts_keep_their_customer_witness :
  let w := TestServices._setup_two_accounts 100000 50000 in
  let rs := [DeleteCustomer 1 SORT_CODE; CreateAccount 7 "ISA" None None SORT_CODE;
             DeleteAccount 2 SORT_CODE] in
  foreign_keys (conn (serve_all rs w)) = true ∧ referential (conn (serve_all rs w)).
Proof.
  intros w rs. apply (accounts_keep_their_customer rs w).
  - vm_compute. reflexivity.
  - apply referential_check, (bool_decide_unpack _). vm_compute. exact I.
Defined.

(** ** Reading customers and accounts *)

Global Instance number_le_transitive {V} : Transitive (@number_le V).
Proof. unfold number_le. intros x y z. lia. Qed.
Global Instance number_le_total {V} : Total (@number_le V).
Proof. unfold number_le. intros x y. lia. Qed.
Global Instance number_ge_transitive {V} : Transitive (@number_ge V).
Proof. unfold number_ge. intros x y z. lia. Qed.
Global Instance number_ge_total {V} : Total (@number_ge V).
Proof. unfold number_ge. intros x y. lia. Qed.

Lemma elem_of_in_sortcode {V} (s : string) (t : gmap key V) r :
  r ∈ in_sortcode s t ↔ r.1.1 = s ∧ t !! r.1 = Some r.2.
Proof.
  unfold in_sortcode. rewrite list_elem_of_filter. destruct r as [k v].
  by rewrite elem_of_map_to_list.
Qed.

Lemma in_sortcode_empty {V} (s : string) (t : gmap key V) :
  in_sortcode s t = [] ↔ ∀ x, t !! (s, x) = None.
Proof.
  split.
  - intros Hnil x. apply eq_None_not_Some. intros [v Hv].
    assert (((s, x), v) ∈ in_sortcode s t) as Hin by (by apply elem_of_in_sortcode).
    rewrite Hnil in Hin. by apply elem_of_nil in Hin.
  - intros Hnone. destruct (in_sortcode s t) as [|[[s' x] v] l] eqn:Hl; [done|].
    assert (((s', x), v) ∈ in_sortcode s t) as Hin by (rewrite Hl; apply list_elem_of_here).
    apply elem_of_in_sortcode in Hin as [Hs Hv]. simpl in *. subst s'.
    by rewrite Hnone in Hv.
Qed.

(** [ORDER BY number DESC LIMIT 1] over the rows of a sort code. *)
Lemma last_row_spec {V} (s : string) (t : gmap key V) :
  match head (sql_limit 1 (order_by_number_desc (in_sortcode s t))) with
  | Some r => r.1.1 = s ∧ t !! r.1 = Some r.2 ∧ ∀ x, is_Some (t !! (s, x)) → x ≤ r.1.2
  | None => ∀ x, t !! (s, x) = None
  end.
Proof.
  unfold sql_limit, order_by_number_desc. rewrite decide_False by lia.
  change (Z.to_nat 1) with 1%nat.
  pose proof (merge_sort_Permutation number_ge (in_sortcode s t)) as Hperm.
  pose proof (StronglySorted_merge_sort number_ge (in_sortcode s t)) as Hsort.
  destruct (merge_sort number_ge (in_sortcode s t)) as [|r l]; cbn.
  - apply in_sortcode_empty. symmetry in Hperm. by apply Permutation_nil_r in Hperm.
  - assert (r ∈ in_sortcode s t) as Hr by (rewrite <- Hperm; apply list_elem_of_here).
    apply elem_of_in_sortcode in Hr as [Hs Hv]. split; [done|]. split; [done|].
    intros x [v Hx].
    assert (((s, x), v) ∈ r :: l) as Hin by (rewrite Hperm; by apply elem_of_in_sortcode).
    apply StronglySorted_cons in Hsort as [Hall _].
    apply elem_of_cons in Hin as [<-|Hin]; [done|].
    rewrite Forall_forall in Hall. apply (Hall _ Hin).
Qed.



(** X8: get_customer with number 0 returns some stored customer of the sort
    code, chosen by SQL RANDOM(); it raises CustomerNotFound exactly when the
    sort code has no customer. The tables are never changed. *)
Theorem get_customer_random s w :
  (∃ r w', get_customer s 0 w = (Return r, w') ∧ conn w' = conn w ∧ r.1.1 = s ∧
           customers (conn w) !! r.1 = Some r.2) ∨
  (∃ w', get_customer s 0 w = (Raise (CustomerNotFound "Customer 0 not found"), w') ∧
         conn w' = conn w ∧ ∀ x, customers (conn w) !! (s, x) = None).
Proof.
  unfold get_customer. rewrite bind_eval. rewrite decide_True by done.
  unfold CustomerDAO.get_random.
  destruct (in_sortcode s (customers (conn w))) as [|r0 l] eqn:Hrows.
  - right. cbn. eexists. split; [reflexivity|]. split; [done|].
    by apply in_sortcode_empty.
  - left.
    destruct (lookup_lt_is_Some_2 (r0 :: l)
                (sql_random w (reads w) `mod` length (r0 :: l))%nat) as [r Hr].
    { apply Nat.mod_upper_bound. done. }
    rewrite Hr. cbn. eexists r, _. split; [reflexivity|]. split; [done|].
    apply list_elem_of_lookup_2 in Hr. rewrite <- Hrows in Hr.
    by apply elem_of_in_sortcode in Hr.
Qed.

(** X9: get_account with a number below 99999999 that SQLite can hold is
    the exact-key lookup; with 99999999 or more it returns the
    highest-numbered account of the sort code, whatever the number asked
    for. AccountNotFound is raised exactly when the key, respectively the
    sort code, has no account; the world is never changed. *)
Theorem get_account_exact_or_last s n w :
  (int64 n → n < 99999999 →
     get_account s n w
     = match accounts (conn w) !! (s, n) with
       | Some a => (Return ((s, n), a), w)
       | None => (Raise (AccountNotFound ("Account " +:+ pretty n +:+ " not found")), w)
       end) ∧
  (99999999 ≤ n →
     (∃ r, get_account s n w = (Return r, w) ∧ r.1.1 = s ∧
           accounts (conn w) !! r.1 = Some r.2 ∧
           ∀ x, is_Some (accounts (conn w) !! (s, x)) → x ≤ r.1.2) ∨
     (get_account s n w
      = (Raise (AccountNotFound ("Account " +:+ pretty n +:+ " not found")), w) ∧
      ∀ x, accounts (conn w) !! (s, x) = None)).
Proof.
  split; [intros _ Hn|intros Hn]; unfold get_account; rewrite bind_eval.
  - rewrite decide_False by lia. unfold AccountDAO.get, query.
    by destruct (accounts (conn w) !! (s, n)).
  - rewrite decide_True by done. unfold AccountDAO.get_last, query.
    pose proof (last_row_spec s (accounts (conn w))) as Hlast.
    destruct (head _) as [r|]; [left|right]; eauto.
Qed.

Lemma get_account_exact_or_last_witness :
  let w := TestServices._setup_two_accounts 100000 50000 in
  get_account SORT_CODE 2 w
  = match accounts (conn w) !! (SORT_CODE, 2) with
    | Some a => (Return ((SORT_CODE, 2), a), w)
    | None => (Raise (AccountNotFound ("Account " +:+ pretty 2 +:+ " not found")), w)
    end.
Proof.
  intros w. apply (proj1 (get_account_exact_or_last SORT_CODE 2 w)); [|lia].
  unfold int64. cbn. lia.
Defined.

Lemma strictly_ascending {V} (s : string) (l : list (key * V)) :
  NoDup l.*1 → (∀ r, r ∈ l → r.1.1 = s) → StronglySorted number_le l →
  StronglySorted Z.lt ((λ r, r.1.2) <$> l).
Proof.
  intros Hnd Hs Hsort. induction Hsort as [|r l Hl IH Hr]; [constructor|].
  cbn [fmap list_fmap] in *. apply NoDup_cons in Hnd as [Hnotin Hnd].
  constructor.
  - apply IH; [done|]. intros r' Hr'. apply Hs. by apply list_elem_of_further.
  - apply Forall_fmap, Forall_forall. intros r' Hr'. cbn.
    rewrite Forall_forall in Hr. specialize (Hr r' Hr'). unfold number_le in Hr.
    destruct (decide (r.1.2 = r'.1.2)) as [Heq|]; [|lia].
    destruct Hnotin. apply list_elem_of_fmap. exists r'. split; [|done].
    pose proof (Hs r (list_elem_of_here _ _)) as H1.
    pose proof (Hs r' (list_elem_of_further _ _ _ Hr')) as H2.
    destruct r as [[s1 n1] v1], r' as [[s2 n2] v2]. cbn in *. congruence.
Qed.

Lemma owned_ascending s cn c : StronglySorted Z.lt ((λ r, r.1.2) <$> owned s cn c).
Proof.
  apply (strictly_ascending s); [apply NoDup_owned| |].
  - intros r Hr. by apply elem_of_owned in Hr as [[? _] _].
  - apply (StronglySorted_merge_sort number_le).
Qed.

(** X10: get_accounts_by_customer raises CustomerNotFound, changing nothing,
    when the customer number is one SQLite can hold and the customer is not
    stored. For a stored customer it returns at most 20
    accounts, in strictly ascending account number, each of them a stored
    account of that customer; an account of the customer that is left out is
    numbered above all 20 returned ones. *)
Theorem get_accounts_by_customer_page s cn w :
  (int64 cn → customers (conn w) !! (s, cn) = None →
     get_accounts_by_customer s cn w
     = (Raise (CustomerNotFound ("Customer " +:+ pretty cn +:+ " not found")), w)) ∧
  (is_Some (customers (conn w) !! (s, cn)) →
     ∃ rows,
       get_accounts_by_customer s cn w = (Return rows, w) ∧
       (length rows ≤ 20)%nat ∧
       StronglySorted Z.lt ((λ r, r.1.2) <$> rows) ∧
       (∀ r, r ∈ rows → r.1.1 = s ∧ customer_number r.2 = cn ∧
                        accounts (conn w) !! r.1 = Some r.2) ∧
       (∀ k a, k.1 = s → customer_number a = cn → accounts (conn w) !! k = Some a →
               (k, a) ∈ rows ∨
               (length rows = 20%nat ∧ ∀ r, r ∈ rows → r.1.2 < k.2))).
Proof.
  split.
  - intros _ Hc. unfold get_accounts_by_customer. rewrite bind_eval.
    unfold CustomerDAO.get at 1. unfold query at 1. by rewrite Hc.
  - intros [c Hc]. exists (take 20 (owned s cn (conn w))).
    pose proof (owned_ascending s cn (conn w)) as Hasc.
    rewrite <- (take_drop 20 (owned s cn (conn w))) in Hasc.
    rewrite fmap_app in Hasc. apply StronglySorted_app in Hasc as (Hlt & Htake & _).
    split; [|split; [|split; [|split]]].
    + unfold get_accounts_by_customer. rewrite bind_eval.
      unfold CustomerDAO.get at 1. unfold query at 1. by rewrite Hc.
    + rewrite length_take. lia.
    + done.
    + intros r Hr. eapply elem_of_sublist in Hr; [|apply sublist_take].
      by apply elem_of_owned in Hr as [[? ?] ?].
    + intros k a Hs Hcn Ha.
      assert ((k, a) ∈ owned s cn (conn w)) as Hin by (by apply elem_of_owned).
      rewrite <- (take_drop 20 (owned s cn (conn w))) in Hin.
      apply elem_of_app in Hin as [Hin|Hin]; [by left|]. right. split.
      * apply length_take_le. destruct (decide (20 ≤ length (owned s cn (conn w))))%nat;
          [done|]. rewrite drop_ge in Hin by lia. by apply elem_of_nil in Hin.
      * intros r Hr. apply (Hlt r.1.2 k.2); apply list_elem_of_fmap;
          [by exists r|by exists (k, a)].
Qed.

Lemma get_accounts_by_customer_page_witness :
  let w := TestServices._setup_accounts 21 in
  get_accounts_by_customer SORT_CODE 7 w
  = (Raise (CustomerNotFound ("Customer " +:+ pretty 7 +:+ " not found")), w) ∧
  ∃ rows,
    get_accounts_by_customer SORT_CODE 1 w = (Return rows, w) ∧
    (length rows ≤ 20)%nat ∧
    StronglySorted Z.lt ((λ r, r.1.2) <$> rows) ∧
    (∀ r, r ∈ rows → r.1.1 = SORT_CODE ∧ customer_number r.2 = 1 ∧
                     accounts (conn w) !! r.1 = Some r.2) ∧
    (∀ k a, k.1 = SORT_CODE → customer_number a = 1 → accounts (conn w) !! k = Some a →
            (k, a) ∈ rows ∨
            (length rows = 20%nat ∧ ∀ r, r ∈ rows → r.1.2 < k.2)).
Proof.
  intros w. split.
  - apply (proj1 (get_accounts_by_customer_page SORT_CODE 7 w)).
    + unfold int64. cbn. lia.
    + vm_compute. reflexivity.
  - apply (proj2 (get_accounts_by_customer_page SORT_CODE 1 w)).
    vm_compute. eauto.
Defined.

(** ** Updates and deletions *)

(** X11: update_customer with a number SQLite can hold, on a customer that
    is not stored, raises CustomerNotFound and changes nothing, whatever
    name is supplied (the lookup comes before the title check). On a stored
    customer, with a
    supplied name (if any) whose title is valid, it replaces exactly the
    supplied fields among name and address: date of birth, credit score and
    review date, every other customer, every account and the audit trail
    are as before (an update is not audited). *)
Theorem update_customer_partial number nm addr s w :
  (int64 number → customers (conn w) !! (s, number) = None →
     update_customer number nm addr s w
     = (Raise (CustomerNotFound ("Customer " +:+ pretty number +:+ " not found")), w)) ∧
  (∀ c, customers (conn w) !! (s, number) = Some c →
     (∀ n, nm = Some n → title n ∈ VALID_TITLES) →
     ∃ row w',
       update_customer number nm addr s w = (Return (Some ((s, number), row)), w') ∧
       name row = default (name c) nm ∧
       address row = default (address c) addr ∧
       date_of_birth row = date_of_birth c ∧
       credit_score row = credit_score c ∧
       cs_review_date row = cs_review_date c ∧
       customers (conn w') !! (s, number) = Some row ∧
       (∀ k, k ≠ (s, number) → customers (conn w') !! k = customers (conn w) !! k) ∧
       accounts (conn w') = accounts (conn w) ∧
       transactions (conn w') = transactions (conn w)).
Proof.
  split; [intros _; apply update_customer_not_found|].
  intros c Hc Hnm.
  destruct (update_customer_found number nm addr s w c Hc Hnm)
    as (w' & Heq & Hcust & Hacc & Htr & _).
  cbn zeta in *. eexists _, w'. split; [exact Heq|]. cbn.
  repeat (split; [done|]). rewrite Hcust.
  split; [apply lookup_insert_eq|]. split; [|done].
  intros k Hk. by rewrite lookup_insert_ne.
Qed.

Lemma update_customer_partial_witness :
  let w := after (create_customer "Mr A" "addr" "1990-01-15" SORT_CODE) TestServices.db in
  update_customer 7 (Some "King John") None SORT_CODE w
  = (Raise (CustomerNotFound ("Customer " +:+ pretty 7 +:+ " not found")), w) ∧
  ∃ row w',
    update_customer 1 None (Some "2 Elm Close") SORT_CODE w
    = (Return (Some ((SORT_CODE, 1), row)), w') ∧
    name row = "Mr A" ∧ address row = "2 Elm Close" ∧ date_of_birth row = "1990-01-15" ∧
    transactions (conn w') = transactions (conn w).
Proof.
  intros w. split.
  { apply (proj1 (update_customer_partial 7 (Some "King John") None SORT_CODE w)).
    - unfold int64. cbn. lia.
    - vm_compute. reflexivity. }
  destruct (proj2 (update_customer_partial 1 None (Some "2 Elm Close") SORT_CODE w)
              (Customer "Mr A" "addr" "1990-01-15" 275 "2026-11-03"))
    as (row & w' & Heq & Hn & Ha & Hd & _ & _ & _ & _ & _ & Ht).
  - vm_compute. reflexivity.
  - intros n Hn. discriminate Hn.
  - exists row, w'. split; [exact Heq|]. split; [exact Hn|]. split; [exact Ha|].
    split; [exact Hd|exact Ht].
Defined.

(** X12: update_account with a number SQLite can hold raises
    AccountNotFound, changing nothing, when the account is not stored (even
    with an invalid type); on a stored account it raises ValidationError,
    changing nothing, when a supplied type is outside VALID_ACCOUNT_TYPES.
    Otherwise, with a supplied interest rate and overdraft limit that SQLite
    can hold, it replaces exactly the supplied fields among type, interest
    rate and overdraft limit, with no business check on the two numbers
    (negative ones are stored): owner, opening date and both balances, every
    other account, every customer and the audit trail are as before. *)
Theorem update_account_partial number ty ir ol s w :
  (int64 number → accounts (conn w) !! (s, number) = None →
     update_account number ty ir ol s w
     = (Raise (AccountNotFound ("Account " +:+ pretty number +:+ " not found")), w)) ∧
  (∀ t, is_Some (accounts (conn w) !! (s, number)) → ty = Some t →
     t ∉ VALID_ACCOUNT_TYPES →
     update_account number ty ir ol s w
     = (Raise (ValidationError ("Invalid account type: '" +:+ t +:+ "'")), w)) ∧
  (∀ a, accounts (conn w) !! (s, number) = Some a →
     (∀ t, ty = Some t → t ∈ VALID_ACCOUNT_TYPES) →
     (∀ r, ir = Some r → int64 r) → (∀ l, ol = Some l → int64 l) →
     ∃ row w',
       update_account number ty ir ol s w = (Return (Some ((s, number), row)), w') ∧
       account_type row = default (account_type a) ty ∧
       interest_rate row = default (interest_rate a) ir ∧
       overdraft_limit row = default (overdraft_limit a) ol ∧
       customer_number row = customer_number a ∧
       opened row = opened a ∧
       available_balance row = available_balance a ∧
       actual_balance row = actual_balance a ∧
       accounts (conn w') !! (s, number) = Some row ∧
       (∀ k, k ≠ (s, number) → accounts (conn w') !! k = accounts (conn w) !! k) ∧
       customers (conn w') = customers (conn w) ∧
       transactions (conn w') = transactions (conn w)).
Proof.
  split; [intros _; apply update_account_not_found|]. split.
  - intros t [a Ha] -> Ht. by eapply update_account_invalid_type.
  - intros a Ha Hty _ _.
    destruct (update_account_found number ty ir ol s w a Ha Hty)
      as (w' & Heq & Hacc & Hcust & Htr & _).
    cbn zeta in *. eexists _, w'. split; [exact Heq|]. cbn.
    repeat (split; [done|]). rewrite Hacc.
    split; [apply lookup_insert_eq|]. split; [|done].
    intros k Hk. by rewrite lookup_insert_ne.
Qed.

Lemma update_account_partial_witness :
  let w := TestServices._setup_account 5000 in
  update_account 7 (Some "GOLD") None None SORT_CODE w
  = (Raise (AccountNotFound ("Account " +:+ pretty 7 +:+ " not found")), w) ∧
  ∃ row w',
    update_account 1 None (Some (-300)) None SORT_CODE w
    = (Return (Some ((SORT_CODE, 1), row)), w') ∧
    account_type row = "CURRENT" ∧ interest_rate row = -300 ∧
    available_balance row = 5000 ∧ actual_balance row = 5000.
Proof.
  intros w. split.
  { apply (proj1 (update_account_partial 7 (Some "GOLD") None None SORT_CODE w)).
    - unfold int64. cbn. lia.
    - vm_compute. reflexivity. }
  destruct (proj2 (proj2 (update_account_partial 1 None (Some (-300)) None SORT_CODE w))
              (Account 1 "CURRENT" 0 "2026-11-03" 0 None None 5000 5000))
    as (row & w' & Heq & Hty & Hir & _ & _ & _ & Hav & Hac & _).
  - vm_compute. reflexivity.
  - intros t Ht. discriminate Ht.
  - intros r [= <-]. unfold int64. cbn. lia.
  - intros l Hl. discriminate Hl.
  - exists row, w'. split; [exact Heq|]. split; [exact Hty|]. split; [exact Hir|].
    split; [exact Hav|exact Hac].
Defined.

(** X13: delete_account with a number SQLite can hold raises
    AccountNotFound, changing nothing, when the account is not stored. On a
    stored account it returns True whatever the balances
    of the account are, removes that row only (other accounts and all
    customers, the owner included, stay) and appends one ODA entry with the
    account number and amount 0. *)
Theorem delete_account_effect number s w :
  (int64 number → accounts (conn w) !! (s, number) = None →
     delete_account number s w
     = (Raise (AccountNotFound ("Account " +:+ pretty number +:+ " not found")), w)) ∧
  (is_Some (accounts (conn w) !! (s, number)) →
     ∃ w' t,
       delete_account number s w = (Return true, w') ∧
       accounts (conn w') !! (s, number) = None ∧
       (∀ k, k ≠ (s, number) → accounts (conn w') !! k = accounts (conn w) !! k) ∧
       customers (conn w') = customers (conn w) ∧
       transactions (conn w') = (transactions (conn w) ++ [t])%list ∧
       audit_view t = (s, number, "ODA", "Delete account " +:+ pretty number, 0)).
Proof.
  split; [intros _; apply delete_account_not_found|].
  intros [a Ha].
  destruct (delete_account_found number s w a Ha) as (w' & t & Heq & Hacc & Hc & _ & Ht & Hv).
  exists w', t. split; [done|]. rewrite Hacc.
  split; [apply lookup_delete_eq|]. split; [|done].
  intros k Hk. by rewrite lookup_delete_ne.
Qed.

Lemma delete_account_effect_witness :
  let w := TestServices._setup_two_accounts 100000 50000 in
  delete_account 7 SORT_CODE w
  = (Raise (AccountNotFound ("Account " +:+ pretty 7 +:+ " not found")), w) ∧
  ∃ w' t,
    delete_account 2 SORT_CODE w = (Return true, w') ∧
    accounts (conn w') !! (SORT_CODE, 2) = None ∧
    (∀ k, k ≠ (SORT_CODE, 2) → accounts (conn w') !! k = accounts (conn w) !! k) ∧
    customers (conn w') = customers (conn w) ∧
    transactions (conn w') = (transactions (conn w) ++ [t])%list ∧
    audit_view t = (SORT_CODE, 2, "ODA", "Delete account " +:+ pretty 2, 0).
Proof.
  intros w. split.
  - apply (proj1 (delete_account_effect 7 SORT_CODE w)).
    + unfold int64. cbn. lia.
    + vm_compute. reflexivity.
  - apply (proj2 (delete_account_effect 2 SORT_CODE w)). vm_compute. eauto.
Defined.

(** ** Creation *)

(** X14: when the result of a scoring probe is not there in time,
    create_customer on a name with a valid title raises TimeoutError (not a
    ServiceError) and has written nothing: no customer row, no audit entry. *)
Theorem create_customer_scoring_timeout nm addr dob s w i :
  title nm ∈ VALID_TITLES →
  0 ≤ i < 5 →
  probe w (reads w) i = None →
  ∃ w', create_customer nm addr dob s w = (Raise TimeoutError, w') ∧
        conn w' = conn w ∧ ¬ is_service_error TimeoutError.
Proof.
  intros Hok Hi Hlate. exists (tick w).
  split; [|split; [done|apply not_service_error_timeout]].
  unfold create_customer. rewrite bind_eval, title_of_returns.
  case_decide; [done|].
  rewrite bind_eval. unfold CustomerDAO.next_number at 1. unfold query at 1.
  by rewrite bind_eval, (credit_check_late w i Hi Hlate).
Qed.

Lemma create_customer_scoring_timeout_witness :
  let w := MkWorld init_db (λ n, Instant "2026-11-03" "101500")
                   (λ n i, if decide (i = 3) then None else Some (7 * i)) (λ n, n) 0 in
  ∃ w', create_customer "Dr Who" "addr" "" SORT_CODE w = (Raise TimeoutError, w') ∧
        conn w' = conn w ∧ ¬ is_service_error TimeoutError.
Proof.
  intros w. apply (create_customer_scoring_timeout "Dr Who" "addr" "" SORT_CODE w 3).
  - unfold VALID_TITLES. apply list_elem_of_further, list_elem_of_further,
      list_elem_of_further, list_elem_of_further, (list_elem_of_here "Dr").
  - lia.
  - reflexivity.
Defined.

(** X15: a create_customer that passes the title check and is scored stores
    one new customer row under the next number (one more than the highest
    customer number of the sort code, or 1 when it has no customer), with
    the name, address and
    date of birth as given, a credit score in [1,999] and the current date
    as review date; it changes no other customer and no account, and appends
    one OCC entry with account number 0 and amount 0. *)
Theorem create_customer_record nm addr dob s w :
  title nm ∈ VALID_TITLES →
  scoring_returns w (reads w) →
  ∃ number row t w',
    create_customer nm addr dob s w = (Return (Some ((s, number), row)), w') ∧
    (∀ x, is_Some (customers (conn w) !! (s, x)) → x ≤ number - 1) ∧
    ((number = 1 ∧ ∀ x, customers (conn w) !! (s, x) = None) ∨
     is_Some (customers (conn w) !! (s, number - 1))) ∧
    customers (conn w) !! (s, number) = None ∧
    customers (conn w') !! (s, number) = Some row ∧
    (∀ k, k ≠ (s, number) → customers (conn w') !! k = customers (conn w) !! k) ∧
    name row = nm ∧ address row = addr ∧ date_of_birth row = dob ∧
    1 ≤ credit_score row ≤ 999 ∧
    cs_review_date row = iso_date (clock w (S (reads w))) ∧
    accounts (conn w') = accounts (conn w) ∧
    transactions (conn w') = (transactions (conn w) ++ [t])%list ∧
    audit_view t = (s, 0, "OCC", "Create customer " +:+ pretty number, 0).
Proof.
  intros Hok Hs.
  destruct (create_customer_valid nm addr dob s w Hok Hs)
    as (score & t & w' & Heq & Hrange & Hcust & Hacc & Htr & Hv & _).
  cbn zeta in *. eexists _, _, t, w'. split; [exact Heq|].
  destruct (max_number_plus_one_spec s (customers (conn w))) as [Hmax Hlast].
  split; [intros x Hx; apply Hmax in Hx; lia|]. split; [exact Hlast|].
  split; [apply max_number_plus_one_fresh|]. rewrite Hcust.
  split; [apply lookup_insert_eq|].
  split; [intros k Hk; by rewrite lookup_insert_ne|]. cbn. done.
Qed.

Lemma create_customer_record_witness :
  let w := after (create_customer "Mr A" "addr" "" SORT_CODE) TestServices.db in
  ∃ row t w',
    create_customer "Mrs Jane Smith" "1 Oak Ave" "1990-01-15" SORT_CODE w
    = (Return (Some ((SORT_CODE, 2), row)), w') ∧
    1 ≤ credit_score row ≤ 999 ∧
    audit_view t = (SORT_CODE, 0, "OCC", "Create customer 2", 0).
Proof.
  intros w.
  destruct (create_customer_record "Mrs Jane Smith" "1 Oak Ave" "1990-01-15" SORT_CODE w)
    as (number & row & t & w' & Heq & Hmax & Hlast & _ & _ & _ & _ & _ & _ & Hsc & _ & _ & _
        & Hv).
  - apply (list_elem_of_further "Mrs"), (list_elem_of_here "Mrs").
  - intros i _. simpl. eauto.
  - assert (number = 2) as ->.
    { assert (Return (Some ((SORT_CODE, number), row))
              = (create_customer "Mrs Jane Smith" "1 Oak Ave" "1990-01-15" SORT_CODE w).1)
        as Hrun by (by rewrite Heq).
      vm_compute in Hrun. by injection Hrun as -> _. }
    exists row, t, w'. split; [exact Heq|]. split; [exact Hsc|exact Hv].
Defined.

(** X16: create_account checks the account type before it looks the customer
    up: a type outside VALID_ACCOUNT_TYPES raises ValidationError whether or
    not the customer exists and whatever the customer number is, and a valid
    type with a customer number that SQLite can hold and that is not stored
    raises CustomerNotFound; in both cases nothing is changed. *)
Theorem create_account_rejections cn ty ir ol s w :
  (ty ∉ VALID_ACCOUNT_TYPES →
     create_account cn ty ir ol s w
     = (Raise (ValidationError ("Invalid account type: '" +:+ ty +:+ "'")), w)) ∧
  (ty ∈ VALID_ACCOUNT_TYPES → int64 cn → customers (conn w) !! (s, cn) = None →
     create_account cn ty ir ol s w
     = (Raise (CustomerNotFound ("Customer " +:+ pretty cn +:+ " not found")), w)).
Proof.
  split; [apply create_account_invalid_type|].
  intros Hty _. by apply create_account_no_customer.
Qed.

Lemma create_account_rejections_witness :
  let w := TestServices._setup_account 100 in
  create_account 7 "GOLD" None None SORT_CODE w
  = (Raise (ValidationError "Invalid account type: 'GOLD'"), w) ∧
  create_account 7 "ISA" None None SORT_CODE w
  = (Raise (CustomerNotFound "Customer 7 not found"), w).
Proof.
  intros w. split.
  - apply (proj1 (create_account_rejections 7 "GOLD" None None SORT_CODE w)).
    unfold VALID_ACCOUNT_TYPES. rewrite !elem_of_cons, elem_of_nil.
    intros [?|[?|[?|[?|[?|?]]]]]; done.
  - apply (proj2 (create_account_rejections 7 "ISA" None None SORT_CODE w)).
    + unfold VALID_ACCOUNT_TYPES. rewrite !elem_of_cons. tauto.
    + unfold int64. cbn. lia.
    + vm_compute. reflexivity.
Defined.

(** X17: a create_account that passes both checks, with a supplied interest
    rate and overdraft limit that SQLite can hold, stores one new account
    row under the next number (one more than the highest account number of
    the sort code, or 1 when it has no account), owned by the customer,
    opened on the current date, with the supplied interest rate or overdraft
    limit stored as given (no business check: negative values are stored);
    it changes no other account and no customer, and appends one OCA entry
    carrying the new account number and amount 0. *)
Theorem create_account_record cn ty ir ol s w :
  ty ∈ VALID_ACCOUNT_TYPES →
  is_Some (customers (conn w) !! (s, cn)) →
  (∀ r, ir = Some r → int64 r) → (∀ l, ol = Some l → int64 l) →
  ∃ number row t w',
    create_account cn ty ir ol s w = (Return (Some ((s, number), row)), w') ∧
    (∀ x, is_Some (accounts (conn w) !! (s, x)) → x ≤ number - 1) ∧
    ((number = 1 ∧ ∀ x, accounts (conn w) !! (s, x) = None) ∨
     is_Some (accounts (conn w) !! (s, number - 1))) ∧
    accounts (conn w) !! (s, number) = None ∧
    accounts (conn w') !! (s, number) = Some row ∧
    (∀ k, k ≠ (s, number) → accounts (conn w') !! k = accounts (conn w) !! k) ∧
    customer_number row = cn ∧
    opened row = iso_date (clock w (reads w)) ∧
    (∀ r, ir = Some r → interest_rate row = r) ∧
    (∀ l, ol = Some l → overdraft_limit row = l) ∧
    customers (conn w') = customers (conn w) ∧
    transactions (conn w') = (transactions (conn w) ++ [t])%list ∧
    audit_view t = (s, number, "OCA", "Create account for cust " +:+ pretty cn, 0).
Proof.
  intros Hty Hc _ _.
  destruct (create_account_valid cn ty ir ol s w Hty Hc)
    as (t & w' & Heq & Hfresh & Hacc & Hcust & Htr & Hv).
  cbn zeta in *. eexists _, _, t, w'. split; [exact Heq|].
  destruct (max_number_plus_one_spec s (accounts (conn w))) as [Hmax Hlast].
  split; [intros x Hx; apply Hmax in Hx; lia|]. split; [exact Hlast|].
  split; [exact Hfresh|]. rewrite Hacc.
  split; [apply lookup_insert_eq|].
  split; [intros k Hk; by rewrite lookup_insert_ne|]. cbn.
  split; [done|]. split; [done|].
  split; [by intros r ->|]. split; [by intros l ->|]. done.
Qed.

Lemma create_account_record_witness :
  let w := TestServices._setup_account 5000 in
  ∃ row t w',
    create_account 1 "LOAN" (Some (-5)) None SORT_CODE w
    = (Return (Some ((SORT_CODE, 2), row)), w') ∧
    interest_rate row = -5 ∧
    audit_view t = (SORT_CODE, 2, "OCA", "Create account for cust 1", 0).
Proof.
  intros w.
  destruct (create_account_record 1 "LOAN" (Some (-5)) None SORT_CODE w)
    as (number & row & t & w' & Heq & _ & _ & _ & _ & _ & _ & _ & Hir & _ & _ & _ & Hv).
  - unfold VALID_ACCOUNT_TYPES. rewrite !elem_of_cons. tauto.
  - vm_compute. eauto.
  - intros r [= <-]. unfold int64. cbn. lia.
  - intros l Hl. discriminate Hl.
  - assert (number = 2) as ->.
    { assert (Return (Some ((SORT_CODE, number), row))
              = (create_account 1 "LOAN" (Some (-5)) None SORT_CODE w).1)
        as Hrun by (by rewrite Heq).
      vm_compute in Hrun. by injection Hrun as -> _. }
    exists row, t, w'. split; [exact Heq|]. split; [by apply Hir|exact Hv].
Defined.

(** ** Money movement, continued *)

Lemma transfer_funds_rows w s f t a facc tacc :
  f ≠ t →
  accounts (conn w) !! (s, f) = Some facc →
  accounts (conn w) !! (s, t) = Some tacc →
  ∃ w' e1 e2,
    transfer_funds f t a s w
    = (Return (actual_balance facc - a, actual_balance tacc + a), w') ∧
    accounts (conn w')
    = <[(s, t) := with_balances tacc (available_balance tacc + a) (actual_balance tacc + a)]>
        (<[(s, f) := with_balances facc (available_balance facc - a) (actual_balance facc - a)]>
           (accounts (conn w))) ∧
    customers (conn w') = customers (conn w) ∧
    transactions (conn w') = (transactions (conn w) ++ [e1; e2])%list ∧
    audit_view e1 = (s, f, "TFR", "Transfer to " +:+ pretty t, a) ∧
    audit_view e2 = (s, t, "TFR", "Transfer from " +:+ pretty f, a).
Proof.
  intros Hne Hf Ht. unfold transfer_funds. engine_unfold. cbn [fst snd].
  rewrite Hf, Ht. cbn [fmap option_fmap option_map fst snd].
  assert ((s, f) ≠ (s, t)) as Hk by congruence.
  eexists _, _, _. split; [reflexivity|]. cbn.
  split; [|split; [done|split; [by rewrite <- app_assoc|done]]].
  rewrite (alter_as_insert _ (s, f) _ facc Hf).
  rewrite (alter_as_insert _ (s, t) _ tacc) by (by rewrite lookup_insert_ne).
  by destruct facc, tacc.
Qed.

(** X18: a transfer between two different accounts, with an amount of
    either sign, beyond the balance or not, such that the amount and the
    balances it leaves are integers SQLite can hold, conserves money: the
    two returned balances add up to the sum of the two actual balances
    before. Transferring the same amount back restores every account row
    exactly; the audit trail keeps the four TFR entries, two per transfer. *)
Theorem transfer_there_and_back w s f t a facc tacc :
  f ≠ t →
  accounts (conn w) !! (s, f) = Some facc →
  accounts (conn w) !! (s, t) = Some tacc →
  int64 a →
  int64 (available_balance facc - a) → int64 (actual_balance facc - a) →
  int64 (available_balance tacc + a) → int64 (actual_balance tacc + a) →
  ∃ r1 w1 r2 w2 e1 e2 e3 e4,
    transfer_funds f t a s w = (Return r1, w1) ∧
    r1 = (actual_balance facc - a, actual_balance tacc + a) ∧
    r1.1 + r1.2 = actual_balance facc + actual_balance tacc ∧
    transfer_funds t f a s w1 = (Return r2, w2) ∧
    r2 = (actual_balance tacc, actual_balance facc) ∧
    accounts (conn w2) = accounts (conn w) ∧
    customers (conn w2) = customers (conn w) ∧
    transactions (conn w1) = (transactions (conn w) ++ [e1; e2])%list ∧
    transactions (conn w2) = (transactions (conn w) ++ [e1; e2; e3; e4])%list ∧
    audit_view <$> [e1; e2; e3; e4]
    = [(s, f, "TFR", "Transfer to " +:+ pretty t, a);
       (s, t, "TFR", "Transfer from " +:+ pretty f, a);
       (s, t, "TFR", "Transfer to " +:+ pretty f, a);
       (s, f, "TFR", "Transfer from " +:+ pretty t, a)].
Proof.
  intros Hne Hf Ht _ _ _ _ _.
  destruct (transfer_funds_rows w s f t a facc tacc Hne Hf Ht)
    as (w1 & e1 & e2 & Heq1 & Hacc1 & Hc1 & Htr1 & Hv1 & Hv2).
  assert (accounts (conn w1) !! (s, t)
          = Some (with_balances tacc (available_balance tacc + a) (actual_balance tacc + a)))
    as Ht1 by (by rewrite Hacc1, lookup_insert_eq).
  assert (accounts (conn w1) !! (s, f)
          = Some (with_balances facc (available_balance facc - a) (actual_balance facc - a)))
    as Hf1.
  { rewrite Hacc1, lookup_insert_ne, lookup_insert_eq; [done|congruence]. }
  destruct (transfer_funds_rows w1 s t f a _ _ (not_eq_sym Hne) Ht1 Hf1)
    as (w2 & e3 & e4 & Heq2 & Hacc2 & Hc2 & Htr2 & Hv3 & Hv4).
  eexists _, w1, _, w2, e1, e2, e3, e4. split; [exact Heq1|]. split; [reflexivity|].
  cbn [fst snd]. split; [lia|].
  split; [exact Heq2|]. split; [destruct facc, tacc; cbn; f_equal; lia|].
  split; [|split; [congruence|split; [exact Htr1|split]]].
  - rewrite Hacc2, Hacc1. apply map_eq. intros k.
    destruct (decide (k = (s, f))) as [->|Hkf].
    + rewrite lookup_insert_eq, Hf. destruct facc. unfold with_balances. cbn.
      do 2 f_equal; lia.
    + rewrite lookup_insert_ne by done.
      destruct (decide (k = (s, t))) as [->|Hkt].
      * rewrite lookup_insert_eq, Ht. destruct tacc. unfold with_balances. cbn.
        do 2 f_equal; lia.
      * by rewrite !lookup_insert_ne.
  - by rewrite Htr2, Htr1, <- app_assoc.
  - cbn [fmap list_fmap]. by rewrite Hv1, Hv2, Hv3, Hv4.
Qed.

Lemma transfer_there_and_back_witness :
  let w := TestServices._setup_two_accounts 5000 0 in
  ∃ r1 w1 r2 w2 e1 e2 e3 e4,
    transfer_funds 1 2 10000 SORT_CODE w = (Return r1, w1) ∧
    r1 = (5000 - 10000, 0 + 10000) ∧
    r1.1 + r1.2 = 5000 + 0 ∧
    transfer_funds 2 1 10000 SORT_CODE w1 = (Return r2, w2) ∧
    r2 = (0, 5000) ∧
    accounts (conn w2) = accounts (conn w) ∧
    customers (conn w2) = customers (conn w) ∧
    transactions (conn w1) = (transactions (conn w) ++ [e1; e2])%list ∧
    transactions (conn w2) = (transactions (conn w) ++ [e1; e2; e3; e4])%list ∧
    audit_view <$> [e1; e2; e3; e4]
    = [(SORT_CODE, 1, "TFR", "Transfer to " +:+ pretty 2, 10000);
       (SORT_CODE, 2, "TFR", "Transfer from " +:+ pretty 1, 10000);
       (SORT_CODE, 2, "TFR", "Transfer to " +:+ pretty 1, 10000);
       (SORT_CODE, 1, "TFR", "Transfer from " +:+ pretty 2, 10000)].
Proof.
  intros w.
  apply (transfer_there_and_back w SORT_CODE 1 2 10000
           (Account 1 "CURRENT" 0 "2026-11-03" 0 None None 5000 5000)
           (Account 1 "SAVING" 150 "2026-11-03" 0 None None 0 0)).
  - lia.
  - vm_compute. reflexivity.
  - vm_compute. reflexivity.
  - unfold int64. cbn. lia.
  - unfold int64. cbn. lia.
  - unfold int64. cbn. lia.
  - unfold int64. cbn. lia.
  - unfold int64. cbn. lia.
Defined.

Lemma debit_credit_rows n a d s w acc :
  accounts (conn w) !! (s, n) = Some acc →
  (d = true → (account_type acc ∉ ["MORTGAGE"; "LOAN"]) ∧ (¬ (available_balance acc - a < 0))) →
  let delta := if d then - a else a in
  ∃ w' t,
    debit_credit n a d s w
    = (Return (available_balance acc + delta, actual_balance acc + delta), w') ∧
    accounts (conn w')
    = <[(s, n) := with_balances acc (available_balance acc + delta)
                                (actual_balance acc + delta)]> (accounts (conn w)) ∧
    customers (conn w') = customers (conn w) ∧
    transactions (conn w') = (transactions (conn w) ++ [t])%list ∧
    audit_view t = (s, n, if d then "DEB" else "CRE",
                    (if d then "Debit" else "Credit") +:+ " " +:+ pretty a, Z.abs delta).
Proof.
  intros Hacc Hd delta. subst delta. unfold debit_credit. engine_unfold. cbn [fst snd].
  rewrite Hacc. cbn [fmap option_fmap option_map fst snd].
  destruct d.
  - destruct Hd as [Hty Hav]; [done|].
    rewrite decide_False by done. rewrite decide_False by lia. cbn.
    rewrite (alter_as_insert _ (s, n) _ acc Hacc). destruct acc.
    eexists _, _. split; [reflexivity|]. cbn. repeat split.
  - cbn. rewrite (alter_as_insert _ (s, n) _ acc Hacc). destruct acc.
    eexists _, _. split; [reflexivity|]. cbn. repeat split.
Qed.

(** X19: a credit on a stored account is never refused by a business rule:
    whatever the account type and the sign of the amount, provided the two
    resulting balances and the absolute value of the amount are integers
    SQLite can hold, debit_credit with is_debit = False returns, adds the
    amount to both balances (which a negative amount may drive below zero)
    and appends one CRE entry with the absolute value of the amount. *)
Theorem credit_never_refused n a s w acc :
  accounts (conn w) !! (s, n) = Some acc →
  int64 (available_balance acc + a) → int64 (actual_balance acc + a) →
  int64 (Z.abs a) →
  ∃ w' acc' t,
    debit_credit n a false s w
    = (Return (available_balance acc + a, actual_balance acc + a), w') ∧
    accounts (conn w') !! (s, n) = Some acc' ∧
    acc' = with_balances acc (available_balance acc + a) (actual_balance acc + a) ∧
    available_balance acc' = available_balance acc + a ∧
    actual_balance acc' = actual_balance acc + a ∧
    transactions (conn w') = (transactions (conn w) ++ [t])%list ∧
    audit_view t = (s, n, "CRE", "Credit " +:+ pretty a, Z.abs a).
Proof.
  intros Hacc _ _ _.
  destruct (debit_credit_rows n a false s w acc Hacc) as (w' & t & Heq & Hrows & _ & Htr & Hv);
    [done|].
  cbn zeta in *. eexists w', _, t. split; [exact Heq|].
  rewrite Hrows, lookup_insert_eq. split; [reflexivity|]. split; [reflexivity|].
  by destruct acc.
Qed.

Lemma credit_never_refused_witness :
  let w := TestServices._setup_account 5000 in
  ∃ w' acc' t,
    debit_credit 1 (-7000) false SORT_CODE w
    = (Return (5000 + -7000, 5000 + -7000), w') ∧
    accounts (conn w') !! (SORT_CODE, 1) = Some acc' ∧
    acc' = Account 1 "CURRENT" 0 "2026-11-03" 0 None None (5000 + -7000) (5000 + -7000) ∧
    available_balance acc' = 5000 + -7000 ∧
    actual_balance acc' = 5000 + -7000 ∧
    transactions (conn w') = (transactions (conn w) ++ [t])%list ∧
    audit_view t = (SORT_CODE, 1, "CRE", "Credit " +:+ pretty (-7000), Z.abs (-7000)).
Proof.
  intros w.
  apply (credit_never_refused 1 (-7000) SORT_CODE w
           (Account 1 "CURRENT" 0 "2026-11-03" 0 None None 5000 5000)).
  - vm_compute. reflexivity.
  - unfold int64. cbn. lia.
  - unfold int64. cbn. lia.
  - unfold int64. cbn. lia.
Defined.

(** X20: debit_credit with a number SQLite can hold raises AccountNotFound,
    changing nothing, when the account is not stored (before any check of
    type or funds). When it
    returns, the account keeps its owner, type, interest rate, overdraft
    limit and opening date, and no other account and no customer is
    changed. *)
Theorem debit_credit_frame n a d s w :
  (int64 n → accounts (conn w) !! (s, n) = None →
     debit_credit n a d s w
     = (Raise (AccountNotFound ("Account " +:+ pretty n +:+ " not found")), w)) ∧
  (∀ acc r w',
     accounts (conn w) !! (s, n) = Some acc →
     debit_credit n a d s w = (Return r, w') →
     accounts (conn w') !! (s, n) = Some (with_balances acc r.1 r.2) ∧
     (∀ k, k ≠ (s, n) → accounts (conn w') !! k = accounts (conn w) !! k) ∧
     customers (conn w') = customers (conn w)).
Proof.
  split.
  - intros _ Hacc. unfold debit_credit. rewrite bind_eval.
    unfold AccountDAO.get at 1. unfold query at 1. by rewrite Hacc.
  - intros acc r w' Hacc Heq.
    assert (d = true → (account_type acc ∉ ["MORTGAGE"; "LOAN"]) ∧
                       (¬ (available_balance acc - a < 0))) as Hd.
    { intros ->. unfold debit_credit in Heq. engine_unfold. cbn [fst snd] in Heq.
      rewrite Hacc in Heq. cbn [fmap option_fmap option_map fst snd] in Heq.
      destruct (decide (account_type acc ∈ ["MORTGAGE"; "LOAN"])); [done|].
      destruct (decide (available_balance acc + - a < 0)); [done|].
      split; [done|lia]. }
    destruct (debit_credit_rows n a d s w acc Hacc Hd) as (w'' & t & Heq' & Hrows & Hc & _).
    cbn zeta in *. rewrite Heq' in Heq. injection Heq as <- <-. cbn [fst snd].
    rewrite Hrows. split; [apply lookup_insert_eq|]. split; [|done].
    intros k Hk. by rewrite lookup_insert_ne.
Qed.

Lemma debit_credit_frame_witness :
  let w := TestServices._setup_two_accounts 100000 50000 in
  let w' := after (debit_credit 1 10000 true SORT_CODE) w in
  debit_credit 7 10000 true SORT_CODE w
  = (Raise (AccountNotFound ("Account " +:+ pretty 7 +:+ " not found")), w) ∧
  accounts (conn w') !! (SORT_CODE, 1)
  = Some (with_balances (Account 1 "CURRENT" 0 "2026-11-03" 0 None None 100000 100000)
                        90000 90000) ∧
  (∀ k, k ≠ (SORT_CODE, 1) → accounts (conn w') !! k = accounts (conn w) !! k) ∧
  customers (conn w') = customers (conn w).
Proof.
  intros w w'. split.
  { apply (proj1 (debit_credit_frame 7 10000 true SORT_CODE w)).
    - unfold int64. cbn. lia.
    - vm_compute. reflexivity. }
  apply (proj2 (debit_credit_frame 1 10000 true SORT_CODE w)
           (Account 1 "CURRENT" 0 "2026-11-03" 0 None None 100000 100000) (90000, 90000) w').
  - vm_compute. reflexivity.
  - vm_compute. reflexivity.
Defined.

(** ** Identifiers and counts *)



Lemma in_sortcode_insert {V} (s : string) (t : gmap key V) k v :
  t !! k = None →
  in_sortcode s (<[k := v]> t)
  ≡ₚ if decide (k.1 = s) then (k, v) :: in_sortcode s t else in_sortcode s t.
Proof.
  intros Hk. unfold in_sortcode. rewrite (map_to_list_insert _ _ _ Hk).
  rewrite filter_cons. cbn. by case_decide.
Qed.

(** X22: the customer count is kept per sort code. A create_customer that
    returns raises CustomerDAO.count of its sort code by exactly one and
    leaves the count of every other sort code, and every account count, as
    it was. *)
Theorem create_customer_counts nm addr dob s w row w' :
  create_customer nm addr dob s w = (Return (Some row), w') →
  (CustomerDAO.count s w').1
  = Return (Z.of_nat (length (in_sortcode s (customers (conn w)))) + 1) ∧
  (CustomerDAO.count s w).1
  = Return (Z.of_nat (length (in_sortcode s (customers (conn w))))) ∧
  (∀ s', s' ≠ s → (CustomerDAO.count s' w').1 = (CustomerDAO.count s' w).1) ∧
  (∀ s', (AccountDAO.count s' w').1 = (AccountDAO.count s' w).1).
Proof.
  intros Heq.
  assert (title nm ∈ VALID_TITLES) as Hok.
  { destruct (decide (title nm ∈ VALID_TITLES)) as [|Hbad]; [done|].
    by rewrite (create_customer_invalid _ _ _ _ _ Hbad) in Heq. }
  assert (∃ score today,
            customers (conn w')
            = <[(s, max_number_plus_one s (customers (conn w))) :=
                  Customer nm addr dob score today]> (customers (conn w)) ∧
            accounts (conn w') = accounts (conn w)) as (score & today & Hcust & Hacc).
  { revert Heq. unfold create_customer. rewrite bind_eval, title_of_returns.
    case_decide; [done|].
    rewrite bind_eval. unfold CustomerDAO.next_number at 1. unfold query at 1.
    rewrite bind_eval.
    destruct (credit_check_outcome w) as [(v & -> & _)| ->]; [|done].
    engine_unfold. cbn [fst snd]. rewrite max_number_plus_one_fresh. cbn.
    intros [= _ <-]. cbn. eauto. }
  unfold CustomerDAO.count, AccountDAO.count, query. cbn [fst].
  rewrite Hcust, Hacc.
  pose proof (max_number_plus_one_fresh s (customers (conn w))) as Hfresh.
  split; [|split; [done|split; [|done]]].
  - rewrite (in_sortcode_insert s _ _ _ Hfresh). cbn [fst].
    rewrite decide_True by done. cbn [length]. do 2 f_equal. lia.
  - intros s' Hs'. rewrite (in_sortcode_insert s' _ _ _ Hfresh). cbn [fst].
    by rewrite decide_False by done.
Qed.

Lemma create_customer_counts_witness :
  let w := after (create_customer "Mr A" "addr" "" SORT_CODE) TestServices.db in
  let w' := after (create_customer "Mrs B" "addr" "" SORT_CODE) w in
  (CustomerDAO.count SORT_CODE w').1
  = Return (Z.of_nat (length (in_sortcode SORT_CODE (customers (conn w)))) + 1) ∧
  (CustomerDAO.count SORT_CODE w).1
  = Return (Z.of_nat (length (in_sortcode SORT_CODE (customers (conn w))))) ∧
  (∀ s', s' ≠ SORT_CODE → (CustomerDAO.count s' w').1 = (CustomerDAO.count s' w).1) ∧
  (∀ s', (AccountDAO.count s' w').1 = (AccountDAO.count s' w).1).
Proof.
  intros w w'.
  apply (create_customer_counts "Mrs B" "addr" "" SORT_CODE w
           ((SORT_CODE, 2), Customer "Mrs B" "addr" "" 278 "2026-11-03") w').
  vm_compute. reflexivity.
Defined.

(** ** Listings *)

Lemma NoDup_in_sortcode {V} (s : string) (t : gmap key V) :
  NoDup (order_by_number (in_sortcode s t)).*1.
Proof.
  unfold order_by_number. rewrite merge_sort_Permutation. unfold in_sortcode.
  eapply sublist_NoDup; last (apply fmap_sublist, sublist_filter).
  apply NoDup_fst_map_to_list.
Qed.

(** X23: the customer listing route never fails and writes nothing. It
    returns at most 100 stored customers of the bank's sort code in strictly
    ascending customer number; a stored customer that is left out is numbered
    above all 100 listed ones. *)
Theorem api_list_customers_page w :
  ∃ rows,
    Api.list_customers w = (Return (Api._ok (Some rows) ""), w) ∧
    (length rows ≤ 100)%nat ∧
    StronglySorted Z.lt ((λ r, r.1.2) <$> rows) ∧
    (∀ r, r ∈ rows → r.1.1 = SORT_CODE ∧ customers (conn w) !! r.1 = Some r.2) ∧
    (∀ n c, customers (conn w) !! (SORT_CODE, n) = Some c →
            ((SORT_CODE, n), c) ∈ rows ∨
            (length rows = 100%nat ∧ ∀ r, r ∈ rows → r.1.2 < n)).
Proof.
  set (l := order_by_number (in_sortcode SORT_CODE (customers (conn w)))).
  assert (∀ r, r ∈ l ↔ r.1.1 = SORT_CODE ∧ customers (conn w) !! r.1 = Some r.2) as Hl.
  { intros r. unfold l, order_by_number. rewrite merge_sort_Permutation.
    apply elem_of_in_sortcode. }
  assert (StronglySorted Z.lt ((λ r, r.1.2) <$> l)) as Hasc.
  { apply (strictly_ascending SORT_CODE); [apply NoDup_in_sortcode| |].
    - intros r Hr. by apply Hl in Hr as [? _].
    - apply (StronglySorted_merge_sort number_le). }
  exists (take 100 l).
  rewrite <- (take_drop 100 l) in Hasc.
  rewrite fmap_app in Hasc. apply StronglySorted_app in Hasc as (Hlt & Htake & _).
  split; [|split; [|split; [|split]]].
  - done.
  - rewrite length_take. lia.
  - done.
  - intros r Hr. eapply elem_of_sublist in Hr; [|apply sublist_take]. by apply Hl.
  - intros n c Hc.
    assert (((SORT_CODE, n), c) ∈ l) as Hin by (by apply Hl).
    rewrite <- (take_drop 100 l) in Hin.
    apply elem_of_app in Hin as [Hin|Hin]; [by left|]. right. split.
    + apply length_take_le. destruct (decide (100 ≤ length l))%nat; [done|].
      rewrite drop_ge in Hin by lia. by apply elem_of_nil in Hin.
    + intros r Hr. apply (Hlt r.1.2 n); apply list_elem_of_fmap;
        [by exists r|by exists ((SORT_CODE, n), c)].
Qed.

Global Instance id_ge_transitive : Transitive TransactionDAO.id_ge.
Proof. unfold TransactionDAO.id_ge. intros x y z. lia. Qed.
Global Instance id_ge_total : Total TransactionDAO.id_ge.
Proof. unfold TransactionDAO.id_ge. intros x y. lia. Qed.

(** X24: TransactionDAO.get_by_account with an account number SQLite can
    hold and a limit from 0 up to the largest such integer reads without
    writing and returns at most limit entries, every one an audit entry
    logged for exactly that sort code and account number, ordered by
    descending id; an entry of the account that is left out has an id no
    larger than any returned one. The history route is this query with the
    bank's sort code and limit 50; it succeeds for every such account
    number. *)
Theorem get_by_account_newest_first s n limit w :
  int64 n →
  0 ≤ limit < 2 ^ 63 →
  ∃ rows,
    TransactionDAO.get_by_account s n limit w = (Return rows, w) ∧
    (length rows ≤ Z.to_nat limit)%nat ∧
    StronglySorted (λ t1 t2, id t2 ≤ id t1) rows ∧
    (∀ t, t ∈ rows → t ∈ transactions (conn w) ∧ sortcode t = s ∧ account_number t = n) ∧
    (∀ t, t ∈ transactions (conn w) → sortcode t = s → account_number t = n →
          t ∈ rows ∨ (length rows = Z.to_nat limit ∧ ∀ r, r ∈ rows → id t ≤ id r)) ∧
    (s = SORT_CODE → limit = 50 →
       Api.get_transactions n w = (Return (Api._ok (Some rows) ""), w)).
Proof.
  intros _ [Hlimit _].
  set (l := merge_sort TransactionDAO.id_ge
              (filter (logged_for s n) (transactions (conn w)))).
  assert (∀ t, t ∈ l ↔ logged_for s n t ∧ t ∈ transactions (conn w)) as Hl.
  { intros t. unfold l. rewrite merge_sort_Permutation. apply list_elem_of_filter. }
  assert (StronglySorted TransactionDAO.id_ge l) as Hsort
    by apply (StronglySorted_merge_sort TransactionDAO.id_ge).
  exists (take (Z.to_nat limit) l).
  rewrite <- (take_drop (Z.to_nat limit) l) in Hsort.
  apply StronglySorted_app in Hsort as (Hge & Htake & _).
  split; [|split; [|split; [|split; [|split]]]].
  - unfold TransactionDAO.get_by_account, query, sql_limit.
    by rewrite decide_False by lia.
  - rewrite length_take. lia.
  - done.
  - intros t Ht. eapply elem_of_sublist in Ht; [|apply sublist_take].
    apply Hl in Ht as [[? ?] ?]. done.
  - intros t Ht Hs Hn.
    assert (t ∈ l) as Hin by (by apply Hl).
    rewrite <- (take_drop (Z.to_nat limit) l) in Hin.
    apply elem_of_app in Hin as [Hin|Hin]; [by left|]. right. split.
    + apply length_take_le. destruct (decide (Z.to_nat limit ≤ length l))%nat; [done|].
      rewrite drop_ge in Hin by lia. by apply elem_of_nil in Hin.
    + intros r Hr. by apply (Hge r t).
  - intros -> ->. unfold Api.get_transactions, Api._get_db.
    rewrite bind_eval. unfold TransactionDAO.get_by_account, query, sql_limit.
    by rewrite decide_False by lia.
Qed.

Lemma get_by_account_newest_first_witness :
  let w := after (transfer_funds 1 2 300 SORT_CODE) (TestServices._setup_two_accounts 1000 500) in
  let w := after (debit_credit 1 50 false SORT_CODE) w in
  ∃ rows,
    TransactionDAO.get_by_account SORT_CODE 1 50 w = (Return rows, w) ∧
    audit_view <$> rows
    = [(SORT_CODE, 1, "CRE", "Credit 50", 50);
       (SORT_CODE, 1, "TFR", "Transfer to 2", 300);
       (SORT_CODE, 1, "OCA", "Create account for cust 1", 0)].
Proof.
  intros w0 w.
  destruct (get_by_account_newest_first SORT_CODE 1 50 w) as (rows & Heq & _).
  { unfold int64. cbn. lia. }
  { lia. }
  exists rows. split; [exact Heq|].
  assert (Return rows = (TransactionDAO.get_by_account SORT_CODE 1 50 w).1) as Hrows
    by (by rewrite Heq).
  vm_compute in Hrows. injection Hrows as ->. vm_compute. reflexivity.
Defined.

(** ** Credit scoring with any number of agencies *)

(** X25: credit_check never divides by zero. With num_agencies at most 0 the
    pool is refused with ValueError before any probe is submitted. With a
    positive number of agencies whose probes all return in time, the score
    is between 1 and 999; when some probe is late the call raises
    TimeoutError. *)
Theorem credit_check_any_agencies k w :
  (k ≤ 0 →
     credit_check k w = (Raise (ValueError "max_workers must be greater than 0"), w)) ∧
  (0 < k → (∀ i, 0 ≤ i < k → is_Some (probe w (reads w) i)) →
     ∃ v, credit_check k w = (Return v, tick w) ∧ 1 ≤ v ≤ 999) ∧
  (0 < k → (∃ i, 0 ≤ i < k ∧ probe w (reads w) i = None) →
     credit_check k w = (Raise TimeoutError, tick w)).
Proof.
  split; [|split].
  - intros Hk. unfold credit_check. by rewrite decide_True by done.
  - intros Hk Hall.
    set (scores := (λ i, single_agency (default 0 (probe w (reads w) i))) <$> seqZ 0 k).
    assert ((λ i, single_agency <$> probe w (reads w) i) <$> seqZ 0 k = Some <$> scores)
      as Hfut.
    { unfold scores. rewrite <- list_fmap_compose. apply list_fmap_ext.
      intros j i Hi. apply list_elem_of_lookup_2, elem_of_seqZ in Hi.
      destruct (Hall i) as [r Hr]; [lia|]. cbn. by rewrite Hr. }
    assert (Z.of_nat (length scores) = k) as Hlen.
    { unfold scores. rewrite length_fmap, length_seqZ. lia. }
    assert (Forall (λ v, 1 ≤ v ≤ 999) scores) as Hrange.
    { apply Forall_fmap, Forall_forall. intros x _. apply single_agency_range. }
    exists (sum scores `div` k). split.
    + unfold credit_check, submit_all. rewrite decide_False by lia.
      rewrite bind_eval. cbn -[results single_agency Z.div sum seqZ].
      rewrite Hfut, bind_eval, results_all. cbn -[Z.div sum]. by rewrite Hlen.
    + pose proof (sum_bounds scores Hrange) as Hsum. rewrite Hlen in Hsum. split.
      * apply Z.div_le_lower_bound; lia.
      * apply Z.div_le_upper_bound; lia.
  - intros Hk (i & Hi & Hnone).
    unfold credit_check, submit_all. rewrite decide_False by lia.
    rewrite bind_eval. cbn -[results single_agency Z.div sum seqZ].
    rewrite bind_eval, results_late; [done|].
    apply list_elem_of_fmap. exists i. rewrite Hnone. split; [done|].
    apply elem_of_seqZ. lia.
Qed.

Lemma credit_check_any_agencies_witness :
  ∃ v, credit_check 3 TestServices.db = (Return v, tick TestServices.db) ∧ 1 ≤ v ≤ 999.
Proof.
  apply (proj1 (proj2 (credit_check_any_agencies 3 TestServices.db))); [lia|].
  intros i Hi.
  assert (i = 0 ∨ i = 1 ∨ i = 2) as [->|[->| ->]] by lia; vm_compute; eauto.
Defined.

(** ** Reading back what was created *)

Lemma last_row_of_fresh {V} (s : string) (t : gmap key V) v :
  head (sql_limit 1 (order_by_number_desc
          (in_sortcode s (<[(s, max_number_plus_one s t) := v]> t))))
  = Some ((s, max_number_plus_one s t), v).
Proof.
  set (m := max_number_plus_one s t).
  pose proof (last_row_spec s (<[(s, m) := v]> t)) as Hlast.
  destruct (head _) as [[[s' x] v']|]; cbn in Hlast.
  - destruct Hlast as (-> & Hstored & Hmax).
    specialize (Hmax m ltac:(rewrite lookup_insert_eq; eauto)).
    destruct (decide (x = m)) as [->|Hne].
    + rewrite lookup_insert_eq in Hstored. by simplify_eq.
    + rewrite lookup_insert_ne in Hstored by congruence.
      pose proof (proj1 (max_number_plus_one_spec s t) x ltac:(eauto)). fold m in H. lia.
  - specialize (Hlast m). by rewrite lookup_insert_eq in Hlast.
Qed.

Lemma create_customer_stored nm addr dob s w row w' :
  create_customer nm addr dob s w = (Return (Some row), w') →
  row.1 = (s, max_number_plus_one s (customers (conn w))) ∧
  customers (conn w') = <[row.1 := row.2]> (customers (conn w)).
Proof.
  intros Heq.
  assert (title nm ∈ VALID_TITLES) as Hok.
  { destruct (decide (title nm ∈ VALID_TITLES)) as [|Hbad]; [done|].
    by rewrite (create_customer_invalid _ _ _ _ _ Hbad) in Heq. }
  revert Heq. unfold create_customer. rewrite bind_eval, title_of_returns.
  case_decide; [done|].
  rewrite bind_eval. unfold CustomerDAO.next_number at 1. unfold query at 1.
  rewrite bind_eval.
  destruct (credit_check_outcome w) as [(v & -> & _)| ->]; [|done].
  engine_unfold. cbn [fst snd]. rewrite max_number_plus_one_fresh. cbn.
  rewrite lookup_insert_eq. cbn. intros [= <- <-]. done.
Qed.

(** X26: a customer can be read back under the number create_customer
    returned. Whenever create_customer returns a record whose number is not
    0 (the number that get_customer reads as a request for a random
    customer), get_customer with that number returns exactly that record and
    writes nothing; this also holds for numbers from 9999999999 on, which
    get_customer reads as a request for the last customer. *)
Theorem create_customer_then_get nm addr dob s w row w' :
  create_customer nm addr dob s w = (Return (Some row), w') →
  row.1.2 ≠ 0 →
  get_customer s row.1.2 w' = (Return row, w').
Proof.
  intros Heq Hnz. apply create_customer_stored in Heq as [Hkey Hcust].
  destruct row as [k v]. cbn in *. subst k. cbn in *.
  unfold get_customer. rewrite decide_False by done. rewrite bind_eval.
  case_decide.
  - unfold CustomerDAO.get_last, query. by rewrite Hcust, last_row_of_fresh.
  - unfold CustomerDAO.get, query. by rewrite Hcust, lookup_insert_eq.
Qed.

Lemma create_customer_then_get_witness :
  let row := ((SORT_CODE, 1), Customer "Mr A" "addr" "" 275 "2026-11-03") in
  let w' := after (create_customer "Mr A" "addr" "" SORT_CODE) TestServices.db in
  get_customer SORT_CODE 1 w' = (Return row, w').
Proof.
  intros row w'.
  apply (create_customer_then_get "Mr A" "addr" "" SORT_CODE TestServices.db row w').
  - vm_compute. reflexivity.
  - cbn. lia.
Defined.

(** X27: an account can be read back under the number create_account
    returned. For a valid account type, a stored customer and a supplied
    interest rate and overdraft limit that SQLite can hold, create_account
    returns a record and get_account with the returned number then returns
    exactly that record and writes nothing, also when the number is
    99999999 or more, which get_account reads as a request for the last
    account. *)
Theorem create_account_then_get cn ty ir ol s w :
  ty ∈ VALID_ACCOUNT_TYPES →
  is_Some (customers (conn w) !! (s, cn)) →
  (∀ r, ir = Some r → int64 r) → (∀ l, ol = Some l → int64 l) →
  ∃ row w',
    create_account cn ty ir ol s w = (Return (Some row), w') ∧
    row.1.1 = s ∧ customer_number row.2 = cn ∧ account_type row.2 = ty ∧
    get_account s row.1.2 w' = (Return row, w').
Proof.
  intros Hty Hc _ _.
  destruct (create_account_valid cn ty ir ol s w Hty Hc)
    as (t & w' & Heq & _ & Hacc & _).
  cbn zeta in *. eexists _, w'. split; [exact Heq|]. cbn [fst snd].
  split; [done|]. split; [done|]. split; [done|].
  unfold get_account. rewrite bind_eval. case_decide.
  - unfold AccountDAO.get_last, query. by rewrite Hacc, last_row_of_fresh.
  - unfold AccountDAO.get, query. by rewrite Hacc, lookup_insert_eq.
Qed.

Lemma create_account_then_get_witness :
  let w := TestServices._setup_account 5000 in
  ∃ row w',
    create_account 1 "LOAN" None (Some 250) SORT_CODE w = (Return (Some row), w') ∧
    row.1.1 = SORT_CODE ∧ customer_number row.2 = 1 ∧ account_type row.2 = "LOAN" ∧
    get_account SORT_CODE row.1.2 w' = (Return row, w').
Proof.
  intros w. apply (create_account_then_get 1 "LOAN" None (Some 250) SORT_CODE w).
  - unfold VALID_ACCOUNT_TYPES. rewrite !elem_of_cons. tauto.
  - vm_compute. eauto.
  - intros r Hr. discriminate Hr.
  - intros l [= <-]. unfold int64. cbn. lia.
Defined.

